(** * clawdbot-wechat-bridge: a shallow embedding of the bridge service

    The bridge relays WeChat Official Account messages to a user's Clawdbot
    instance and delivers the asynchronous results back.  This file embeds
    the parts of the TypeScript sources that the binding protocol rests on:

    - [utils/signature.ts]                  ([validateSignature], [generateSignature])
    - [services/redis.ts]                   ([setBinding], [getBinding], [deleteBinding])
    - [services/wechat-token.ts]            ([getAccessToken], [refreshAccessToken], [forceRefreshToken])
    - [services/wechat-message.ts]          ([sendCustomerServiceMessage], [sendTextMessage])
    - [services/clawdbot-forwarder.ts]      ([doForward], the task switch)
    - [routes/wechat.ts], [routes/callback.ts]  (the HTTP handlers)
    - [config.ts]                           ([requireEnv], [loadConfig], [getConfig])

    Conventions.  A JavaScript string is a Rocq [string], one [ascii] per
    code unit: the texts the model ranges over are those of code units
    below 256.  The Chinese literals of the sources are kept as their
    UTF-8 bytes, so a literal is longer here than its [length] in the
    code, and a text that contains one reaches the 600-unit ceiling of
    [sendTextMessage] earlier here than there.  An element of the WeChat
    envelope is a leaf as the XML parser delivers it: a string, a number
    or a boolean.  Library functions the sources call but do not define
    (SHA-1, JSON, the URL parser, the XML parser, number formatting and
    [parseInt]) are interfaces: the code is embedded over any
    implementation of them.
    All but the XML parser come with a reference implementation for
    running the model.  The store is always reachable.  Time passes
    only at the timers of the code.  Console output is not modelled. *)

From Stdlib Require Import ZArith Lia Bool List Ascii String.
From Stdlib Require Import Sorting.Sorted Sorting.Permutation.
From Stdlib Require Import Numbers.DecimalString.
From stdpp Require Import base option gmap strings.

Open Scope string_scope.
Open Scope Z_scope.

Set Warnings "-register-all".

(* stdpp freezes string concatenation under [simpl]; the proofs below
   compute with it. *)
#[global] Arguments String.append !s1 s2 : simpl nomatch.

(** ** JavaScript strings *)

Module JsString.

Notation "a +++ b" := (String.append a b)
  (at level 60, right associativity) : string_scope.

(** [s.length] *)
Definition len (s : string) : Z := Z.of_nat (String.length s).

(** The code units [\s] matches in a regular expression, and that
    [trim] and [trimStart] remove, among those below 256: TAB, LF, VT,
    FF, CR, SPACE and NBSP. *)
Definition is_space (c : ascii) : bool :=
  let n := nat_of_ascii c in
  ((9 <=? n)%nat && (n <=? 13)%nat) || (n =? 32)%nat || (n =? 160)%nat.

Fixpoint trimStart (s : string) : string :=
  match s with
  | String c s' => if is_space c then trimStart s' else s
  | EmptyString => EmptyString
  end.

Fixpoint trimEnd (s : string) : string :=
  match s with
  | String c s' =>
      match trimEnd s' with
      | EmptyString => if is_space c then EmptyString else String c EmptyString
      | t => String c t
      end
  | EmptyString => EmptyString
  end.

Definition trim (s : string) : string := trimEnd (trimStart s).

(** [s.substring(0, n)] and [s.substring(n)] for [0 <= n]. *)
Fixpoint take (n : nat) (s : string) : string :=
  match n, s with
  | S n', String c s' => String c (take n' s')
  | _, _ => EmptyString
  end.

Fixpoint drop (n : nat) (s : string) : string :=
  match n, s with
  | S n', String _ s' => drop n' s'
  | _, _ => s
  end.

(** Longest prefix of code units satisfying [p], and the rest. *)
Fixpoint span (p : ascii -> bool) (s : string) : string * string :=
  match s with
  | String c s' =>
      if p c then let '(a, b) := span p s' in (String c a, b)
      else (EmptyString, s)
  | EmptyString => (EmptyString, EmptyString)
  end.

(** Position of the last [c] among the first [n] code units of [s],
    counted from [base]. *)
Fixpoint last_in_prefix (c : ascii) (n : nat) (base : Z) (s : string)
  : option Z :=
  match n, s with
  | S n', String d s' =>
      match last_in_prefix c n' (base + 1) s' with
      | Some i => Some i
      | None => if Ascii.eqb d c then Some base else None
      end
  | _, _ => None
  end.

(** [s.lastIndexOf(c, fromIndex)] for a one-unit search string and
    [0 <= fromIndex]: the greatest index [i <= fromIndex] with
    [s[i] = c], or [-1]. *)
Definition lastIndexOf (s : string) (c : ascii) (fromIndex : nat) : Z :=
  match last_in_prefix c (S fromIndex) 0 s with
  | Some i => i
  | None => -1
  end.

(** ASCII lower case, the only case folding [/i] performs on the
    letters of the two command words. *)
Definition lower (c : ascii) : ascii :=
  let n := nat_of_ascii c in
  if ((65 <=? n)%nat && (n <=? 90)%nat) then ascii_of_nat (n + 32) else c.

Fixpoint lower_string (s : string) : string :=
  match s with
  | String c s' => String (lower c) (lower_string s')
  | EmptyString => EmptyString
  end.

(** Decimal rendering of an integer, as a template literal does. *)
Definition of_Z (n : Z) : string := NilEmpty.string_of_int (Z.to_int n).

(** [x || d] on an optional string: a missing or empty string is falsy. *)
Definition or_else (x : option string) (d : string) : string :=
  match x with
  | Some (String c s) => String c s
  | _ => d
  end.

(** Truthiness of an optional string. *)
Definition truthy (x : option string) : bool :=
  match x with
  | Some (String _ _) => true
  | _ => false
  end.

End JsString.

Import JsString.

(** ** utils/signature.ts *)

(** [crypto.createHash('sha1').update(s).digest('hex')] *)
Class Crypto := { sha1_hex : string -> string }.

Module Signature.

(** [Array.prototype.sort()] with the default comparator orders strings
    by code units; on strings every correct sort returns the same
    array, here by insertion. *)
Fixpoint insert (x : string) (l : list string) : list string :=
  match l with
  | [] => [x]
  | y :: l' => if String.leb x y then x :: l else y :: insert x l'
  end.

Fixpoint sort (l : list string) : list string :=
  match l with
  | [] => []
  | x :: l' => insert x (sort l')
  end.

(** [arr.join('')] *)
Definition join (l : list string) : string := String.concat "" l.

Section WithCrypto.
Context `{Crypto}.

Definition generateSignature (token timestamp nonce : string) : string :=
  let arr := sort [token; timestamp; nonce] in
  sha1_hex (join arr).

Definition validateSignature (token signature timestamp nonce : string)
  : bool :=
  let arr := sort [token; timestamp; nonce] in
  let hash := sha1_hex (join arr) in
  String.eqb hash signature.

End WithCrypto.

(** Replacing the code unit at index [i] of [s] by [c]. *)
Fixpoint set_char (i : nat) (c : ascii) (s : string) : string :=
  match s, i with
  | String _ s', O => String c s'
  | String d s', S i' => String d (set_char i' c s')
  | EmptyString, _ => EmptyString
  end.

End Signature.

(** ** services/wechat-message.ts: the chunk loop of [sendTextMessage] *)

Module Chunking.

(** [const MAX_LENGTH = 600] *)
Definition MAX_LENGTH : nat := 600.

Definition LF : ascii := ascii_of_nat 10.
Definition SP : ascii := ascii_of_nat 32.

(** The three assignments to [splitIndex] of one loop iteration. *)
Definition splitIndex (remaining : string) : Z :=
  let max := Z.of_nat MAX_LENGTH in
  let splitIndex := lastIndexOf remaining LF MAX_LENGTH in
  let splitIndex :=
    if (splitIndex =? -1) || (splitIndex <? max / 2)
    then lastIndexOf remaining SP MAX_LENGTH else splitIndex in
  let splitIndex :=
    if (splitIndex =? -1) || (splitIndex <? max / 2)
    then max else splitIndex in
  splitIndex.

(** [while (remaining.length > 0) { ... }], with the number of
    iterations bounded by [fuel]; [None] when the bound is hit. *)
Fixpoint split_loop (fuel : nat) (remaining : string) (chunks : list string)
  : option (list string) :=
  match fuel with
  | O => None
  | S fuel' =>
      if 0 <? len remaining then
        if len remaining <=? Z.of_nat MAX_LENGTH then
          Some (chunks ++ [remaining])%list
        else
          let i := Z.to_nat (splitIndex remaining) in
          split_loop fuel' (trimStart (drop i remaining))
                     (chunks ++ [take i remaining])%list
      else Some chunks
  end.

(** The chunks of a content longer than [MAX_LENGTH]. *)
Definition splitChunks (content : string) : option (list string) :=
  split_loop (S (String.length content)) content [].

(** The text sent for [chunks[i]]:
    [i === 0 ? chunks[i] : `(${i + 1}/${chunks.length}) ${chunks[i]}`] *)
Definition chunkText (total : nat) (i : nat) (chunk : string) : string :=
  match i with
  | O => chunk
  | S _ =>
      "(" +++ of_Z (Z.of_nat i + 1) +++ "/" +++ of_Z (Z.of_nat total)
          +++ ") " +++ chunk
  end.

Fixpoint number_from (i : nat) (total : nat) (chunks : list string)
  : list string :=
  match chunks with
  | [] => []
  | c :: cs => chunkText total i c :: number_from (S i) total cs
  end.

(** The texts [sendTextMessage] hands to the send API, in order. *)
Definition outgoingTexts (content : string) : option (list string) :=
  if len content <=? Z.of_nat MAX_LENGTH then Some [content]
  else
    match splitChunks content with
    | Some chunks => Some (number_from 0 (List.length chunks) chunks)
    | None => None
    end.

(** [n] copies of a code unit. *)
Fixpoint replicate_char (n : nat) (c : ascii) : string :=
  match n with
  | O => EmptyString
  | S n' => String c (replicate_char n' c)
  end.

Definition no_space (s : string) : Prop :=
  forall i c, String.get i s = Some c -> is_space c = false.

(** [content] is the chunks in order, with a run of white space
    dropped after each split. *)
Inductive Rebuilds : list string -> string -> Prop :=
| Rebuilds_nil : Rebuilds [] EmptyString
| Rebuilds_last c : Rebuilds [c] c
| Rebuilds_cons c w rest cs :
    Forall (fun x => is_space x = true) (list_ascii_of_string w) ->
    Rebuilds cs rest ->
    Rebuilds (c :: cs) (c +++ w +++ rest).

(** The splitting policy, in words rather than as a loop. *)

(** [i] is the last index up to the ceiling at which [s] has [c]. *)
Definition last_at (c : ascii) (s : string) (i : nat) : Prop :=
  (i <= MAX_LENGTH)%nat
  /\ String.get i s = Some c
  /\ forall j, (i < j <= MAX_LENGTH)%nat -> String.get j s <> Some c.

(** [s] has no [c] at an index from the midpoint to the ceiling. *)
Definition none_upper (c : ascii) (s : string) : Prop :=
  forall j, (300 <= j <= MAX_LENGTH)%nat -> String.get j s <> Some c.

(** Where a text longer than the ceiling is split: at the last line
    feed at an index from the midpoint to the ceiling; when there is
    none, at the last space at such an index; when there is none
    either, at the ceiling. *)
Inductive SplitAt (s : string) (i : nat) : Prop :=
| AtNewline : (300 <= i)%nat -> last_at LF s i -> SplitAt s i
| AtSpace :
    none_upper LF s -> (300 <= i)%nat -> last_at SP s i -> SplitAt s i
| HardCut : none_upper LF s -> none_upper SP s -> i = MAX_LENGTH -> SplitAt s i.

(** [s] does not begin with white space. *)
Definition starts_without_space (s : string) : Prop :=
  match s with
  | String c _ => is_space c = false
  | EmptyString => True
  end.

(** The chunks of a text, split by split.  A text within the ceiling
    is one chunk (none when nothing is left).  A longer text is split
    where the policy says; the chunk is what precedes the split point,
    and the chunks that follow are those of what comes after it
    without the white space it begins with. *)
Inductive Split : string -> list string -> Prop :=
| Split_nothing : Split EmptyString []
| Split_last s : 0 < len s <= Z.of_nat MAX_LENGTH -> Split s [s]
| Split_more s i w rest chunks :
    Z.of_nat MAX_LENGTH < len s ->
    SplitAt s i ->
    drop i s = w +++ rest ->
    Forall (fun x => is_space x = true) (list_ascii_of_string w) ->
    starts_without_space rest ->
    Split rest chunks ->
    Split s (take i s :: chunks).

End Chunking.

(** ** Values and library interfaces *)

(** A parsed JSON value.  Numbers are integers: every number this code
    stores ([Date.now()], [now + expires_in]) is one. *)
Inductive json : Type :=
| JNull
| JBool (b : bool)
| JNum (n : Z)
| JStr (s : string)
| JArr (items : list json)
| JObj (fields : list (string * json)).

(** [JSON.parse] ([None] where it throws a [SyntaxError]) and
    [JSON.stringify]. *)
Class JsonCodec := {
  JSON_parse : string -> option json;
  JSON_stringify : json -> string
}.

(** [new URL(s)] returns rather than throws. *)
Class UrlParser := { URL_ok : string -> bool }.

(** Numbers carried by message payloads, with the three operations the
    code applies to them: [`${n}`], truthiness, and
    [(n / 1000).toFixed(1)]. *)
Class JsNumber := {
  number : Type;
  Number_toString : number -> string;
  Number_truthy : number -> bool;
  Number_seconds_toFixed1 : number -> string
}.

Module Js.

(** [!!v] *)
Definition truthy (v : json) : bool :=
  match v with
  | JNull => false
  | JBool b => b
  | JNum n => negb (n =? 0)
  | JStr s => negb (String.eqb s "")
  | JArr _ | JObj _ => true
  end.

Fixpoint assoc (k : string) (fields : list (string * json)) : option json :=
  match fields with
  | [] => None
  | (k', v) :: rest => if String.eqb k' k then Some v else assoc k rest
  end.

(** [v.k]; [None] is [undefined]. *)
Definition get (v : json) (k : string) : option json :=
  match v with
  | JObj fields => assoc k fields
  | _ => None
  end.

End Js.

(** ** The world the service runs in *)

(** [interface UserBinding], as [JSON.stringify] receives it. *)
Definition UserBinding (endpoint token : string) (createdAt : Z) : json :=
  JObj [("endpoint", JStr endpoint); ("token", JStr token);
        ("createdAt", JNum createdAt)].

(** [interface TokenCache] *)
Record TokenCache := {
  accessToken : string;
  expiresAt : Z
}.

Definition TokenCache_json (t : TokenCache) : json :=
  JObj [("accessToken", JStr (accessToken t)); ("expiresAt", JNum (expiresAt t))].

(** The cast [JSON.parse(cached) as TokenCache], taken at its word: a
    value of another shape is no [TokenCache]. *)
Definition as_TokenCache (v : json) : option TokenCache :=
  match Js.get v "accessToken", Js.get v "expiresAt" with
  | Some (JStr a), Some (JNum e) => Some {| accessToken := a; expiresAt := e |}
  | _, _ => None
  end.

(** [response.data] of [GET cgi-bin/token]. *)
Record TokenResponse := {
  token_errcode : option Z;
  token_errmsg : string;
  access_token : string;
  expires_in : Z
}.

(** [response.data] of [POST cgi-bin/message/custom/send]. *)
Record SendResponse := { send_errcode : option Z }.

(** [type CustomerServiceMessage] *)
Inductive CustomerServiceMessage :=
| CustomerServiceTextMessage (touser : string) (content : string)
| CustomerServiceImageMessage (touser : string) (media_id : string).

(** A leaf of the parsed envelope.  The parser is created with
    [parseTagValue: true]: the text of an element that reads as a number
    arrives as a number, [true] and [false] as booleans, any other text
    as a string, whatever [interface WeChatMessage] declares. *)
Inductive TagValue `{JsNumber} :=
| TagString (s : string)
| TagNumber (n : number)
| TagBoolean (b : bool).

Module Tag.
Section WithNumber.
Context `{JsNumber}.

(** [!!x] on a field that may be missing. *)
Definition truthy (x : option TagValue) : bool :=
  match x with
  | Some (TagString s) => negb (String.eqb s "")
  | Some (TagNumber n) => Number_truthy n
  | Some (TagBoolean b) => b
  | None => false
  end.

(** [x || d] *)
Definition or_else (x : option TagValue) (d : string) : TagValue :=
  match x with
  | Some v => if truthy x then v else TagString d
  | None => TagString d
  end.

(** [`${v}`] *)
Definition text (v : TagValue) : string :=
  match v with
  | TagString s => s
  | TagNumber n => Number_toString n
  | TagBoolean true => "true"
  | TagBoolean false => "false"
  end.

(** [`${x}`] on a field that may be missing. *)
Definition template (x : option TagValue) : string :=
  match x with
  | Some v => text v
  | None => "undefined"
  end.

(** [x === s] for a string literal [s]. *)
Definition equals (x : option TagValue) (s : string) : bool :=
  match x with
  | Some (TagString s') => String.eqb s' s
  | _ => false
  end.

End WithNumber.
End Tag.

(** [interface ClawdbotWebhookPayload]; [task] and [msg_id] hold what
    the envelope held. *)
Record ClawdbotWebhookPayload `{JsNumber} := {
  task : TagValue;
  callback_url : string;
  meta_openid : string;
  meta_msg_type : string;
  meta_msg_id : option TagValue;
  meta_timestamp : number
}.

(** Outbound HTTP calls and timers, in the order they happen. *)
Inductive Effect `{JsNumber} :=
| EvTokenFetch (appid secret : string)
| EvSend (access_token : string) (message : CustomerServiceMessage)
| EvForward (endpoint bearer : option json) (payload : ClawdbotWebhookPayload)
| EvSleep (ms : Z).

Inductive Error :=
| WeChatApiError (errcode : Z) (errmsg : string)
| NetworkError
| RedisError
| SyntaxError.

(** The Redis instance, the clock, the upstream platform as the replies
    it is going to give ([None]: the request fails), and the calls made
    so far. *)
Record World `{JsNumber} := {
  redis : gmap string string;
  expiry : gmap string Z;
  clock : Z;
  token_endpoint : list (option TokenResponse);
  send_endpoint : list (option SendResponse);
  trace : list Effect
}.

(** ** A state-and-exception monad over the world *)

Inductive Res (A : Type) :=
| Ok (a : A)
| Throw (e : Error)
| OutOfFuel.
Arguments Ok {A} a.
Arguments Throw {A} e.
Arguments OutOfFuel {A}.

Section Monad.
Context `{JsNumber}.

Definition M (A : Type) : Type := World -> Res A * World.

Definition ret {A} (a : A) : M A := fun w => (Ok a, w).

Definition bind {A B} (m : M A) (k : A -> M B) : M B :=
  fun w =>
    match m w with
    | (Ok a, w') => k a w'
    | (Throw e, w') => (Throw e, w')
    | (OutOfFuel, w') => (OutOfFuel, w')
    end.

Definition throw {A} (e : Error) : M A := fun w => (Throw e, w).

Definition out_of_fuel {A} : M A := fun w => (OutOfFuel, w).

(** [try { m } catch { h }] *)
Definition try_catch {A} (m : M A) (h : Error -> M A) : M A :=
  fun w =>
    match m w with
    | (Throw e, w') => h e w'
    | r => r
    end.

(** [try { m } finally { f }] *)
Definition try_finally {A} (m : M A) (f : M unit) : M A :=
  fun w =>
    match m w with
    | (Ok a, w') =>
        match f w' with
        | (Ok _, w'') => (Ok a, w'')
        | (Throw e, w'') => (Throw e, w'')
        | (OutOfFuel, w'') => (OutOfFuel, w'')
        end
    | (Throw e, w') =>
        match f w' with
        | (Ok _, w'') => (Throw e, w'')
        | (Throw e', w'') => (Throw e', w'')
        | (OutOfFuel, w'') => (OutOfFuel, w'')
        end
    | (OutOfFuel, w') => (OutOfFuel, w')
    end.

End Monad.

Notation "'let*' x ':=' m 'in' k" := (bind m (fun x => k))
  (at level 10, x pattern, m at level 100, k at level 200).

(** ** The Redis commands the service issues, timers and HTTP calls *)

Section Platform.
Context `{JsNumber}.

(** A key with a deadline is gone once the clock reaches it. *)
Definition live (k : string) (w : World) : bool :=
  match expiry w !! k with
  | Some deadline => clock w <? deadline
  | None => true
  end.

Definition lookup_key (k : string) (w : World) : option string :=
  if live k w then redis w !! k else None.

Definition with_key (k : string) (v : string) (deadline : option Z)
           (w : World) : World :=
  {| redis := <[k := v]> (redis w);
     expiry := match deadline with
               | Some d => <[k := d]> (expiry w)
               | None => delete k (expiry w)
               end;
     clock := clock w;
     token_endpoint := token_endpoint w;
     send_endpoint := send_endpoint w;
     trace := trace w |}.

Definition without_key (k : string) (w : World) : World :=
  {| redis := delete k (redis w);
     expiry := delete k (expiry w);
     clock := clock w;
     token_endpoint := token_endpoint w;
     send_endpoint := send_endpoint w;
     trace := trace w |}.

Definition emit (e : Effect) (w : World) : World :=
  {| redis := redis w;
     expiry := expiry w;
     clock := clock w;
     token_endpoint := token_endpoint w;
     send_endpoint := send_endpoint w;
     trace := (trace w ++ [e])%list |}.

(** [GET key] *)
Definition redis_get (k : string) : M (option string) :=
  fun w => (Ok (lookup_key k w), w).

(** [SET key value] *)
Definition redis_set (k v : string) : M unit :=
  fun w => (Ok tt, with_key k v None w).

(** [SET key value EX seconds]; Redis rejects a non-positive expiry. *)
Definition redis_set_ex (k v : string) (seconds : Z) : M unit :=
  fun w =>
    if seconds <=? 0 then (Throw RedisError, w)
    else (Ok tt, with_key k v (Some (clock w + seconds * 1000)) w).

(** [SET key value EX seconds NX]: [true] for ['OK'], [false] for
    [null]. *)
Definition redis_set_ex_nx (k v : string) (seconds : Z) : M bool :=
  fun w =>
    match lookup_key k w with
    | Some _ => (Ok false, w)
    | None =>
        (Ok true, with_key k v (Some (clock w + seconds * 1000)) w)
    end.

(** [DEL key]: the number of keys removed. *)
Definition redis_del (k : string) : M Z :=
  fun w =>
    (Ok (match lookup_key k w with Some _ => 1 | None => 0 end),
     without_key k w).

(** [Date.now()] *)
Definition Date_now : M Z := fun w => (Ok (clock w), w).

(** [Math.floor(Date.now() / 1000)] *)
Definition now_seconds : M Z := fun w => (Ok (clock w / 1000), w).

(** [await new Promise(resolve => setTimeout(resolve, ms))] *)
Definition sleep (ms : Z) : M unit :=
  fun w =>
    (Ok tt,
     {| redis := redis w;
        expiry := expiry w;
        clock := clock w + ms;
        token_endpoint := token_endpoint w;
        send_endpoint := send_endpoint w;
        trace := (trace w ++ [EvSleep ms])%list |}).

(** [axios.get('https://api.weixin.qq.com/cgi-bin/token', ...)] *)
Definition axios_get_token (appid secret : string) : M TokenResponse :=
  fun w =>
    let w1 := emit (EvTokenFetch appid secret) w in
    match token_endpoint w with
    | Some r :: rest =>
        (Ok r,
         {| redis := redis w1; expiry := expiry w1; clock := clock w1;
            token_endpoint := rest;
            send_endpoint := send_endpoint w1;
            trace := trace w1 |})
    | None :: rest =>
        (Throw NetworkError,
         {| redis := redis w1; expiry := expiry w1; clock := clock w1;
            token_endpoint := rest;
            send_endpoint := send_endpoint w1;
            trace := trace w1 |})
    | [] => (Throw NetworkError, w1)
    end.

(** [axios.post(`${CUSTOMER_SERVICE_API}?access_token=${accessToken}`,
    message, ...)] *)
Definition axios_post_send (access_token : string)
           (message : CustomerServiceMessage) : M SendResponse :=
  fun w =>
    let w1 := emit (EvSend access_token message) w in
    match send_endpoint w with
    | Some r :: rest =>
        (Ok r,
         {| redis := redis w1; expiry := expiry w1; clock := clock w1;
            token_endpoint := token_endpoint w1;
            send_endpoint := rest;
            trace := trace w1 |})
    | None :: rest =>
        (Throw NetworkError,
         {| redis := redis w1; expiry := expiry w1; clock := clock w1;
            token_endpoint := token_endpoint w1;
            send_endpoint := rest;
            trace := trace w1 |})
    | [] => (Throw NetworkError, w1)
    end.

End Platform.

(** ** services/redis.ts *)

Module RedisService.
Section WithCodec.
Context `{JsNumber} `{JsonCodec}.

Definition BINDING_PREFIX : string := "wechat:binding:".

Definition setBinding (openId endpoint token : string) : M unit :=
  let* createdAt := Date_now in
  let binding := UserBinding endpoint token createdAt in
  redis_set (BINDING_PREFIX +++ openId) (JSON_stringify binding).

(** [null] is [JNull]. *)
Definition getBinding (openId : string) : M json :=
  let* data := redis_get (BINDING_PREFIX +++ openId) in
  if negb (JsString.truthy data) then ret JNull
  else
    match JSON_parse (or_else data "") with
    | Some v => ret v
    | None => ret JNull
    end.

Definition deleteBinding (openId : string) : M bool :=
  let* result := redis_del (BINDING_PREFIX +++ openId) in
  ret (result >? 0).

Definition isBound (openId : string) : M bool :=
  let* data := redis_get (BINDING_PREFIX +++ openId) in
  ret (match data with Some _ => true | None => false end).

End WithCodec.
End RedisService.

(** ** config.ts *)

Record Config := {
  wechat_appId : string;
  wechat_appSecret : string;
  wechat_token : string;
  bridge_baseUrl : string
}.

(** [errcode === n] on an optional number. *)
Definition errcode_is (errcode : option Z) (n : Z) : bool :=
  match errcode with
  | Some m => m =? n
  | None => false
  end.

(** ** services/wechat-token.ts *)

Module WechatToken.
Section WithConfig.
Context `{JsNumber} `{JsonCodec} (config : Config).

Definition TOKEN_KEY : string := "wechat:access_token".
Definition TOKEN_LOCK_KEY : string := "wechat:access_token:lock".
Definition TOKEN_REFRESH_THRESHOLD : Z := 600.

(** [refreshAccessToken], with its call back into [getAccessToken]
    as a parameter. *)
Definition refreshAccessToken_with (getAccessToken : M string) : M string :=
  let* lockAcquired := redis_set_ex_nx TOKEN_LOCK_KEY "1" 30 in
  if negb lockAcquired then
    let* _ := sleep 1000 in
    getAccessToken
  else
    try_finally
      (let* response :=
         axios_get_token (wechat_appId config) (wechat_appSecret config) in
       match token_errcode response with
       | Some (Zpos _ as errcode) | Some (Zneg _ as errcode) =>
           throw (WeChatApiError errcode (token_errmsg response))
       | _ =>
           let* now := now_seconds in
           let tokenData :=
             {| accessToken := access_token response;
                expiresAt := now + expires_in response |} in
           let* _ :=
             redis_set_ex TOKEN_KEY (JSON_stringify (TokenCache_json tokenData))
                          (expires_in response) in
           ret (access_token response)
       end)
      (let* _ := redis_del TOKEN_LOCK_KEY in ret tt).

(** [getAccessToken]; [fuel] bounds the calls, that is one more than
    the number of one-second waits for the lock. *)
Fixpoint getAccessToken (fuel : nat) : M string :=
  match fuel with
  | O => out_of_fuel
  | S fuel' =>
      let* cached := redis_get TOKEN_KEY in
      if JsString.truthy cached then
        match JSON_parse (or_else cached "") with
        | None => throw SyntaxError
        | Some v =>
            let* now := now_seconds in
            match as_TokenCache v with
            | Some tokenData =>
                if expiresAt tokenData - TOKEN_REFRESH_THRESHOLD >? now
                then ret (accessToken tokenData)
                else refreshAccessToken_with (getAccessToken fuel')
            | None => refreshAccessToken_with (getAccessToken fuel')
            end
        end
      else refreshAccessToken_with (getAccessToken fuel')
  end.

Definition refreshAccessToken (fuel : nat) : M string :=
  refreshAccessToken_with (getAccessToken fuel).

Definition forceRefreshToken (fuel : nat) : M string :=
  let* _ := redis_del TOKEN_KEY in
  refreshAccessToken fuel.

End WithConfig.
End WechatToken.

(** ** services/wechat-message.ts *)

Module WechatMessage.
Import WechatToken Chunking.
Section WithConfig.
Context `{JsNumber} `{JsonCodec} (config : Config).

(** The body of [sendCustomerServiceMessage], with its recursive
    call as a parameter. *)
Definition sendCustomerServiceMessage_with
           (fuel : nat) (message : CustomerServiceMessage)
           (retryOnTokenError : bool) (again : M bool) : M bool :=
  try_catch
    (let* accessToken := getAccessToken config fuel in
     let* response := axios_post_send accessToken message in
     if errcode_is (send_errcode response) 0 then ret true
     else if errcode_is (send_errcode response) 40001 && retryOnTokenError
     then
       let* _ := forceRefreshToken config fuel in
       again
     else ret false)
    (fun _ => ret false).

(** The recursive call passes [false], and a call with [false] does
    not recurse: the function unrolls to depth two. *)
Definition sendCustomerServiceMessage
           (fuel : nat) (message : CustomerServiceMessage)
           (retryOnTokenError : bool) : M bool :=
  sendCustomerServiceMessage_with fuel message retryOnTokenError
    (sendCustomerServiceMessage_with fuel message false (ret false)).

(** [for (let i = 0; i < chunks.length; i++) { ... }], from index
    [i] with [chunks] the elements from [i] on. *)
Fixpoint send_chunks (fuel : nat) (openId : string) (total : nat)
         (i : nat) (chunks : list string) (success : bool) : M bool :=
  match chunks with
  | [] => ret success
  | c :: rest =>
      let chunk := chunkText total i c in
      let* result :=
        sendCustomerServiceMessage
          fuel (CustomerServiceTextMessage openId chunk) true in
      let success := if negb result then false else success in
      let* _ :=
        (if Z.of_nat i <? Z.of_nat total - 1 then sleep 100 else ret tt) in
      send_chunks fuel openId total (S i) rest success
  end.

Definition sendTextMessage (fuel : nat) (openId content : string) : M bool :=
  if len content <=? Z.of_nat MAX_LENGTH then
    sendCustomerServiceMessage
      fuel (CustomerServiceTextMessage openId content) true
  else
    match splitChunks content with
    | Some chunks =>
        send_chunks fuel openId (List.length chunks) 0 chunks true
    | None => out_of_fuel
    end.

End WithConfig.
End WechatMessage.

(** ** utils/xml-parser.ts *)

(** [interface WeChatMessage], as the parser fills it.  [MsgType] is
    whatever string the envelope carries.  The optional fields are
    leaves of the parsed document, so a [Content] of [12345] is a
    number, one of [true] a boolean, though the interface declares
    [string]; the two account names and the message kind are strings
    and [CreateTime] a number, as the platform sends them. *)
Record WeChatMessage `{JsNumber} := {
  ToUserName : string;
  FromUserName : string;
  CreateTime : number;
  MsgType : string;
  Content : option TagValue;
  MsgId : option TagValue;
  Event : option TagValue;
  EventKey : option TagValue;
  PicUrl : option TagValue;
  MediaId : option TagValue;
  Format : option TagValue;
  Recognition : option TagValue;
  ThumbMediaId : option TagValue;
  Location_X : option TagValue;
  Location_Y : option TagValue;
  Scale : option TagValue;
  Label : option TagValue;
  Title : option TagValue;
  Description : option TagValue;
  Url : option TagValue
}.

(** [interface WeChatReply] *)
Record WeChatReply := {
  reply_ToUserName : string;
  reply_FromUserName : string;
  reply_CreateTime : Z;
  reply_MsgType : string;
  reply_Content : option string
}.

(** [parseWeChatXml]: [xmlParser.parse(xml).xml as WeChatMessage].
    [None] where the parser throws, [Some None] where the document has
    no [xml] element and the result is [undefined]. *)
Class XmlParser `{JsNumber} := {
  parseWeChatXml : string -> option (option WeChatMessage)
}.

Section XmlReply.
Context `{JsNumber}.

(** [buildTextReply], before the XML builder serialises the record. *)
Definition buildTextReply (toUser fromUser content : string) : M WeChatReply :=
  let* now := now_seconds in
  ret {| reply_ToUserName := toUser;
         reply_FromUserName := fromUser;
         reply_CreateTime := now;
         reply_MsgType := "text";
         reply_Content := Some content |}.

End XmlReply.

(** ** services/clawdbot-forwarder.ts *)

Module Forwarder.
Section WithConfig.
Context `{JsNumber} (config : Config).

Definition NEWLINE : string := String (ascii_of_nat 10) EmptyString.

(** The [switch (message.MsgType)] of [doForward].  The first two
    cases assign a field, or a literal when the field is falsy; the
    others build a string. *)
Definition taskOf (message : WeChatMessage) : TagValue :=
  if String.eqb (MsgType message) "text" then
    Tag.or_else (Content message) ""
  else if String.eqb (MsgType message) "voice" then
    Tag.or_else (Recognition message) "[语音消息，无法识别]"
  else if String.eqb (MsgType message) "image" then
    TagString ("[图片消息] " +++ Tag.text (Tag.or_else (PicUrl message) ""))
  else if String.eqb (MsgType message) "location" then
    TagString
      ("[位置消息] 经度: " +++ Tag.template (Location_Y message)
         +++ ", 纬度: " +++ Tag.template (Location_X message)
         +++ ", " +++ Tag.text (Tag.or_else (Label message) ""))
  else if String.eqb (MsgType message) "link" then
    TagString
      ("[链接消息] " +++ Tag.text (Tag.or_else (Title message) "") +++ NEWLINE
         +++ Tag.text (Tag.or_else (Description message) "") +++ NEWLINE
         +++ Tag.text (Tag.or_else (Url message) ""))
  else
    TagString ("[" +++ MsgType message +++ "消息]").

Definition payloadOf (message : WeChatMessage) : ClawdbotWebhookPayload :=
  {| task := taskOf message;
     callback_url :=
       bridge_baseUrl config +++ "/callback/" +++ FromUserName message;
     meta_openid := FromUserName message;
     meta_msg_type := MsgType message;
     meta_msg_id := MsgId message;
     meta_timestamp := CreateTime message |}.

(** [forwardToClawdbot]: the POST is started and not awaited; its
    outcome is only logged. *)
Definition forwardToClawdbot (message : WeChatMessage) (binding : json)
  : M unit :=
  fun w =>
    (Ok tt,
     emit (EvForward (Js.get binding "endpoint") (Js.get binding "token")
                     (payloadOf message)) w).

End WithConfig.
End Forwarder.

(** ** HTTP *)

Inductive Body :=
| BodyText (text : string)
| BodyXml (reply : WeChatReply)
| BodyJson (value : json).

Record Response := {
  status : Z;
  contentType : option string;
  body : Body
}.

(** [interface WeChatQueryParams], each parameter possibly missing. *)
Record WeChatQueryParams := {
  signature : option string;
  timestamp : option string;
  nonce : option string;
  echostr : option string
}.

(** ** routes/wechat.ts *)

Module WechatRoutes.
Import Signature RedisService Forwarder.

Definition not_space (c : ascii) : bool := negb (is_space c).

Definition nonempty (s : string) : bool := negb (String.eqb s "").

(** [content.match(/^bind\s+(\S+)\s+(\S+)$/i)]: the two captures.
    [\s] and [\S] are complementary, so each [+] takes a maximal
    run and the match, when there is one, is unique. *)
Definition BIND_REGEX (content : string) : option (string * string) :=
  if String.eqb (lower_string (take 4 content)) "bind" then
    let '(space1, rest1) := span is_space (drop 4 content) in
    let '(endpoint, rest2) := span not_space rest1 in
    let '(space2, rest3) := span is_space rest2 in
    let '(token, rest4) := span not_space rest3 in
    if nonempty space1 && nonempty endpoint && nonempty space2
       && nonempty token && negb (nonempty rest4)
    then Some (endpoint, token)
    else None
  else None.

(** [/^unbind$/i.test(s)] *)
Definition UNBIND_REGEX (s : string) : bool :=
  String.eqb (lower_string s) "unbind".

Definition welcomeMsg : string :=
"👋 欢迎关注！

这是一个 Clawdbot 桥接服务。请发送以下指令绑定你的 Clawdbot 实例：

bind <你的Clawdbot地址> <Token>

例如：
bind https://my-clawdbot.example.com/webhook abc123

绑定后，你可以直接发送消息与你的 Clawdbot 对话。

其他指令：
• unbind - 解除绑定".

Definition invalidUrlMsg : string := "❌ 无效的 URL 格式，请检查后重试。".

Definition bindOkMsg (endpoint : string) : string :=
"✅ 绑定成功！

你的 Clawdbot 地址：" +++ endpoint +++ "

现在可以直接发送消息与你的 Clawdbot 对话了。

提示：发送 unbind 可以解除绑定。".

Definition pleaseBindMsg : string :=
"👋 请先绑定你的 Clawdbot 实例。

发送格式：
bind <你的Clawdbot地址> <Token>

例如：
bind https://my-clawdbot.example.com/webhook abc123".

Definition unbindOkMsg : string :=
"✅ 已解除绑定。

你可以随时使用 bind 指令重新绑定新的 Clawdbot 实例。".

Definition processingMsg : string := "⏳ 正在处理中，请稍候...".

Definition send_text (code : Z) (text : string) : Response :=
  {| status := code; contentType := None; body := BodyText text |}.

Definition send_plain (text : string) : Response :=
  {| status := 200; contentType := Some "text/plain"; body := BodyText text |}.

Definition send_xml (reply : WeChatReply) : Response :=
  {| status := 200; contentType := Some "text/xml"; body := BodyXml reply |}.

(** What [app.setErrorHandler] answers when the handler throws (here:
    reading [FromUserName] of [undefined], or calling [match] or [trim]
    on a [Content] that is no string), outside development mode. *)
Definition internalError : Response :=
  {| status := 500; contentType := None;
     body := BodyJson (JObj [("error", JStr "Internal Server Error")]) |}.

Section WithConfig.
Context `{JsNumber} `{Crypto} `{JsonCodec} `{UrlParser} {xml : XmlParser}
        (config : Config).

(** [fastify.get('/wechat', ...)] *)
Definition get_wechat (query : WeChatQueryParams) : Response :=
  if negb (JsString.truthy (signature query))
     || negb (JsString.truthy (timestamp query))
     || negb (JsString.truthy (nonce query))
  then send_text 400 "Missing parameters"
  else
    let isValid :=
      validateSignature (wechat_token config)
                        (or_else (signature query) "")
                        (or_else (timestamp query) "")
                        (or_else (nonce query) "") in
    if isValid && JsString.truthy (echostr query)
    then send_plain (or_else (echostr query) "")
    else send_text 403 "Invalid signature".

(** A method of [String.prototype] called on a field: a number, a
    boolean and [undefined] have no [match] and no [trim], and the call
    throws a [TypeError] ([None]). *)
Definition on_string {A} (f : string -> A) (x : option TagValue) : option A :=
  match x with
  | Some (TagString s) => Some (f s)
  | _ => None
  end.

(** The POST handler from [const openId = message.FromUserName] on,
    up to the answer the client gets: where [message.Content.match] or
    [message.Content.trim] throws, that is the answer of the error
    handler. *)
Definition handleMessage (message : WeChatMessage) : M Response :=
  let openId := FromUserName message in
  let toUser := ToUserName message in
  if String.eqb (MsgType message) "event" then
    if Tag.equals (Event message) "subscribe"
    then
      let* reply := buildTextReply openId toUser welcomeMsg in
      ret (send_xml reply)
    else ret (send_plain "")
  else
    let* binding := getBinding openId in
    if negb (Js.truthy binding) then
      match
        (if String.eqb (MsgType message) "text" && Tag.truthy (Content message)
         then on_string BIND_REGEX (Content message)
         else Some None)
      with
      | None => ret internalError
      | Some (Some (endpoint, token)) =>
          if negb (URL_ok endpoint) then
            let* reply := buildTextReply openId toUser invalidUrlMsg in
            ret (send_xml reply)
          else
            let* _ := setBinding openId endpoint token in
            let* reply := buildTextReply openId toUser (bindOkMsg endpoint) in
            ret (send_xml reply)
      | Some None =>
          let* reply := buildTextReply openId toUser pleaseBindMsg in
          ret (send_xml reply)
      end
    else
      match
        (if String.eqb (MsgType message) "text" && Tag.truthy (Content message)
         then on_string (fun content => UNBIND_REGEX (trim content))
                        (Content message)
         else Some false)
      with
      | None => ret internalError
      | Some true =>
          let* _ := deleteBinding openId in
          let* reply := buildTextReply openId toUser unbindOkMsg in
          ret (send_xml reply)
      | Some false =>
          let* _ := forwardToClawdbot config message binding in
          let* reply := buildTextReply openId toUser processingMsg in
          ret (send_xml reply)
      end.

(** [fastify.post('/wechat', ...)] *)
Definition post_wechat (query : WeChatQueryParams) (body : string)
  : M Response :=
  if negb (JsString.truthy (signature query))
     || negb (JsString.truthy (timestamp query))
     || negb (JsString.truthy (nonce query))
  then ret (send_text 400 "Missing parameters")
  else
    let isValid :=
      validateSignature (wechat_token config)
                        (or_else (signature query) "")
                        (or_else (timestamp query) "")
                        (or_else (nonce query) "") in
    if negb isValid then ret (send_text 403 "Invalid signature")
    else
      match parseWeChatXml body with
      | None => ret (send_text 400 "Invalid XML")
      | Some None => ret internalError
      | Some (Some message) => handleMessage message
      end.

End WithConfig.
End WechatRoutes.

(** ** routes/callback.ts *)

Module CallbackRoutes.
Import RedisService WechatMessage.

(** [metadata] of [interface ClawdbotCallbackPayload] *)
Record CallbackMetadata `{JsNumber} := {
  chunks : option number;
  thinking_time_ms : option number
}.

(** [interface ClawdbotCallbackPayload] *)
Record ClawdbotCallbackPayload `{JsNumber} := {
  success : bool;
  result : option string;
  error : option string;
  metadata : option CallbackMetadata
}.

Definition doneNoContentMsg : string := "✅ 任务已完成（无返回内容）".
Definition failedPrefix : string := "❌ 处理失败：".
Definition unknownErrorMsg : string := "未知错误".

Section WithConfig.
Context `{JsNumber} `{JsonCodec} (config : Config).

(** [metadata?.thinking_time_ms], when truthy. *)
Definition thinkingTime (payload : ClawdbotCallbackPayload) : option number :=
  match metadata payload with
  | Some m =>
      match thinking_time_ms m with
      | Some t => if Number_truthy t then Some t else None
      | None => None
      end
  | None => None
  end.

Definition thinkingSuffix (t : number) : string :=
  Forwarder.NEWLINE +++ Forwarder.NEWLINE +++ "⏱️ 思考用时: "
    +++ Number_seconds_toFixed1 t +++ "s".

(** The text handed to [sendTextMessage]. *)
Definition messageContent (payload : ClawdbotCallbackPayload) : string :=
  let messageContent :=
    if success payload
    then or_else (result payload) doneNoContentMsg
    else failedPrefix +++ or_else (error payload) unknownErrorMsg in
  match thinkingTime payload with
  | Some t => messageContent +++ thinkingSuffix t
  | None => messageContent
  end.

Definition okResponse : Response :=
  {| status := 200; contentType := None;
     body := BodyJson (JObj [("ok", JBool true)]) |}.

Definition failedResponse : Response :=
  {| status := 500; contentType := None;
     body := BodyJson (JObj [("ok", JBool false);
                             ("error", JStr "Failed to send WeChat message")]) |}.

(** [fastify.post('/callback/:openid', ...)] *)
Definition post_callback (fuel : nat) (openid : string)
           (payload : ClawdbotCallbackPayload) : M Response :=
  let* binding := getBinding openid in
  let* sent := sendTextMessage config fuel openid (messageContent payload) in
  if sent then ret okResponse else ret failedResponse.

(** [fastify.post('/callback/:openid/stream', ...)] *)
Definition post_callback_stream (fuel : nat) (openid : string)
           (chunk : string) (done : bool) : M Response :=
  if done then
    let* sent := sendTextMessage config fuel openid chunk in
    ret {| status := 200; contentType := None;
           body := BodyJson (JObj [("ok", JBool sent)]) |}
  else
    ret {| status := 200; contentType := None;
           body := BodyJson (JObj [("ok", JBool true);
                                   ("buffered", JBool true)]) |}.

End WithConfig.
End CallbackRoutes.

(** ** config.ts: reading the environment *)

(** [parseInt(s, 10)], and the Numbers it returns. *)
Class ParseInt := {
  parsed : Type;
  parseInt10 : string -> parsed
}.

Module ConfigLoader.

(** What reading the configuration gives: the value, or the [Error]
    thrown, as its message. *)
Inductive Loaded (A : Type) :=
| Loaded_ok (a : A)
| Loaded_error (message : string).
Arguments Loaded_ok {A} a.
Arguments Loaded_error {A} message.

(** [interface Config] in full; [services] holds the fields the
    services and routes read. *)
Record ServerConfig `{ParseInt} := {
  port : parsed;
  host : string;
  wechat_encodingAESKey : option string;
  redis_url : string;
  services : Config
}.

Section WithEnv.
Context `{ParseInt}.

(** [process.env] *)
Variable env : gmap string string.

(** [requireEnv]: a variable that is missing or empty throws. *)
Definition requireEnv (key : string) : Loaded string :=
  match env !! key with
  | Some (String c s) => Loaded_ok (String c s)
  | _ => Loaded_error ("Missing required environment variable: " +++ key)
  end.

(** [loadConfig]: the fields in the order the object literal evaluates
    them. *)
Definition loadConfig : Loaded ServerConfig :=
  let port := parseInt10 (or_else (env !! "PORT") "3000") in
  let host := or_else (env !! "HOST") "0.0.0.0" in
  match requireEnv "WECHAT_APPID" with
  | Loaded_error message => Loaded_error message
  | Loaded_ok appId =>
  match requireEnv "WECHAT_APPSECRET" with
  | Loaded_error message => Loaded_error message
  | Loaded_ok appSecret =>
  match requireEnv "WECHAT_TOKEN" with
  | Loaded_error message => Loaded_error message
  | Loaded_ok token =>
  let encodingAESKey := env !! "WECHAT_ENCODING_AES_KEY" in
  let url := or_else (env !! "REDIS_URL") "redis://localhost:6379" in
  match requireEnv "BRIDGE_BASE_URL" with
  | Loaded_error message => Loaded_error message
  | Loaded_ok baseUrl =>
      Loaded_ok {| port := port;
                   host := host;
                   wechat_encodingAESKey := encodingAESKey;
                   redis_url := url;
                   services := {| wechat_appId := appId;
                                  wechat_appSecret := appSecret;
                                  wechat_token := token;
                                  bridge_baseUrl := baseUrl |} |}
  end end end end.

(** [getConfig], over the module variable [configInstance]: the
    result and the new value of the variable. *)
Definition getConfig (configInstance : option ServerConfig)
  : Loaded ServerConfig * option ServerConfig :=
  match configInstance with
  | Some config => (Loaded_ok config, Some config)
  | None =>
      match loadConfig with
      | Loaded_ok config => (Loaded_ok config, Some config)
      | Loaded_error message => (Loaded_error message, None)
      end
  end.

End WithEnv.
End ConfigLoader.

(** ** A reference implementation of the library interfaces

    Executable instances for running the model on concrete requests. *)

Module Reference.

(** *** SHA-1 (FIPS 180-4) over 32-bit words *)
Module SHA1.

Definition mask32 (x : Z) : Z := Z.land x 4294967295.

Definition rotl (n : Z) (x : Z) : Z :=
  mask32 (Z.lor (Z.shiftl x n) (Z.shiftr x (32 - n))).

Definition add32 (x y : Z) : Z := mask32 (x + y).

(** The UTF-8 bytes of a string of code units below 256. *)
Definition bytes_of (s : string) : list Z :=
  List.flat_map
    (fun c =>
       let n := Z.of_nat (nat_of_ascii c) in
       if n <? 128 then [n]
       else [Z.lor 192 (Z.shiftr n 6); Z.lor 128 (Z.land n 63)])
    (list_ascii_of_string s).

(** The big-endian bytes of [x], [n] of them. *)
Fixpoint be_bytes (n : nat) (x : Z) : list Z :=
  match n with
  | O => []
  | S n' => Z.land (Z.shiftr x (8 * Z.of_nat n')) 255 :: be_bytes n' x
  end.

Definition pad (msg : list Z) : list Z :=
  let l := Z.of_nat (List.length msg) in
  let zeros := Z.to_nat ((55 - l) mod 64) in
  (msg ++ [128] ++ List.repeat 0 zeros ++ be_bytes 8 (8 * l))%list.

Fixpoint words (fuel : nat) (bs : list Z) : list Z :=
  match fuel, bs with
  | S fuel', b0 :: b1 :: b2 :: b3 :: rest =>
      (Z.shiftl b0 24 + Z.shiftl b1 16 + Z.shiftl b2 8 + b3)
        :: words fuel' rest
  | _, _ => []
  end.

(** The message schedule, newest word first. *)
Fixpoint schedule (n : nat) (rev_w : list Z) : list Z :=
  match n with
  | O => rev_w
  | S n' =>
      let x :=
        rotl 1 (Z.lxor (List.nth 2 rev_w 0)
                  (Z.lxor (List.nth 7 rev_w 0)
                     (Z.lxor (List.nth 13 rev_w 0) (List.nth 15 rev_w 0)))) in
      schedule n' (x :: rev_w)
  end.

Definition state : Type := Z * Z * Z * Z * Z.

Definition round (i : Z) (st : state) (w : Z) : state :=
  let '(a, b, c, d, e) := st in
  let '(f, k) :=
    if i <? 20 then
      (Z.lor (Z.land b c) (Z.land (Z.lxor b 4294967295) d), 1518500249)
    else if i <? 40 then (Z.lxor b (Z.lxor c d), 1859775393)
    else if i <? 60 then
      (Z.lor (Z.land b c) (Z.lor (Z.land b d) (Z.land c d)), 2400959708)
    else (Z.lxor b (Z.lxor c d), 3395469782) in
  let temp := add32 (add32 (add32 (add32 (rotl 5 a) f) e) k) w in
  (temp, a, rotl 30 b, c, d).

Fixpoint rounds (i : Z) (st : state) (ws : list Z) : state :=
  match ws with
  | [] => st
  | w :: ws' => rounds (i + 1) (round i st w) ws'
  end.

Definition block (st : state) (w16 : list Z) : state :=
  let ws := List.rev (schedule 64 (List.rev w16)) in
  let '(a, b, c, d, e) := rounds 0 st ws in
  let '(h0, h1, h2, h3, h4) := st in
  (add32 h0 a, add32 h1 b, add32 h2 c, add32 h3 d, add32 h4 e).

Fixpoint blocks (fuel : nat) (st : state) (ws : list Z) : state :=
  match fuel, ws with
  | S fuel', _ :: _ =>
      blocks fuel' (block st (List.firstn 16 ws)) (List.skipn 16 ws)
  | _, _ => st
  end.

Definition hex_digit (d : Z) : ascii :=
  if d <? 10 then ascii_of_nat (Z.to_nat (48 + d))
  else ascii_of_nat (Z.to_nat (87 + d)).

Fixpoint hex (n : nat) (x : Z) : string :=
  match n with
  | O => EmptyString
  | S n' =>
      String (hex_digit (Z.land (Z.shiftr x (4 * Z.of_nat n')) 15)) (hex n' x)
  end.

Definition digest_hex (s : string) : string :=
  let bs := pad (bytes_of s) in
  let ws := words (List.length bs) bs in
  let '(h0, h1, h2, h3, h4) :=
    blocks (List.length ws)
           (1732584193, 4023233417, 2562383102, 271733878, 3285377520) ws in
  hex 8 h0 +++ hex 8 h1 +++ hex 8 h2 +++ hex 8 h3 +++ hex 8 h4.

End SHA1.

#[export] Instance crypto : Crypto := {| sha1_hex := SHA1.digest_hex |}.

(** *** Numbers: the integers *)
Module Num.

(** [a / 1000 >= 2^k], for [0 < a]. *)
Definition thousandths_reach (a k : Z) : bool :=
  if 0 <=? k then 1000 * 2 ^ k <=? a else 1000 <=? a * 2 ^ (- k).

(** The double that [a / 1000] evaluates to, for an integer [0 < a]
    that is a double itself: the quotient rounded to 53 significant
    bits, ties to even, as the pair [(m, e)] that stands for
    [m * 2^e]. *)
Definition double_of_thousandths (a : Z) : Z * Z :=
  let l := Z.log2 a in
  let k := if thousandths_reach a (l - 9) then l - 9 else l - 10 in
  let e := k - 52 in
  let num := if 0 <=? e then a else a * 2 ^ (- e) in
  let den := if 0 <=? e then 1000 * 2 ^ e else 1000 in
  let m := num / den in
  let r := num mod den in
  let m :=
    if (den <? 2 * r) || ((den =? 2 * r) && Z.odd m) then m + 1 else m in
  (m, e).

(** The integer nearest to [10 * m * 2^e], the larger one of two, as
    [toFixed] chooses it. *)
Definition tenths (m e : Z) : Z :=
  if 0 <=? e then 10 * m * 2 ^ e
  else (20 * m + 2 ^ (- e)) / 2 ^ (1 - e).

(** [(n / 1000).toFixed(1)] for an integer [n] of magnitude below
    [2^53]: the digits of the double that the division gives, not of
    the decimal quotient ([1150] gives [1.1]). *)
Definition seconds_toFixed1 (n : Z) : string :=
  let t :=
    if n =? 0 then 0
    else let '(m, e) := double_of_thousandths (Z.abs n) in tenths m e in
  (if n <? 0 then "-" else "")
    +++ of_Z (t / 10) +++ "." +++ of_Z (t mod 10).

(** The same function behind a seal, for the instance below: a term
    that mentions the instance is then normalised without unfolding
    the arithmetic above on an unknown number. *)
Definition sealed_toFixed1 : seal seconds_toFixed1.
Proof. now eexists. Qed.

End Num.

#[export] Instance js_number : JsNumber :=
  {| number := Z;
     Number_toString := of_Z;
     Number_truthy := fun n => negb (n =? 0);
     Number_seconds_toFixed1 := unseal Num.sealed_toFixed1 |}.

Lemma seconds_toFixed1_run (n : Z) :
  Number_seconds_toFixed1 n = Num.seconds_toFixed1 n.
Proof. cbn. now rewrite (seal_eq Num.sealed_toFixed1). Qed.

(** *** JSON *)
Module Json.

Definition QUOTE : ascii := ascii_of_nat 34.
Definition BACKSLASH : ascii := ascii_of_nat 92.

Definition hex4 (n : Z) : string := SHA1.hex 4 n.

Fixpoint quote_body (s : string) : string :=
  match s with
  | EmptyString => EmptyString
  | String c s' =>
      let n := Z.of_nat (nat_of_ascii c) in
      (if Ascii.eqb c QUOTE then String BACKSLASH (String QUOTE EmptyString)
       else if Ascii.eqb c BACKSLASH
            then String BACKSLASH (String BACKSLASH EmptyString)
       else if n =? 8 then String BACKSLASH "b"
       else if n =? 9 then String BACKSLASH "t"
       else if n =? 10 then String BACKSLASH "n"
       else if n =? 12 then String BACKSLASH "f"
       else if n =? 13 then String BACKSLASH "r"
       else if n <? 32 then String BACKSLASH ("u" +++ hex4 n)
       else String c EmptyString) +++ quote_body s'
  end.

Definition quote (s : string) : string :=
  String QUOTE (quote_body s +++ String QUOTE EmptyString).

Fixpoint stringify (v : json) : string :=
  match v with
  | JNull => "null"
  | JBool true => "true"
  | JBool false => "false"
  | JNum n => of_Z n
  | JStr s => quote s
  | JArr items =>
      "[" +++ String.concat "," (List.map stringify items) +++ "]"
  | JObj fields =>
      "{" +++ String.concat ","
                (List.map (fun kv => quote (fst kv) +++ ":" +++ stringify (snd kv))
                          fields)
          +++ "}"
  end.

Definition is_ws (c : ascii) : bool :=
  let n := nat_of_ascii c in
  (n =? 32)%nat || (n =? 9)%nat || (n =? 10)%nat || (n =? 13)%nat.

Fixpoint skip_ws (s : string) : string :=
  match s with
  | String c s' => if is_ws c then skip_ws s' else s
  | EmptyString => EmptyString
  end.

Definition is_digit (c : ascii) : bool :=
  let n := nat_of_ascii c in (48 <=? n)%nat && (n <=? 57)%nat.

Fixpoint digits (acc : Z) (s : string) : Z * string :=
  match s with
  | String c s' =>
      if is_digit c
      then digits (10 * acc + (Z.of_nat (nat_of_ascii c) - 48)) s'
      else (acc, s)
  | EmptyString => (acc, EmptyString)
  end.

(** An integer literal: no leading zero, no fraction, no exponent. *)
Definition integer (s : string) : option (Z * string) :=
  match s with
  | String "0" (String d _) =>
      if is_digit d then None
      else let '(n, rest) := digits 0 s in Some (n, rest)
  | _ => let '(n, rest) := digits 0 s in Some (n, rest)
  end.

Definition hex_value (c : ascii) : option Z :=
  let n := Z.of_nat (nat_of_ascii c) in
  if (48 <=? n) && (n <=? 57) then Some (n - 48)
  else if (97 <=? n) && (n <=? 102) then Some (n - 87)
  else if (65 <=? n) && (n <=? 70) then Some (n - 55)
  else None.

(** The characters of a string literal after its opening quote. *)
Fixpoint string_body (fuel : nat) (s : string) : option (string * string) :=
  match fuel, s with
  | S fuel', String c s' =>
      if Ascii.eqb c QUOTE then Some (EmptyString, s')
      else if Ascii.eqb c BACKSLASH then
        match s' with
        | String e s'' =>
            let single (x : nat) :=
              match string_body fuel' s'' with
              | Some (r, rest) => Some (String (ascii_of_nat x) r, rest)
              | None => None
              end in
            match nat_of_ascii e with
            | 34%nat => single 34%nat
            | 92%nat => single 92%nat
            | 47%nat => single 47%nat
            | 98%nat => single 8%nat
            | 102%nat => single 12%nat
            | 110%nat => single 10%nat
            | 114%nat => single 13%nat
            | 116%nat => single 9%nat
            | 117%nat =>
                match s'' with
                | String h1 (String h2 (String h3 (String h4 s3))) =>
                    match hex_value h1, hex_value h2, hex_value h3, hex_value h4 with
                    | Some 0, Some 0, Some a, Some b =>
                        match string_body fuel' s3 with
                        | Some (r, rest) =>
                            Some (String (ascii_of_nat (Z.to_nat (16 * a + b))) r, rest)
                        | None => None
                        end
                    | _, _, _, _ => None
                    end
                | _ => None
                end
            | _ => None
            end
        | EmptyString => None
        end
      else if (nat_of_ascii c <? 32)%nat then None
      else
        match string_body fuel' s' with
        | Some (r, rest) => Some (String c r, rest)
        | None => None
        end
  | _, _ => None
  end.

Fixpoint elements (value : string -> option (json * string)) (fuel : nat)
         (s : string) (acc : list json) : option (list json * string) :=
  match fuel with
  | O => None
  | S fuel' =>
      match value s with
      | Some (v, rest) =>
          match skip_ws rest with
          | String "," rest' => elements value fuel' rest' (acc ++ [v])%list
          | String "]" rest' => Some ((acc ++ [v])%list, rest')
          | _ => None
          end
      | None => None
      end
  end.

(** A repeated key keeps its place and takes the later value. *)
Fixpoint upsert (k : string) (v : json) (fields : list (string * json))
  : list (string * json) :=
  match fields with
  | [] => [(k, v)]
  | (k', v') :: rest =>
      if String.eqb k' k then (k, v) :: rest
      else (k', v') :: upsert k v rest
  end.

Fixpoint members (value : string -> option (json * string)) (fuel : nat)
         (s : string) (acc : list (string * json))
  : option (list (string * json) * string) :=
  match fuel with
  | O => None
  | S fuel' =>
      match skip_ws s with
      | String q rest =>
          if Ascii.eqb q QUOTE then
            match string_body (String.length rest) rest with
            | Some (k, rest1) =>
                match skip_ws rest1 with
                | String ":" rest2 =>
                    match value rest2 with
                    | Some (v, rest3) =>
                        let acc' := upsert k v acc in
                        match skip_ws rest3 with
                        | String "," rest4 => members value fuel' rest4 acc'
                        | String "}" rest4 => Some (acc', rest4)
                        | _ => None
                        end
                    | None => None
                    end
                | _ => None
                end
            | None => None
            end
          else None
      | EmptyString => None
      end
  end.

Fixpoint value (fuel : nat) (s : string) : option (json * string) :=
  match fuel with
  | O => None
  | S fuel' =>
      match skip_ws s with
      | String "n" (String "u" (String "l" (String "l" rest))) =>
          Some (JNull, rest)
      | String "t" (String "r" (String "u" (String "e" rest))) =>
          Some (JBool true, rest)
      | String "f" (String "a" (String "l" (String "s" (String "e" rest)))) =>
          Some (JBool false, rest)
      | String "[" rest =>
          match skip_ws rest with
          | String "]" rest' => Some (JArr [], rest')
          | _ =>
              match elements (value fuel') fuel' rest [] with
              | Some (items, rest') => Some (JArr items, rest')
              | None => None
              end
          end
      | String "{" rest =>
          match skip_ws rest with
          | String "}" rest' => Some (JObj [], rest')
          | _ =>
              match members (value fuel') fuel' rest [] with
              | Some (fields, rest') => Some (JObj fields, rest')
              | None => None
              end
          end
      | String "-" (String d rest) =>
          if is_digit d then
            match integer (String d rest) with
            | Some (_, String "." _) | Some (_, String "e" _)
            | Some (_, String "E" _) | None => None
            | Some (n, rest') => Some (JNum (- n), rest')
            end
          else None
      | String c rest =>
          if Ascii.eqb c QUOTE then
            match string_body (String.length rest) rest with
            | Some (str, rest') => Some (JStr str, rest')
            | None => None
            end
          else if is_digit c then
            match integer (String c rest) with
            | Some (_, String "." _) | Some (_, String "e" _)
            | Some (_, String "E" _) | None => None
            | Some (n, rest') => Some (JNum n, rest')
            end
          else None
      | EmptyString => None
      end
  end.

(** Integers, strings of code units below 256, arrays and objects;
    a text with a fraction or an exponent is refused, the model
    having no value for it. *)
Definition parse (s : string) : option json :=
  match value (S (String.length s)) s with
  | Some (v, rest) =>
      match skip_ws rest with
      | EmptyString => Some v
      | _ => None
      end
  | None => None
  end.

End Json.

#[export] Instance json_codec : JsonCodec :=
  {| JSON_parse := Json.parse; JSON_stringify := Json.stringify |}.

(** *** URLs: a scheme, and a host after it for the special schemes *)
Module Url.

Definition is_alpha (c : ascii) : bool :=
  let n := nat_of_ascii (lower c) in (97 <=? n)%nat && (n <=? 122)%nat.

Definition is_scheme_char (c : ascii) : bool :=
  let n := nat_of_ascii c in
  is_alpha c || Json.is_digit c
  || (n =? 43)%nat || (n =? 45)%nat || (n =? 46)%nat.

Definition is_slash (c : ascii) : bool :=
  let n := nat_of_ascii c in (n =? 47)%nat || (n =? 92)%nat.

Definition ends_host (c : ascii) : bool :=
  let n := nat_of_ascii c in
  is_slash c || (n =? 63)%nat || (n =? 35)%nat || (n =? 58)%nat.

Definition special (scheme : string) : bool :=
  String.eqb scheme "http" || String.eqb scheme "https"
  || String.eqb scheme "ws" || String.eqb scheme "wss"
  || String.eqb scheme "ftp".

(** Whether [new URL(s)] accepts [s], as far as the scheme and the
    presence of a host go.  The syntax of the host and of the port is
    not checked: some strings that the parser rejects pass. *)
Definition ok (s : string) : bool :=
  match s with
  | String c _ =>
      if is_alpha c then
        match span is_scheme_char s with
        | (scheme, String ":" rest) =>
            if special (lower_string scheme) then
              match snd (span is_slash rest) with
              | String h _ => negb (ends_host h)
              | EmptyString => false
              end
            else true
        | _ => false
        end
      else false
  | EmptyString => false
  end.

End Url.

#[export] Instance url_parser : UrlParser := {| URL_ok := Url.ok |}.

End Reference.

(** A reference implementation of [parseInt(s, 10)]: leading white
    space, a sign, then decimal digits up to the first other code
    unit; [None] is [NaN].  Exact for the integers a Number holds
    exactly. *)
Module ReferenceEnv.
Import Reference.

Definition parseInt_radix10 (s : string) : option Z :=
  let s := trimStart s in
  let '(negative, s) :=
    match s with
    | String "-" r => (true, r)
    | String "+" r => (false, r)
    | _ => (false, s)
    end in
  match s with
  | String c _ =>
      if Json.is_digit c then
        let n := fst (Json.digits 0 s) in
        Some (if negative then - n else n)
      else None
  | EmptyString => None
  end.

#[export] Instance parse_int : ParseInt :=
  {| parsed := option Z; parseInt10 := parseInt_radix10 |}.

End ReferenceEnv.

(** * Properties *)

(** ** Strings *)

Lemma take_drop (n : nat) (s : string) : take n s +++ drop n s = s.
Proof.
  revert s; induction n as [|n IH]; intros [|c s]; simpl; try reflexivity.
  now rewrite IH.
Qed.

Lemma length_take (n : nat) (s : string) :
  String.length (take n s) = Nat.min n (String.length s).
Proof.
  revert s; induction n as [|n IH]; intros [|c s]; simpl; try reflexivity.
  now rewrite IH.
Qed.

Lemma length_drop (n : nat) (s : string) :
  String.length (drop n s) = (String.length s - n)%nat.
Proof.
  revert s; induction n as [|n IH]; intros [|c s]; simpl; try reflexivity.
  apply IH.
Qed.

Lemma drop_drop (a b : nat) (s : string) : drop a (drop b s) = drop (b + a) s.
Proof.
  revert s; induction b as [|b IH]; intros [|c s]; simpl; try reflexivity.
  - now destruct a.
  - apply IH.
Qed.

Lemma length_append (a b : string) :
  String.length (a +++ b) = (String.length a + String.length b)%nat.
Proof. induction a as [|c a IH]; simpl; [reflexivity | now rewrite IH]. Qed.

Lemma append_empty_r (a : string) : a +++ "" = a.
Proof. induction a as [|c a IH]; simpl; [reflexivity | now rewrite IH]. Qed.

Lemma append_assoc (a b c : string) : (a +++ b) +++ c = a +++ b +++ c.
Proof. induction a as [|x a IH]; simpl; [reflexivity | now rewrite IH]. Qed.

Lemma length_trimStart (s : string) :
  (String.length (trimStart s) <= String.length s)%nat.
Proof.
  induction s as [|c s IH]; simpl; [lia|].
  destruct (is_space c); simpl; lia.
Qed.

(** [trimStart] removes a run of white space from the front. *)
Lemma trimStart_split (s : string) :
  exists w, s = w +++ trimStart s
            /\ Forall (fun x => is_space x = true) (list_ascii_of_string w).
Proof.
  induction s as [|c s (w & Hs & Hw)]; simpl.
  - exists ""; split; [reflexivity | constructor].
  - destruct (is_space c) eqn:Hc.
    + exists (String c w); split; [simpl; now rewrite <- Hs | now constructor].
    + exists ""; split; [reflexivity | constructor].
Qed.

(** ** utils/signature.ts *)

Section SignatureFacts.
Import Signature.

Definition le_string (a b : string) : Prop := String.leb a b = true.

Lemma insert_perm (x : string) (l : list string) :
  Permutation (insert x l) (x :: l).
Proof.
  induction l as [|y l IH]; simpl; [reflexivity|].
  destruct (String.leb x y); [reflexivity|].
  rewrite IH. apply perm_swap.
Qed.

Lemma sort_perm (l : list string) : Permutation (sort l) l.
Proof.
  induction l as [|x l IH]; simpl; [reflexivity|].
  rewrite insert_perm. now constructor.
Qed.

Lemma insert_sorted (x : string) (l : list string) :
  Sorted le_string l -> Sorted le_string (insert x l).
Proof.
  induction 1 as [|y l Hs IH Hhd]; simpl.
  - repeat constructor.
  - destruct (String.leb x y) eqn:Hxy.
    + constructor; [now constructor | now constructor].
    + assert (Hyx : le_string y x).
      { destruct (String.leb_total x y) as [E|E]; [congruence | exact E]. }
      constructor; [exact IH|].
      destruct Hhd as [|z l Hyz]; simpl.
      * now constructor.
      * destruct (String.leb x z); now constructor.
Qed.

Lemma sort_sorted (l : list string) : Sorted le_string (sort l).
Proof.
  induction l as [|x l IH]; simpl; [constructor | now apply insert_sorted].
Qed.

Lemma set_char_neq (i : nat) (c : ascii) (s : string) :
  (i < String.length s)%nat -> String.get i s <> Some c -> set_char i c s <> s.
Proof.
  revert i; induction s as [|d s IH]; intros [|i] Hi Hc; simpl in *; try lia.
  - intros E. injection E as ->. now apply Hc.
  - intros E. injection E as E. apply (IH i); [lia | exact Hc | exact E].
Qed.

Context `{Crypto}.

(** The verifier accepts exactly the generated signature. *)
Lemma validateSignature_iff (token sig timestamp nonce : string) :
  validateSignature token sig timestamp nonce = true
  <-> sig = generateSignature token timestamp nonce.
Proof.
  unfold validateSignature, generateSignature.
  rewrite String.eqb_eq. split; congruence.
Qed.

(** C3.  For every token, timestamp and nonce the verifier accepts the
    generated signature; that signature is the SHA-1 of the three
    strings concatenated in code-unit order; and replacing any one
    code unit of it by another makes the verifier reject. *)
Theorem C3_signature_roundtrip (token timestamp nonce : string) :
  validateSignature token (generateSignature token timestamp nonce)
                    timestamp nonce = true
  /\ (exists arr,
        Permutation arr [token; timestamp; nonce]
        /\ Sorted le_string arr
        /\ generateSignature token timestamp nonce = sha1_hex (join arr))
  /\ (forall i c,
        let sig := generateSignature token timestamp nonce in
        (i < String.length sig)%nat ->
        String.get i sig <> Some c ->
        validateSignature token (set_char i c sig) timestamp nonce = false).
Proof.
  split; [|split].
  - now apply validateSignature_iff.
  - exists (sort [token; timestamp; nonce]).
    split; [apply sort_perm | split; [apply sort_sorted | reflexivity]].
  - intros i c sig Hi Hc.
    destruct (validateSignature token (set_char i c sig) timestamp nonce) eqn:E;
      [|reflexivity].
    apply validateSignature_iff in E.
    exfalso. now apply (set_char_neq i c sig).
Qed.

End SignatureFacts.

(** Boolean tests on integers, as propositions. *)
Ltac zbool :=
  repeat match goal with
         | H : (_ || _) = true |- _ => apply orb_true_iff in H; destruct H
         | H : (_ || _) = false |- _ => apply orb_false_iff in H; destruct H
         | H : (_ && _) = true |- _ => apply andb_true_iff in H; destruct H
         | H : (_ =? _) = true |- _ => apply Z.eqb_eq in H
         | H : (_ =? _) = false |- _ => apply Z.eqb_neq in H
         | H : (_ <? _) = true |- _ => apply Z.ltb_lt in H
         | H : (_ <? _) = false |- _ => apply Z.ltb_ge in H
         | H : (_ <=? _) = true |- _ => apply Z.leb_le in H
         | H : (_ <=? _) = false |- _ => apply Z.leb_gt in H
         | H : (_ >? _) = true |- _ => apply Z.gtb_gt in H
         | H : (_ >? _) = false |- _ => rewrite Z.gtb_ltb in H
         end.

(** Case analysis on the innermost test of the goal. *)
Ltac case_if :=
  match goal with
  | |- context [if ?b then _ else _] =>
      lazymatch b with
      | context [if _ then _ else _] => fail
      | _ => destruct b eqn:?
      end
  end.

(** ** The chunk loop of [sendTextMessage] *)

Section ChunkingFacts.
Import Chunking.

Lemma last_in_prefix_range (c : ascii) (n : nat) (base : Z) (s : string) (i : Z) :
  last_in_prefix c n base s = Some i ->
  base <= i < base + Z.of_nat n
  /\ String.get (Z.to_nat (i - base)) s = Some c.
Proof.
  revert base s; induction n as [|n IH]; intros base [|d s] Hi;
    simpl in Hi; try discriminate.
  destruct (last_in_prefix c n (base + 1) s) as [j|] eqn:E.
  - injection Hi as ->. apply IH in E as [Hr Hg]. split; [lia|].
    replace (Z.to_nat (i - base)) with (S (Z.to_nat (i - (base + 1)))) by lia.
    exact Hg.
  - destruct (Ascii.eqb d c) eqn:Hd; [|discriminate].
    injection Hi as <-. apply Ascii.eqb_eq in Hd as ->.
    split; [lia|]. now replace (base - base) with 0 by lia.
Qed.

Lemma last_in_prefix_none (c : ascii) (n : nat) (base : Z) (s : string) :
  (forall i, String.get i s <> Some c) ->
  last_in_prefix c n base s = None.
Proof.
  revert base s; induction n as [|n IH]; intros base [|d s] Hs;
    simpl; try reflexivity.
  rewrite IH by (intros i; apply (Hs (S i))).
  destruct (Ascii.eqb d c) eqn:Hd; [|reflexivity].
  apply Ascii.eqb_eq in Hd as ->. now destruct (Hs 0%nat).
Qed.

Lemma lastIndexOf_range (s : string) (c : ascii) (from : nat) :
  -1 <= lastIndexOf s c from <= Z.of_nat from.
Proof.
  unfold lastIndexOf.
  destruct (last_in_prefix c (S from) 0 s) as [i|] eqn:E; [|lia].
  apply last_in_prefix_range in E. lia.
Qed.

Lemma lastIndexOf_found (s : string) (c : ascii) (from : nat) :
  0 <= lastIndexOf s c from ->
  String.get (Z.to_nat (lastIndexOf s c from)) s = Some c.
Proof.
  unfold lastIndexOf.
  destruct (last_in_prefix c (S from) 0 s) as [i|] eqn:E; [|lia].
  intros _. apply last_in_prefix_range in E as [_ Hg].
  now rewrite Z.sub_0_r in Hg.
Qed.

Lemma lastIndexOf_absent (s : string) (c : ascii) (from : nat) :
  (forall i, String.get i s <> Some c) -> lastIndexOf s c from = -1.
Proof.
  intros Hs. unfold lastIndexOf. now rewrite last_in_prefix_none.
Qed.

(** Every split point lies between the midpoint and the ceiling. *)
Lemma splitIndex_range (remaining : string) :
  300 <= splitIndex remaining <= 600.
Proof.
  unfold splitIndex.
  change (Z.of_nat MAX_LENGTH / 2) with 300.
  change (Z.of_nat MAX_LENGTH) with 600.
  pose proof (lastIndexOf_range remaining LF MAX_LENGTH) as H1.
  pose proof (lastIndexOf_range remaining SP MAX_LENGTH) as H2.
  change (Z.of_nat MAX_LENGTH) with 600 in H1, H2.
  repeat case_if; zbool; lia.
Qed.

(** The policy of one split: a line feed at an index from 300 to 600
    if there is one (the last such), else a space at such an index
    (the last one), else the ceiling. *)
Lemma splitIndex_policy (remaining : string) :
  let nl := lastIndexOf remaining LF MAX_LENGTH in
  let sp := lastIndexOf remaining SP MAX_LENGTH in
  (300 <= nl -> splitIndex remaining = nl)
  /\ (nl < 300 -> 300 <= sp -> splitIndex remaining = sp)
  /\ (nl < 300 -> sp < 300 -> splitIndex remaining = 600).
Proof.
  intros nl sp. unfold splitIndex. fold nl sp.
  change (Z.of_nat MAX_LENGTH / 2) with 300.
  change (Z.of_nat MAX_LENGTH) with 600.
  repeat split; intros; repeat case_if; zbool; lia.
Qed.

Lemma no_space_trimStart (s : string) : no_space s -> trimStart s = s.
Proof.
  destruct s as [|c s]; [reflexivity|].
  intros Hs. simpl. now rewrite (Hs 0%nat c eq_refl).
Qed.

Lemma no_space_drop (n : nat) (s : string) : no_space s -> no_space (drop n s).
Proof.
  revert s; induction n as [|n IH]; intros [|d s] Hs; simpl; try exact Hs.
  apply IH. intros i c Hi. apply (Hs (S i) c Hi).
Qed.

Lemma no_space_splitIndex (s : string) : no_space s -> splitIndex s = 600.
Proof.
  intros Hs. unfold splitIndex.
  rewrite !lastIndexOf_absent; [reflexivity | |];
    intros i Hi; now apply Hs in Hi.
Qed.

(** The accumulator only collects. *)
Lemma split_loop_acc (fuel : nat) (remaining : string) (acc : list string) :
  split_loop fuel remaining acc
  = option_map (fun l => (acc ++ l)%list) (split_loop fuel remaining []).
Proof.
  revert remaining acc; induction fuel as [|fuel IH]; intros r acc; simpl;
    [reflexivity|].
  destruct (0 <? len r); [|simpl; now rewrite app_nil_r].
  destruct (len r <=? Z.of_nat MAX_LENGTH); [reflexivity|].
  rewrite IH. rewrite (IH _ [take _ r]).
  destruct (split_loop fuel _ []) as [l|]; simpl; [|reflexivity].
  now rewrite <- app_assoc.
Qed.

(** One iteration of the loop, unfolded. *)
Lemma split_loop_step (fuel : nat) (remaining : string) :
  Z.of_nat MAX_LENGTH < len remaining ->
  split_loop (S fuel) remaining []
  = option_map
      (cons (take (Z.to_nat (splitIndex remaining)) remaining))
      (split_loop fuel
         (trimStart (drop (Z.to_nat (splitIndex remaining)) remaining)) []).
Proof.
  intros Hlen. simpl.
  replace (0 <? len remaining) with true
    by (symmetry; apply Z.ltb_lt; unfold MAX_LENGTH in *; lia).
  replace (len remaining <=? Z.of_nat MAX_LENGTH) with false
    by (symmetry; apply Z.leb_gt; lia).
  now rewrite split_loop_acc.
Qed.

(** The last iteration. *)
Lemma split_loop_last (fuel : nat) (remaining : string) :
  0 < len remaining <= Z.of_nat MAX_LENGTH ->
  split_loop (S fuel) remaining [] = Some [remaining].
Proof.
  intros Hlen. simpl.
  replace (0 <? len remaining) with true by (symmetry; apply Z.ltb_lt; lia).
  replace (len remaining <=? Z.of_nat MAX_LENGTH) with true
    by (symmetry; apply Z.leb_le; lia).
  reflexivity.
Qed.

Lemma len_rest (remaining : string) :
  Z.of_nat MAX_LENGTH < len remaining ->
  (String.length
     (trimStart (drop (Z.to_nat (splitIndex remaining)) remaining))
   < String.length remaining)%nat.
Proof.
  intros Hlen. pose proof (splitIndex_range remaining) as Hi.
  pose proof (length_trimStart (drop (Z.to_nat (splitIndex remaining)) remaining)).
  rewrite length_drop in *. unfold len, MAX_LENGTH in *. lia.
Qed.

(** The loop ends: fuel beyond the length of the text is never used
    up. *)
Lemma split_loop_total (fuel : nat) (remaining : string) :
  (String.length remaining < fuel)%nat ->
  exists chunks, split_loop fuel remaining [] = Some chunks.
Proof.
  revert remaining; induction fuel as [|fuel IH]; intros r Hf; [lia|].
  destruct (Z_lt_le_dec (Z.of_nat MAX_LENGTH) (len r)) as [Hlong|Hshort].
  - rewrite split_loop_step by exact Hlong.
    destruct (IH (trimStart (drop (Z.to_nat (splitIndex r)) r))) as [l ->].
    + pose proof (len_rest r Hlong). lia.
    + now eexists.
  - simpl. destruct (0 <? len r); [|now eexists].
    replace (len r <=? Z.of_nat MAX_LENGTH) with true
      by (symmetry; now apply Z.leb_le).
    now eexists.
Qed.

(** What the loop returns: chunks within the ceiling, all but the last
    at least half of it, none empty, that rebuild the text. *)
Lemma split_loop_spec (fuel : nat) (remaining : string) (chunks : list string) :
  split_loop fuel remaining [] = Some chunks ->
  Forall (fun c => 0 < len c <= 600) chunks
  /\ Forall (fun c => 300 <= len c) (removelast chunks)
  /\ Rebuilds chunks remaining.
Proof.
  revert remaining chunks; induction fuel as [|fuel IH]; intros r chunks Hs;
    [discriminate|].
  destruct (Z_lt_le_dec (Z.of_nat MAX_LENGTH) (len r)) as [Hlong|Hshort].
  - rewrite split_loop_step in Hs by exact Hlong.
    set (i := Z.to_nat (splitIndex r)) in *.
    destruct (split_loop fuel (trimStart (drop i r)) []) as [l|] eqn:E;
      [|discriminate].
    injection Hs as <-. apply IH in E as (Hmax & Hmin & Hre).
    pose proof (splitIndex_range r) as Hi.
    assert (Hlen : len (take i r) = splitIndex r).
    { unfold len in *. rewrite length_take. unfold MAX_LENGTH in *. lia. }
    split; [|split].
    + constructor; [lia | exact Hmax].
    + destruct l as [|c l]; [constructor|].
      change (removelast (take i r :: c :: l))
        with (take i r :: removelast (c :: l)).
      constructor; [lia | exact Hmin].
    + destruct (trimStart_split (drop i r)) as (w & Hw & Hsp).
      rewrite <- (take_drop i r) at 2. rewrite Hw.
      now constructor.
  - simpl in Hs. destruct (0 <? len r) eqn:Hpos.
    + replace (len r <=? Z.of_nat MAX_LENGTH) with true in Hs
        by (symmetry; now apply Z.leb_le).
      injection Hs as <-. apply Z.ltb_lt in Hpos.
      unfold MAX_LENGTH in *.
      repeat split; repeat constructor; lia.
    + injection Hs as <-. apply Z.ltb_ge in Hpos.
      assert (r = "") as ->
          by (destruct r; [reflexivity | unfold len in Hpos; simpl in Hpos; lia]).
      repeat split; constructor.
Qed.

Lemma last_in_prefix_none_inv (c : ascii) (n : nat) (base : Z) (s : string) :
  last_in_prefix c n base s = None ->
  forall j, (j < n)%nat -> String.get j s <> Some c.
Proof.
  revert base s; induction n as [|n IH]; intros base [|d s] Hn j Hj;
    simpl in Hn; try lia; try (now destruct j).
  destruct (last_in_prefix c n (base + 1) s) as [i|] eqn:E; [discriminate|].
  destruct (Ascii.eqb d c) eqn:Hd; [discriminate|].
  destruct j as [|j]; simpl.
  - intros G. injection G as ->. now rewrite Ascii.eqb_refl in Hd.
  - apply (IH _ _ E). lia.
Qed.

Lemma last_in_prefix_greatest (c : ascii) (n : nat) (base : Z) (s : string)
      (i : Z) :
  last_in_prefix c n base s = Some i ->
  forall j, (Z.to_nat (i - base) < j < n)%nat -> String.get j s <> Some c.
Proof.
  revert base s i; induction n as [|n IH]; intros base [|d s] i Hi j Hj;
    simpl in Hi; try discriminate.
  destruct (last_in_prefix c n (base + 1) s) as [i'|] eqn:E.
  - injection Hi as ->. pose proof (last_in_prefix_range _ _ _ _ _ E) as [Hr _].
    destruct j as [|j]; [lia|]. simpl. apply (IH _ _ _ E). lia.
  - destruct j as [|j]; [lia|]. simpl.
    apply (last_in_prefix_none_inv _ _ _ _ E). lia.
Qed.

(** [lastIndexOf] returns the last occurrence up to [from]. *)
Lemma lastIndexOf_last (s : string) (c : ascii) (from : nat) :
  0 <= lastIndexOf s c from ->
  forall j, (Z.to_nat (lastIndexOf s c from) < j <= from)%nat ->
            String.get j s <> Some c.
Proof.
  unfold lastIndexOf.
  destruct (last_in_prefix c (S from) 0 s) as [i|] eqn:E; [|lia].
  intros _ j Hj. apply (last_in_prefix_greatest _ _ _ _ _ E).
  rewrite Z.sub_0_r. lia.
Qed.

Lemma lastIndexOf_none (s : string) (c : ascii) (from : nat) :
  lastIndexOf s c from < 0 ->
  forall j, (j <= from)%nat -> String.get j s <> Some c.
Proof.
  unfold lastIndexOf.
  destruct (last_in_prefix c (S from) 0 s) as [i|] eqn:E.
  - apply last_in_prefix_range in E. lia.
  - intros _ j Hj. apply (last_in_prefix_none_inv _ _ _ _ E). lia.
Qed.

Lemma lastIndexOf_last_at (s : string) (c : ascii) :
  0 <= lastIndexOf s c MAX_LENGTH ->
  last_at c s (Z.to_nat (lastIndexOf s c MAX_LENGTH)).
Proof.
  intros Hi. pose proof (lastIndexOf_range s c MAX_LENGTH) as Hr.
  split; [lia|]. split; [now apply lastIndexOf_found|].
  now apply lastIndexOf_last.
Qed.

Lemma lastIndexOf_none_upper (s : string) (c : ascii) :
  lastIndexOf s c MAX_LENGTH < 300 -> none_upper c s.
Proof.
  intros Hi j Hj.
  destruct (Z_lt_le_dec (lastIndexOf s c MAX_LENGTH) 0) as [Hn|Hp].
  - apply (lastIndexOf_none s c MAX_LENGTH Hn). lia.
  - apply (lastIndexOf_last s c MAX_LENGTH Hp). lia.
Qed.

(** The index the loop computes is the one the policy names. *)
Lemma splitIndex_SplitAt (remaining : string) :
  SplitAt remaining (Z.to_nat (splitIndex remaining)).
Proof.
  destruct (splitIndex_policy remaining) as (P1 & P2 & P3).
  destruct (Z_lt_le_dec (lastIndexOf remaining LF MAX_LENGTH) 300) as [Hn|Hn].
  - destruct (Z_lt_le_dec (lastIndexOf remaining SP MAX_LENGTH) 300) as [Hs|Hs].
    + rewrite (P3 Hn Hs). apply HardCut; auto using lastIndexOf_none_upper.
    + rewrite (P2 Hn Hs).
      apply AtSpace; [now apply lastIndexOf_none_upper | lia |].
      apply lastIndexOf_last_at. lia.
  - rewrite (P1 Hn). apply AtNewline; [lia|].
    apply lastIndexOf_last_at. lia.
Qed.

Lemma last_at_unique (c : ascii) (s : string) (i j : nat) :
  last_at c s i -> last_at c s j -> i = j.
Proof.
  intros (Hi & Gi & Li) (Hj & Gj & Lj).
  destruct (Nat.lt_trichotomy i j) as [Hlt|[E|Hlt]]; [|exact E|].
  - now destruct (Li j (conj Hlt Hj)).
  - now destruct (Lj i (conj Hlt Hi)).
Qed.

(** The policy names one index. *)
Lemma SplitAt_unique (s : string) (i j : nat) :
  SplitAt s i -> SplitAt s j -> i = j.
Proof.
  intros [Hi Li|Ni Hi Li|Ni Si ->] [Hj Lj|Nj Hj Lj|Nj Sj ->];
    try reflexivity; eauto using last_at_unique.
  all: try (destruct Li as (Li & Gi & _); now destruct (Nj i (conj Hi Li))).
  all: try (destruct Lj as (Lj & Gj & _); now destruct (Ni j (conj Hj Lj))).
  all: try (destruct Li as (Li & Gi & _); now destruct (Sj i (conj Hi Li))).
  all: try (destruct Lj as (Lj & Gj & _); now destruct (Si j (conj Hj Lj))).
Qed.

Lemma trimStart_starts (s : string) : starts_without_space (trimStart s).
Proof.
  induction s as [|c s IH]; simpl; [exact I|].
  destruct (is_space c) eqn:Hc; [exact IH | exact Hc].
Qed.

(** The white space a text begins with is one run. *)
Lemma leading_space_unique (w w' rest rest' : string) :
  w +++ rest = w' +++ rest' ->
  Forall (fun x => is_space x = true) (list_ascii_of_string w) ->
  Forall (fun x => is_space x = true) (list_ascii_of_string w') ->
  starts_without_space rest -> starts_without_space rest' ->
  w = w' /\ rest = rest'.
Proof.
  revert w'; induction w as [|c w IH]; intros [|c' w'] E Hw Hw' Hr Hr';
    simpl in E.
  - now split.
  - subst rest. simpl in Hr. inversion Hw' as [|x l Hc _]; subst. congruence.
  - subst rest'. simpl in Hr'. inversion Hw as [|x l Hc _]; subst. congruence.
  - injection E as -> E. inversion Hw; inversion Hw'; subst.
    destruct (IH w' E) as [-> ->]; auto.
Qed.

(** What the loop returns is the chunks the policy names. *)
Lemma split_loop_Split (fuel : nat) (remaining : string) (chunks : list string) :
  split_loop fuel remaining [] = Some chunks -> Split remaining chunks.
Proof.
  revert remaining chunks; induction fuel as [|fuel IH]; intros r chunks Hs;
    [discriminate|].
  destruct (Z_lt_le_dec (Z.of_nat MAX_LENGTH) (len r)) as [Hlong|Hshort].
  - rewrite split_loop_step in Hs by exact Hlong.
    set (i := Z.to_nat (splitIndex r)) in *.
    destruct (split_loop fuel (trimStart (drop i r)) []) as [l|] eqn:E;
      [|discriminate].
    injection Hs as <-. apply IH in E.
    destruct (trimStart_split (drop i r)) as (w & Hw & Hsp).
    apply (Split_more r i w (trimStart (drop i r)) l); auto.
    + apply splitIndex_SplitAt.
    + apply trimStart_starts.
  - simpl in Hs. destruct (0 <? len r) eqn:Hpos.
    + replace (len r <=? Z.of_nat MAX_LENGTH) with true in Hs
        by (symmetry; now apply Z.leb_le).
      injection Hs as <-. apply Z.ltb_lt in Hpos. now apply Split_last.
    + injection Hs as <-. apply Z.ltb_ge in Hpos.
      assert (r = "") as ->
          by (destruct r; [reflexivity | unfold len in Hpos; simpl in Hpos; lia]).
      apply Split_nothing.
Qed.

Lemma Split_inv (s : string) (chunks : list string) :
  Split s chunks ->
  (len s = 0 /\ chunks = [])
  \/ (0 < len s <= Z.of_nat MAX_LENGTH /\ chunks = [s])
  \/ (Z.of_nat MAX_LENGTH < len s
      /\ exists i w rest l,
          SplitAt s i /\ drop i s = w +++ rest
          /\ Forall (fun x => is_space x = true) (list_ascii_of_string w)
          /\ starts_without_space rest /\ Split rest l
          /\ chunks = take i s :: l).
Proof.
  intros [|r Hlen|r i w rest l Hlen Hi Hd Hw Hr Hs].
  - now left.
  - right; left. now split.
  - right; right. split; [exact Hlen|]. now exists i, w, rest, l.
Qed.

(** The policy names one list of chunks. *)
Lemma Split_unique (s : string) (chunks chunks' : list string) :
  Split s chunks -> Split s chunks' -> chunks = chunks'.
Proof.
  intros Hs; revert chunks'.
  induction Hs as [|s Hlen|s i w rest chunks Hlen Hi Hd Hw Hr Hs IH];
    intros chunks' Hs'; apply Split_inv in Hs';
    destruct Hs' as [(Hl & ->)|[(Hl & ->)|(Hl & i' & w' & rest' & l' & Hi'
                                          & Hd' & Hw' & Hr' & Hs' & ->)]];
    try reflexivity; try (unfold len in *; simpl in *; lia).
  pose proof (SplitAt_unique _ _ _ Hi Hi') as <-.
  rewrite Hd in Hd'.
  destruct (leading_space_unique _ _ _ _ Hd' Hw Hw' Hr Hr') as [<- <-].
  f_equal. now apply IH.
Qed.

Lemma number_from_nth (total : nat) (chunks : list string) (i k : nat) :
  nth_error (number_from i total chunks) k
  = option_map (chunkText total (i + k)) (nth_error chunks k).
Proof.
  revert i k; induction chunks as [|c cs IH]; intros i [|k]; simpl;
    try reflexivity.
  - now rewrite Nat.add_0_r.
  - rewrite IH. now replace (S i + k)%nat with (i + S k)%nat by lia.
Qed.

(** A text of 1450 code units without white space splits by hard cuts
    into three chunks. *)
Lemma splitChunks_1450 (content : string) :
  String.length content = 1450%nat ->
  no_space content ->
  splitChunks content
  = Some [take 600 content; take 600 (drop 600 content); drop 1200 content].
Proof.
  intros Hlen Hns. unfold splitChunks. rewrite Hlen.
  rewrite split_loop_step by (unfold len, MAX_LENGTH; lia).
  rewrite (no_space_splitIndex content Hns).
  change (Z.to_nat 600) with 600%nat.
  rewrite (no_space_trimStart (drop 600 content)) by now apply no_space_drop.
  assert (Hns1 : no_space (drop 600 content)) by now apply no_space_drop.
  rewrite split_loop_step
    by (unfold len, MAX_LENGTH; rewrite length_drop; lia).
  rewrite (no_space_splitIndex _ Hns1).
  change (Z.to_nat 600) with 600%nat.
  rewrite (no_space_trimStart (drop 600 (drop 600 content)))
    by now apply no_space_drop.
  rewrite drop_drop. change (600 + 600)%nat with 1200%nat.
  rewrite split_loop_last
    by (unfold len, MAX_LENGTH; rewrite length_drop; lia).
  reflexivity.
Qed.

End ChunkingFacts.

Section ChunkingClaim.
Import Chunking.

Lemma get_replicate_char (n i : nat) (c d : ascii) :
  String.get i (replicate_char n c) = Some d -> d = c.
Proof.
  revert i; induction n as [|n IH]; intros [|i] Hg; simpl in Hg;
    try discriminate.
  - now injection Hg.
  - now apply (IH i).
Qed.

Lemma length_replicate_char (n : nat) (c : ascii) :
  String.length (replicate_char n c) = n.
Proof. induction n as [|n IH]; simpl; [reflexivity | now rewrite IH]. Qed.

(** C5 (amended).  For every content longer than 600 code units the
    loop ends and yields the chunks the policy names, and no others:
    each split, the first and every later one, is at the last line
    feed at an index from 300 to 600 of what remains, else at the last
    space at such an index, else at index 600, and all the white space
    that what follows the split begins with is dropped before the next
    split.  So the first chunk ends where the policy says; every chunk
    is non-empty and at most 600 code units before any marker is
    added; every chunk but the last has at least 300; the chunks in
    order, with the white space dropped after each split put back, are
    the content; the text sent for the chunk at index [k >= 1] is the
    chunk behind the marker [(k+1/total) ], the first chunk being sent
    as it is; and a content of 1450 code units without white space
    yields exactly the three chunks of 600, 600 and 250 code units cut
    at 600 and 1200. *)
Theorem C5_chunking (content : string) :
  Z.of_nat MAX_LENGTH < len content ->
  exists chunks,
    splitChunks content = Some chunks
    /\ outgoingTexts content
       = Some (number_from 0 (List.length chunks) chunks)
    /\ (let nl := lastIndexOf content LF MAX_LENGTH in
        let sp := lastIndexOf content SP MAX_LENGTH in
        exists first, nth_error chunks 0 = Some first
        /\ (300 <= nl -> first = take (Z.to_nat nl) content)
        /\ (nl < 300 -> 300 <= sp -> first = take (Z.to_nat sp) content)
        /\ (nl < 300 -> sp < 300 -> first = take 600 content))
    /\ Forall (fun c => 0 < len c <= 600) chunks
    /\ Forall (fun c => 300 <= len c) (removelast chunks)
    /\ Rebuilds chunks content
    /\ (forall k c,
          nth_error chunks k = Some c ->
          nth_error (number_from 0 (List.length chunks) chunks) k
          = Some (match k with
                  | O => c
                  | S _ => "(" +++ of_Z (Z.of_nat k + 1) +++ "/"
                               +++ of_Z (Z.of_nat (List.length chunks))
                               +++ ") " +++ c
                  end))
    /\ (String.length content = 1450%nat ->
        no_space content ->
        chunks = [take 600 content; take 600 (drop 600 content);
                  drop 1200 content])
    /\ Split content chunks
    /\ (forall chunks', Split content chunks' -> chunks' = chunks).
Proof.
  intros Hlong.
  destruct (split_loop_total (S (String.length content)) content) as [chunks Hc];
    [lia|].
  exists chunks. pose proof (split_loop_spec _ _ _ Hc) as (Hmax & Hmin & Hre).
  pose proof (split_loop_Split _ _ _ Hc) as Hsplit.
  split; [exact Hc|].
  split.
  { unfold outgoingTexts.
    replace (len content <=? Z.of_nat MAX_LENGTH) with false
      by (symmetry; apply Z.leb_gt; lia).
    unfold splitChunks in Hc |- *. now rewrite Hc. }
  split.
  { intros nl sp. unfold splitChunks in Hc.
    rewrite split_loop_step in Hc by exact Hlong.
    destruct (split_loop _ _ []) as [l|]; [|discriminate].
    injection Hc as <-.
    exists (take (Z.to_nat (splitIndex content)) content).
    split; [reflexivity|].
    destruct (splitIndex_policy content) as (P1 & P2 & P3). fold nl sp in P1, P2, P3.
    repeat split; intros.
    - now rewrite P1.
    - now rewrite P2.
    - now rewrite P3. }
  split; [exact Hmax|]. split; [exact Hmin|]. split; [exact Hre|].
  split.
  { intros k c Hk. rewrite number_from_nth, Hk. simpl.
    destruct k; reflexivity. }
  split.
  { intros Hlen Hns. unfold splitChunks in Hc.
    pose proof (splitChunks_1450 content Hlen Hns) as E.
    unfold splitChunks in E. congruence. }
  split; [exact Hsplit|].
  intros chunks' Hs'. now apply (Split_unique content).
Qed.

End ChunkingClaim.

(** ** The task switch of the forwarder *)

Section ForwarderFacts.
Import Forwarder.
Context `{JsNumber}.








End ForwarderFacts.

(** ** GET /wechat *)

Section HandshakeFacts.
Import Signature WechatRoutes.
Context `{JsNumber} `{Crypto} (config : Config).

(** A query parameter that is absent or empty. *)
Definition missing (x : option string) : Prop := x = None \/ x = Some "".

Lemma truthy_false_iff (x : option string) :
  JsString.truthy x = false <-> missing x.
Proof.
  unfold missing. destruct x as [[|c s]|]; simpl; split;
    intros; try tauto; try discriminate; destruct H1; discriminate.
Qed.

Lemma truthy_true_iff (x : option string) :
  JsString.truthy x = true <-> exists s, x = Some s /\ s <> "".
Proof.
  destruct x as [[|c s]|]; simpl; split; try discriminate.
  - intros (s & E & Hs). now injection E as <-.
  - intros _. now exists (String c s).
  - reflexivity.
  - intros (s & E & _). discriminate.
Qed.

(** C9 (amended).  The handshake answers 400 when the signature, the
    timestamp or the nonce is missing or empty; with all three
    present, 200 with the echostr as a plain-text body when the
    signature is valid and a non-empty echostr is given; and 403 in
    every other case: an invalid signature, or a valid one without an
    echostr. *)
Theorem C9_handshake (query : WeChatQueryParams) :
  ((missing (signature query) \/ missing (timestamp query)
    \/ missing (nonce query)) ->
   get_wechat config query = send_text 400 "Missing parameters")
  /\ (forall sig ts nc,
        signature query = Some sig -> sig <> "" ->
        timestamp query = Some ts -> ts <> "" ->
        nonce query = Some nc -> nc <> "" ->
        (forall echo,
            validateSignature (wechat_token config) sig ts nc = true ->
            echostr query = Some echo -> echo <> "" ->
            get_wechat config query
            = {| status := 200; contentType := Some "text/plain";
                 body := BodyText echo |})
        /\ (validateSignature (wechat_token config) sig ts nc = false ->
            get_wechat config query = send_text 403 "Invalid signature")
        /\ (missing (echostr query) ->
            get_wechat config query = send_text 403 "Invalid signature")).
Proof.
  unfold get_wechat. split.
  - intros Hm.
    assert (E : negb (JsString.truthy (signature query))
                || negb (JsString.truthy (timestamp query))
                || negb (JsString.truthy (nonce query)) = true).
    { rewrite !orb_true_iff, !negb_true_iff, !truthy_false_iff. tauto. }
    now rewrite E.
  - intros sig ts nc -> Hs -> Ht -> Hn.
    destruct sig as [|a sig], ts as [|b ts], nc as [|c nc]; try tauto.
    simpl. repeat split.
    + intros echo -> -> He. destruct echo; [tauto | reflexivity].
    + now intros ->.
    + intros Hm. apply truthy_false_iff in Hm. rewrite Hm.
      now rewrite andb_false_r.
Qed.

End HandshakeFacts.

(** ** services/redis.ts: the binding store *)

Section StoreFacts.
Import RedisService.
Context `{JsNumber} `{JsonCodec}.

(** What [getBinding] returns, as a function of the world. *)
Definition lookupBinding (openId : string) (w : World) : json :=
  match lookup_key (BINDING_PREFIX +++ openId) w with
  | Some (String c s) =>
      match JSON_parse (String c s) with
      | Some v => v
      | None => JNull
      end
  | _ => JNull
  end.

Lemma getBinding_run (openId : string) (w : World) :
  getBinding openId w = (Ok (lookupBinding openId w), w).
Proof.
  unfold getBinding, lookupBinding, bind, redis_get, ret.
  destruct (lookup_key (BINDING_PREFIX +++ openId) w) as [[|c s]|];
    simpl; try reflexivity.
  now destruct (JSON_parse (String c s)).
Qed.

Lemma bind_getBinding {A} (openId : string) (f : json -> M A) (w : World) :
  bind (getBinding openId) f w = f (lookupBinding openId w) w.
Proof. unfold bind. now rewrite getBinding_run. Qed.

Lemma lookup_key_with_key (k v : string) (w : World) :
  lookup_key k (with_key k v None w) = Some v.
Proof.
  unfold lookup_key, live, with_key; simpl.
  now rewrite lookup_delete_eq, lookup_insert_eq.
Qed.

Lemma lookup_key_without_key (k : string) (w : World) :
  lookup_key k (without_key k w) = None.
Proof.
  unfold lookup_key, live, without_key; simpl.
  now rewrite !lookup_delete_eq.
Qed.

Lemma lookup_key_with_other (k k' v : string) (d : option Z) (w : World) :
  k' <> k -> lookup_key k' (with_key k v d w) = lookup_key k' w.
Proof.
  intros Hk. unfold lookup_key, live, with_key; simpl.
  rewrite lookup_insert_ne by congruence.
  destruct d; [rewrite lookup_insert_ne | rewrite lookup_delete_ne];
    congruence.
Qed.

Lemma lookup_key_without_other (k k' : string) (w : World) :
  k' <> k -> lookup_key k' (without_key k w) = lookup_key k' w.
Proof.
  intros Hk. unfold lookup_key, live, without_key; simpl.
  now rewrite !lookup_delete_ne by congruence.
Qed.

(** [JSON.stringify] gives a text that [JSON.parse] reads back as the
    value. *)
Definition stores_faithfully (v : json) : Prop :=
  JSON_stringify v <> "" /\ JSON_parse (JSON_stringify v) = Some v.

Lemma setBinding_run (openId endpoint token : string) (w : World) :
  setBinding openId endpoint token w
  = (Ok tt,
     with_key (BINDING_PREFIX +++ openId)
              (JSON_stringify (UserBinding endpoint token (clock w))) None w).
Proof. reflexivity. Qed.

Lemma deleteBinding_run (openId : string) (w : World) :
  exists existed,
    deleteBinding openId w
    = (Ok existed, without_key (BINDING_PREFIX +++ openId) w).
Proof.
  unfold deleteBinding, bind, redis_del, ret. now eexists.
Qed.

(** Writing a binding and reading it back. *)
Lemma lookupBinding_written (openId : string) (v : json) (w : World) :
  stores_faithfully v ->
  lookupBinding openId
    (with_key (BINDING_PREFIX +++ openId) (JSON_stringify v) None w) = v.
Proof.
  intros [Hne Hrt]. unfold lookupBinding. rewrite lookup_key_with_key.
  destruct (JSON_stringify v) as [|c s] eqn:E; [tauto|]. now rewrite Hrt.
Qed.

Lemma lookupBinding_deleted (openId : string) (w : World) :
  lookupBinding openId (without_key (BINDING_PREFIX +++ openId) w) = JNull.
Proof. unfold lookupBinding. now rewrite lookup_key_without_key. Qed.

End StoreFacts.

(** ** The two command patterns *)

Section CommandFacts.
Import WechatRoutes.
Import Chunking.

Definition all_space (s : string) : Prop :=
  forall i c, String.get i s = Some c -> is_space c = true.

Lemma no_space_tail (c : ascii) (s : string) :
  no_space (String c s) -> no_space s.
Proof. intros Hs i d Hi. apply (Hs (S i) d Hi). Qed.

Lemma all_space_tail (c : ascii) (s : string) :
  all_space (String c s) -> all_space s.
Proof. intros Hs i d Hi. apply (Hs (S i) d Hi). Qed.

(** A run of code units satisfying [p], followed by nothing or by one
    that does not, is what [span p] takes. *)
Lemma span_run (p : ascii -> bool) (a b : string) :
  (forall i c, String.get i a = Some c -> p c = true) ->
  match b with String c _ => p c = false | EmptyString => True end ->
  span p (a +++ b) = (a, b).
Proof.
  intros Ha Hb. induction a as [|x a IH]; simpl.
  - destruct b as [|c b]; [reflexivity | simpl; now rewrite Hb].
  - rewrite (Ha 0%nat x eq_refl).
    rewrite IH by (intros i c Hi; apply (Ha (S i) c Hi)). reflexivity.
Qed.

Lemma not_space_run (a : string) :
  no_space a -> forall i c, String.get i a = Some c -> not_space c = true.
Proof. intros Ha i c Hi. unfold not_space. now rewrite (Ha i c Hi). Qed.

Definition word (s : string) : Prop := s <> "" /\ no_space s.
Definition gap (s : string) : Prop := s <> "" /\ all_space s.

Lemma starts_not_space (a b : string) :
  word a ->
  match a +++ b with
  | String c _ => is_space c = false
  | EmptyString => True
  end.
Proof.
  intros [Hne Ha]. destruct a as [|c a]; [tauto|]. simpl.
  apply (Ha 0%nat c eq_refl).
Qed.

Lemma starts_space (a b : string) :
  gap a ->
  match a +++ b with
  | String c _ => not_space c = false
  | EmptyString => True
  end.
Proof.
  intros [Hne Ha]. destruct a as [|c a]; [tauto|]. simpl.
  unfold not_space. now rewrite (Ha 0%nat c eq_refl).
Qed.

Lemma nonempty_true (s : string) : s <> "" -> nonempty s = true.
Proof. destruct s; [tauto | reflexivity]. Qed.

(** The text [bind], in any letter case, a gap, a word, a gap and a
    word match the bind pattern, the two words being the captures. *)
Lemma BIND_REGEX_matches (b gap1 endpoint gap2 token : string) :
  String.length b = 4%nat ->
  lower_string b = "bind" ->
  gap gap1 -> word endpoint -> gap gap2 -> word token ->
  BIND_REGEX (b +++ gap1 +++ endpoint +++ gap2 +++ token)
  = Some (endpoint, token).
Proof.
  intros Hb4 Hb G1 W1 G2 W2. unfold BIND_REGEX.
  destruct b as [|b1 [|b2 [|b3 [|b4 [|b5 b]]]]]; try discriminate.
  cbn [take drop String.append].
  change (lower_string (String b1 (String b2 (String b3 (String b4 "")))))
    with (lower_string (String b1 (String b2 (String b3 (String b4 ""))))).
  rewrite Hb. cbn [String.eqb Ascii.eqb Bool.eqb].
  change (String.eqb "bind" "bind") with true. cbv iota.
  rewrite (span_run is_space gap1 (endpoint +++ gap2 +++ token));
    [| apply G1 | now apply starts_not_space].
  rewrite (span_run not_space endpoint (gap2 +++ token));
    [| apply not_space_run, W1 | now apply starts_space].
  rewrite (span_run is_space gap2 token);
    [| apply G2 | rewrite <- (append_empty_r token); now apply starts_not_space].
  rewrite <- (append_empty_r token) at 1.
  rewrite (span_run not_space token "");
    [| apply not_space_run, W2 | exact I].
  rewrite !nonempty_true by (apply G1 || apply G2 || apply W1 || apply W2).
  reflexivity.
Qed.

Lemma trimEnd_head (c : ascii) (s : string) :
  is_space c = false -> exists t, trimEnd (String c s) = String c t.
Proof.
  intros Hc. simpl. destruct (trimEnd s); rewrite ?Hc; now eexists.
Qed.

(** A text the bind pattern matches is not an unbind command. *)
Lemma BIND_REGEX_not_unbind (content : string) (p : string * string) :
  BIND_REGEX content = Some p -> UNBIND_REGEX (trim content) = false.
Proof.
  unfold BIND_REGEX, UNBIND_REGEX, trim.
  destruct content as [|c content]; [discriminate|].
  destruct (String.eqb_spec
              (lower_string (take 4 (String c content))) "bind") as [E|];
    [|discriminate].
  intros _. assert (Hl : lower c = "b"%char).
  { destruct content as [|c2 content]; [discriminate|].
    simpl in E. now injection E. }
  assert (Hc : is_space c = false).
  { destruct (is_space c) eqn:Hs; [|reflexivity]. exfalso.
    unfold is_space in Hs. unfold lower in Hl.
    destruct c as [[] [] [] [] [] [] [] []]; simpl in *; discriminate. }
  simpl. rewrite Hc.
  destruct (trimEnd_head c content Hc) as [t ->].
  simpl. rewrite Hl. reflexivity.
Qed.

Lemma UNBIND_REGEX_truthy (content : string) :
  UNBIND_REGEX (trim content) = true -> JsString.truthy (Some content) = true.
Proof. destruct content; [discriminate | reflexivity]. Qed.

End CommandFacts.

(** ** POST /wechat: the binding commands *)

Section HandlerFacts.
Import RedisService Forwarder WechatRoutes.
Context `{JsNumber} `{Crypto} `{JsonCodec} `{UrlParser} {xml : XmlParser}
        (config : Config).

(** A text message from [openId] with the given content. *)
Definition textMessage_from (openId content : string) (message : WeChatMessage)
  : Prop :=
  FromUserName message = openId
  /\ MsgType message = "text"
  /\ Content message = Some (TagString content).

(** The passive text reply to [message], built in world [w]. *)
Definition xmlReply (message : WeChatMessage) (content : string) (w : World)
  : Response :=
  send_xml {| reply_ToUserName := FromUserName message;
              reply_FromUserName := ToUserName message;
              reply_CreateTime := clock w / 1000;
              reply_MsgType := "text";
              reply_Content := Some content |}.

Lemma buildTextReply_run (toUser fromUser content : string) (w : World) :
  buildTextReply toUser fromUser content w
  = (Ok {| reply_ToUserName := toUser;
           reply_FromUserName := fromUser;
           reply_CreateTime := clock w / 1000;
           reply_MsgType := "text";
           reply_Content := Some content |}, w).
Proof. reflexivity. Qed.

Ltac run_step :=
  unfold bind at 1;
  rewrite ?getBinding_run, ?setBinding_run, ?buildTextReply_run;
  cbv beta iota zeta.

Ltac enter_handler Hfrom Htype Hcontent :=
  unfold handleMessage; rewrite Htype, Hcontent, Hfrom;
  change (String.eqb "text" "event") with false;
  change (String.eqb "text" "text") with true;
  cbv iota; run_step.

Lemma truthy_string (content : string) :
  Tag.truthy (Some (TagString content)) = JsString.truthy (Some content).
Proof. now destruct content. Qed.

(** An unbound subject sends a bind command with a well-formed URL. *)
Lemma handle_bind_unbound (w : World) (openId content endpoint token : string)
      (message : WeChatMessage) :
  textMessage_from openId content message ->
  BIND_REGEX content = Some (endpoint, token) ->
  URL_ok endpoint = true ->
  Js.truthy (lookupBinding openId w) = false ->
  handleMessage config message w
  = (Ok (xmlReply message (bindOkMsg endpoint) w),
     with_key (BINDING_PREFIX +++ openId)
              (JSON_stringify (UserBinding endpoint token (clock w))) None w).
Proof.
  intros (Hfrom & Htype & Hcontent) Hbind Hurl Hunbound.
  assert (Ht : Tag.truthy (Some (TagString content)) = true)
    by (destruct content; [discriminate | reflexivity]).
  enter_handler Hfrom Htype Hcontent.
  rewrite Hunbound, Ht. cbn [negb andb on_string]. rewrite Hbind. cbv beta iota.
  rewrite Hurl. cbn [negb]. do 2 run_step. unfold ret, xmlReply. now rewrite Hfrom.
Qed.

(** An unbound subject sends a text that is no bind command. *)
Lemma handle_other_unbound (w : World) (openId content : string)
      (message : WeChatMessage) :
  textMessage_from openId content message ->
  BIND_REGEX content = None ->
  Js.truthy (lookupBinding openId w) = false ->
  handleMessage config message w
  = (Ok (xmlReply message pleaseBindMsg w), w).
Proof.
  intros (Hfrom & Htype & Hcontent) Hbind Hunbound.
  enter_handler Hfrom Htype Hcontent.
  rewrite Hunbound. cbn [negb andb on_string]. rewrite Hbind.
  assert (E : (if Tag.truthy (Some (TagString content))
               then Some (@None (string * string)) else Some None) = Some None)
    by now destruct (Tag.truthy _).
  rewrite E. run_step. unfold ret, xmlReply. now rewrite Hfrom.
Qed.

(** A bound subject sends an unbind command. *)
Lemma handle_unbind_bound (w : World) (openId content : string)
      (message : WeChatMessage) :
  textMessage_from openId content message ->
  UNBIND_REGEX (trim content) = true ->
  Js.truthy (lookupBinding openId w) = true ->
  handleMessage config message w
  = (Ok (xmlReply message unbindOkMsg w),
     without_key (BINDING_PREFIX +++ openId) w).
Proof.
  intros (Hfrom & Htype & Hcontent) Hunbind Hbound.
  pose proof (UNBIND_REGEX_truthy content Hunbind) as Ht.
  rewrite <- truthy_string in Ht.
  enter_handler Hfrom Htype Hcontent.
  rewrite Hbound, Ht. cbn [negb andb on_string]. rewrite Hunbind.
  unfold bind at 1. unfold deleteBinding, bind, redis_del, ret.
  cbv beta iota zeta. rewrite buildTextReply_run.
  unfold xmlReply. now rewrite Hfrom.
Qed.

(** A bound subject sends a text that is no unbind command. *)
Lemma handle_text_bound (w : World) (openId content : string)
      (message : WeChatMessage) :
  textMessage_from openId content message ->
  UNBIND_REGEX (trim content) = false ->
  Js.truthy (lookupBinding openId w) = true ->
  handleMessage config message w
  = (Ok (xmlReply message processingMsg w),
     emit (EvForward (Js.get (lookupBinding openId w) "endpoint")
                     (Js.get (lookupBinding openId w) "token")
                     (payloadOf config message)) w).
Proof.
  intros (Hfrom & Htype & Hcontent) Hunbind Hbound.
  enter_handler Hfrom Htype Hcontent.
  rewrite Hbound. cbn [negb andb on_string]. rewrite Hunbind.
  assert (E : (if Tag.truthy (Some (TagString content))
               then Some false else Some false) = Some false)
    by now destruct (Tag.truthy _).
  rewrite E.
  unfold bind at 1. unfold forwardToClawdbot. run_step.
  unfold ret, xmlReply. now rewrite Hfrom.
Qed.

End HandlerFacts.

Section BindingClaims.
Import RedisService Forwarder WechatRoutes.
Context `{JsNumber} `{Crypto} `{JsonCodec} `{UrlParser} {xml : XmlParser}
        (config : Config).

Lemma lookupBinding_emit (openId : string) (e : Effect) (w : World) :
  lookupBinding openId (emit e w) = lookupBinding openId w.
Proof. reflexivity. Qed.

Lemma gap_space : gap " ".
Proof.
  split; [discriminate|]. intros [|[|i]] c Hi; simpl in Hi; try discriminate.
  now injection Hi as <-.
Qed.

Lemma bind_command_matches (url tok : string) :
  word url -> word tok ->
  BIND_REGEX ("bind " +++ url +++ " " +++ tok) = Some (url, tok).
Proof.
  intros Hu Ht.
  apply (BIND_REGEX_matches "bind" " " url " " tok);
    auto using gap_space.
Qed.

(** C1 (amended).  A subject without a Binding sends [bind <url> <tok>],
    [url] being a well-formed URL: the reply confirms the endpoint and
    a lookup returns the Binding with exactly that endpoint and token
    (and the creation time).  A second [bind <url2> <tok2>] from the
    subject, now bound, is no command: it is forwarded as a task to
    the bound endpoint with the bound token, answered with the
    processing notice, and the Binding stays as it was.  An [unbind]
    then deletes the Binding and a lookup returns [null]; after it,
    [bind <url2> <tok2>] creates the Binding with exactly the second
    pair.  [setBinding] itself, called over an existing Binding,
    replaces it whole. *)
Theorem C1_binding_roundtrip
        (w : World) (openId url tok url2 tok2 : string)
        (m1 m2 mu : WeChatMessage) :
  word url -> word tok -> word url2 -> word tok2 ->
  URL_ok url = true -> URL_ok url2 = true ->
  stores_faithfully (UserBinding url tok (clock w)) ->
  stores_faithfully (UserBinding url2 tok2 (clock w)) ->
  textMessage_from openId ("bind " +++ url +++ " " +++ tok) m1 ->
  textMessage_from openId ("bind " +++ url2 +++ " " +++ tok2) m2 ->
  textMessage_from openId "unbind" mu ->
  Js.truthy (lookupBinding openId w) = false ->
  let w1 := snd (handleMessage config m1 w) in
  let w2 := snd (handleMessage config m2 w1) in
  let w3 := snd (handleMessage config mu w2) in
  let w4 := snd (handleMessage config m2 w3) in
  fst (handleMessage config m1 w) = Ok (xmlReply m1 (bindOkMsg url) w)
  /\ getBinding openId w1 = (Ok (UserBinding url tok (clock w)), w1)
  /\ fst (handleMessage config m2 w1) = Ok (xmlReply m2 processingMsg w)
  /\ w2 = emit (EvForward (Some (JStr url)) (Some (JStr tok))
                          (payloadOf config m2)) w1
  /\ getBinding openId w2 = (Ok (UserBinding url tok (clock w)), w2)
  /\ fst (handleMessage config mu w2) = Ok (xmlReply mu unbindOkMsg w)
  /\ getBinding openId w3 = (Ok JNull, w3)
  /\ fst (handleMessage config m2 w3) = Ok (xmlReply m2 (bindOkMsg url2) w)
  /\ getBinding openId w4 = (Ok (UserBinding url2 tok2 (clock w)), w4)
  /\ getBinding openId (snd (setBinding openId url2 tok2 w1))
     = (Ok (UserBinding url2 tok2 (clock w)),
        snd (setBinding openId url2 tok2 w1)).
Proof.
  intros Wu Wt Wu2 Wt2 Uok Uok2 Sf Sf2 M1 M2 Mu Hunbound.
  pose proof (bind_command_matches url tok Wu Wt) as B1.
  pose proof (bind_command_matches url2 tok2 Wu2 Wt2) as B2.
  pose proof (handle_bind_unbound config w openId
                ("bind " +++ url +++ " " +++ tok) url tok m1 M1 B1 Uok Hunbound)
    as R1.
  intros w1. assert (E1 : w1 = snd (handleMessage config m1 w)) by reflexivity.
  rewrite R1 in E1. cbn [snd] in E1.
  assert (L1 : lookupBinding openId w1 = UserBinding url tok (clock w))
    by (rewrite E1; now apply lookupBinding_written).
  assert (C1 : clock w1 = clock w) by now rewrite E1.
  assert (T1 : Js.truthy (lookupBinding openId w1) = true) by now rewrite L1.
  pose proof (handle_text_bound config w1 openId
                ("bind " +++ url2 +++ " " +++ tok2) m2 M2
                (BIND_REGEX_not_unbind _ _ B2) T1) as R2.
  intros w2. assert (E2 : w2 = snd (handleMessage config m2 w1)) by reflexivity.
  rewrite R2 in E2. cbn [snd] in E2. rewrite L1 in E2, R2. cbn in E2.
  assert (L2 : lookupBinding openId w2 = UserBinding url tok (clock w))
    by (rewrite E2, lookupBinding_emit; exact L1).
  assert (C2 : clock w2 = clock w) by (rewrite E2; exact C1).
  assert (T2 : Js.truthy (lookupBinding openId w2) = true) by now rewrite L2.
  pose proof (handle_unbind_bound config w2 openId "unbind" mu Mu eq_refl T2) as R3.
  intros w3. assert (E3 : w3 = snd (handleMessage config mu w2)) by reflexivity.
  rewrite R3 in E3. cbn [snd] in E3.
  assert (L3 : lookupBinding openId w3 = JNull)
    by (rewrite E3; apply lookupBinding_deleted).
  assert (C3 : clock w3 = clock w) by (rewrite E3; exact C2).
  assert (T3 : Js.truthy (lookupBinding openId w3) = false) by now rewrite L3.
  pose proof (handle_bind_unbound config w3 openId
                ("bind " +++ url2 +++ " " +++ tok2) url2 tok2 m2 M2 B2 Uok2 T3)
    as R4.
  intros w4. assert (E4 : w4 = snd (handleMessage config m2 w3)) by reflexivity.
  rewrite R4 in E4. cbn [snd] in E4. rewrite C3 in E4.
  assert (L4 : lookupBinding openId w4 = UserBinding url2 tok2 (clock w))
    by (rewrite E4; now apply lookupBinding_written).
  rewrite !getBinding_run, L1, L2, L3, L4.
  rewrite R1, R2, R3, R4. cbn [fst].
  unfold xmlReply. rewrite C1, C2, C3.
  repeat match goal with |- _ /\ _ => split end; try reflexivity.
  - exact E2.
  - rewrite setBinding_run. cbn [snd]. rewrite C1.
    now rewrite lookupBinding_written.
Qed.

(** C2 (amended).  A text that is [unbind] once trimmed, in any letter
    case, never fails.  From a subject with a Binding it deletes the
    Binding, a lookup then returns [null], and the reply is the unbind
    confirmation.  From a subject without a Binding it changes
    nothing, the subject stays without a Binding, and the reply is the
    request to bind first, not a confirmation. *)
Theorem C2_unbind (w : World) (openId content : string) (mu : WeChatMessage) :
  textMessage_from openId content mu ->
  UNBIND_REGEX (trim content) = true ->
  (Js.truthy (lookupBinding openId w) = true ->
   handleMessage config mu w
   = (Ok (xmlReply mu unbindOkMsg w), without_key (BINDING_PREFIX +++ openId) w)
   /\ getBinding openId (without_key (BINDING_PREFIX +++ openId) w)
      = (Ok JNull, without_key (BINDING_PREFIX +++ openId) w))
  /\ (Js.truthy (lookupBinding openId w) = false ->
      handleMessage config mu w = (Ok (xmlReply mu pleaseBindMsg w), w)
      /\ exists absent,
          getBinding openId w = (Ok absent, w) /\ Js.truthy absent = false).
Proof.
  intros Mu Hunbind. split; intros Hb.
  - split; [now apply (handle_unbind_bound config w openId content mu)|].
    now rewrite getBinding_run, lookupBinding_deleted.
  - split.
    + apply (handle_other_unbound config w openId content mu);
        [exact Mu | | exact Hb].
      destruct (BIND_REGEX content) as [p|] eqn:E; [|reflexivity].
      apply BIND_REGEX_not_unbind in E. congruence.
    + exists (lookupBinding openId w). now rewrite getBinding_run.
Qed.

End BindingClaims.

(** ** Computations that leave a key alone *)

Section Frames.
Context `{JsNumber}.

(** Two worlds that differ at most in the key [k]. *)
Definition same_off (k : string) (w w0 : World) : Prop :=
  without_key k w = without_key k w0.

Lemma same_off_refl (k : string) (w : World) : same_off k w w.
Proof. reflexivity. Qed.

Lemma same_off_without (k : string) (w : World) :
  same_off k w (without_key k w).
Proof.
  unfold same_off, without_key; simpl. now rewrite !delete_delete_eq.
Qed.

Lemma same_off_fields (k : string) (w w0 : World) :
  same_off k w w0 ->
  clock w = clock w0 /\ token_endpoint w = token_endpoint w0
  /\ send_endpoint w = send_endpoint w0 /\ trace w = trace w0.
Proof.
  intros E.
  repeat split;
    [ change (clock (without_key k w) = clock (without_key k w0))
    | change (token_endpoint (without_key k w)
              = token_endpoint (without_key k w0))
    | change (send_endpoint (without_key k w)
              = send_endpoint (without_key k w0))
    | change (trace (without_key k w) = trace (without_key k w0)) ];
    now rewrite E.
Qed.

Lemma same_off_lookup (k k' : string) (w w0 : World) :
  same_off k w w0 -> k' <> k -> lookup_key k' w = lookup_key k' w0.
Proof.
  intros E Hk.
  assert (R : delete k (redis w) !! k' = delete k (redis w0) !! k')
    by (change (redis (without_key k w) !! k' = redis (without_key k w0) !! k');
        now rewrite E).
  assert (X : delete k (expiry w) !! k' = delete k (expiry w0) !! k')
    by (change (expiry (without_key k w) !! k' = expiry (without_key k w0) !! k');
        now rewrite E).
  rewrite !lookup_delete_ne in R by congruence.
  rewrite !lookup_delete_ne in X by congruence.
  destruct (same_off_fields k w w0 E) as (C & _).
  unfold lookup_key, live. now rewrite R, X, C.
Qed.

Lemma without_with_comm (k k' v : string) (d : option Z) (w : World) :
  k' <> k ->
  without_key k (with_key k' v d w) = with_key k' v d (without_key k w).
Proof.
  intros Hk. unfold without_key, with_key; simpl. f_equal.
  - now rewrite delete_insert_ne by congruence.
  - destruct d; [now rewrite delete_insert_ne by congruence|].
    apply delete_delete.
Qed.

Lemma without_without_comm (k k' : string) (w : World) :
  without_key k (without_key k' w) = without_key k' (without_key k w).
Proof.
  unfold without_key; simpl. f_equal; apply delete_delete.
Qed.

Lemma same_off_with (k k' v : string) (d : option Z) (w w0 : World) :
  same_off k w w0 -> k' <> k ->
  same_off k (with_key k' v d w) (with_key k' v d w0).
Proof.
  unfold same_off. intros E Hk. now rewrite !without_with_comm, E.
Qed.

Lemma same_off_del (k k' : string) (w w0 : World) :
  same_off k w w0 -> same_off k (without_key k' w) (without_key k' w0).
Proof.
  unfold same_off. intros E.
  now rewrite (without_without_comm k k' w), (without_without_comm k k' w0), E.
Qed.

(** A world rebuilt from its parts with new scripts, clock and trace. *)
Lemma same_off_rebuild (k : string) (w w0 : World)
      (c : Z) (te : list (option TokenResponse))
      (se : list (option SendResponse)) (tr : list Effect) :
  same_off k w w0 ->
  same_off k
    {| redis := redis w; expiry := expiry w; clock := c;
       token_endpoint := te; send_endpoint := se; trace := tr |}
    {| redis := redis w0; expiry := expiry w0; clock := c;
       token_endpoint := te; send_endpoint := se; trace := tr |}.
Proof.
  intros E. unfold same_off, without_key in *; simpl.
  injection E as R X _ _ _ _. now rewrite R, X.
Qed.

(** [m] neither reads nor writes the key [k]. *)
Definition frames (k : string) {A} (m : M A) : Prop :=
  forall w w0,
    same_off k w w0 ->
    fst (m w) = fst (m w0) /\ same_off k (snd (m w)) (snd (m w0)).

Lemma frames_ret (k : string) {A} (a : A) : frames k (ret a).
Proof. intros w w0 E. now split. Qed.

Lemma frames_throw (k : string) {A} (e : Error) : frames k (@throw _ A e).
Proof. intros w w0 E. now split. Qed.

Lemma frames_out_of_fuel (k : string) {A} : frames k (@out_of_fuel _ A).
Proof. intros w w0 E. now split. Qed.

Lemma frames_bind (k : string) {A B} (m : M A) (f : A -> M B) :
  frames k m -> (forall a, frames k (f a)) -> frames k (bind m f).
Proof.
  intros Hm Hf w w0 E. unfold bind.
  destruct (Hm w w0 E) as [Er Ew].
  destruct (m w) as [r w'], (m w0) as [r0 w0']; simpl in *. subst r0.
  destruct r; [now apply Hf | now split | now split].
Qed.

Lemma frames_try_catch (k : string) {A} (m : M A) (h : Error -> M A) :
  frames k m -> (forall e, frames k (h e)) -> frames k (try_catch m h).
Proof.
  intros Hm Hh w w0 E. unfold try_catch.
  destruct (Hm w w0 E) as [Er Ew].
  destruct (m w) as [r w'], (m w0) as [r0 w0']; simpl in *. subst r0.
  destruct r; [now split | now apply Hh | now split].
Qed.

Lemma frames_try_finally (k : string) {A} (m : M A) (f : M unit) :
  frames k m -> frames k f -> frames k (try_finally m f).
Proof.
  intros Hm Hf w w0 E. unfold try_finally.
  destruct (Hm w w0 E) as [Er Ew].
  destruct (m w) as [r w'], (m w0) as [r0 w0']; simpl in *. subst r0.
  destruct r; [| |now split];
    destruct (Hf w' w0' Ew) as [Fr Fw];
    destruct (f w') as [r1 w1], (f w0') as [r2 w2]; simpl in *; subst r2;
    destruct r1; now split.
Qed.

Lemma frames_if (k : string) {A} (b : bool) (m1 m2 : M A) :
  frames k m1 -> frames k m2 -> frames k (if b then m1 else m2).
Proof. now destruct b. Qed.

Lemma frames_redis_get (k k' : string) : k' <> k -> frames k (redis_get k').
Proof.
  intros Hk w w0 E. unfold redis_get; simpl.
  now rewrite (same_off_lookup k k' w w0 E Hk).
Qed.

Lemma frames_redis_set_ex (k k' v : string) (s : Z) :
  k' <> k -> frames k (redis_set_ex k' v s).
Proof.
  intros Hk w w0 E. unfold redis_set_ex.
  destruct (same_off_fields k w w0 E) as (C & _).
  destruct (s <=? 0); simpl; [now split|]. split; [reflexivity|].
  rewrite C. now apply same_off_with.
Qed.

Lemma frames_redis_set_ex_nx (k k' v : string) (s : Z) :
  k' <> k -> frames k (redis_set_ex_nx k' v s).
Proof.
  intros Hk w w0 E. unfold redis_set_ex_nx.
  destruct (same_off_fields k w w0 E) as (C & _).
  rewrite (same_off_lookup k k' w w0 E Hk).
  destruct (lookup_key k' w0); simpl; [now split|]. split; [reflexivity|].
  rewrite C. now apply same_off_with.
Qed.

Lemma frames_redis_del (k k' : string) : k' <> k -> frames k (redis_del k').
Proof.
  intros Hk w w0 E. unfold redis_del; simpl.
  rewrite (same_off_lookup k k' w w0 E Hk). split; [reflexivity|].
  now apply same_off_del.
Qed.

Lemma frames_now_seconds (k : string) : frames k now_seconds.
Proof.
  intros w w0 E. unfold now_seconds; simpl.
  destruct (same_off_fields k w w0 E) as (C & _). now rewrite C.
Qed.

Lemma frames_sleep (k : string) (ms : Z) : frames k (sleep ms).
Proof.
  intros w w0 E. unfold sleep; simpl.
  destruct (same_off_fields k w w0 E) as (C & Te & Se & Tr).
  rewrite C, Te, Se, Tr. split; [reflexivity|]. now apply same_off_rebuild.
Qed.

Lemma frames_axios_get_token (k appid secret : string) :
  frames k (axios_get_token appid secret).
Proof.
  intros w w0 E. unfold axios_get_token, emit; simpl.
  destruct (same_off_fields k w w0 E) as (C & Te & Se & Tr).
  rewrite C, Te, Se, Tr.
  destruct (token_endpoint w0) as [|[r|] rest]; simpl;
    (split; [reflexivity|]); now apply same_off_rebuild.
Qed.

Lemma frames_axios_post_send (k token : string)
      (message : CustomerServiceMessage) :
  frames k (axios_post_send token message).
Proof.
  intros w w0 E. unfold axios_post_send, emit; simpl.
  destruct (same_off_fields k w w0 E) as (C & Te & Se & Tr).
  rewrite C, Te, Se, Tr.
  destruct (send_endpoint w0) as [|[r|] rest]; simpl;
    (split; [reflexivity|]); now apply same_off_rebuild.
Qed.

End Frames.

Create HintDb frames discriminated.
#[export] Hint Resolve frames_ret frames_throw frames_out_of_fuel
  frames_now_seconds frames_sleep frames_axios_get_token
  frames_axios_post_send : frames.

Ltac frame_step :=
  first
    [ assumption
    | apply frames_bind; [|intros ?]
    | apply frames_try_catch; [|intros ?]
    | apply frames_try_finally
    | apply frames_redis_get; congruence
    | apply frames_redis_set_ex; congruence
    | apply frames_redis_set_ex_nx; congruence
    | apply frames_redis_del; congruence
    | solve [auto with frames]
    | match goal with
      | |- frames _ (if ?b then _ else _) => destruct b
      | |- frames _ (match ?x with _ => _ end) => destruct x
      end ].

(** ** The token manager and the sender leave the bindings alone *)

Section ServiceFrames.
Import WechatToken WechatMessage RedisService.
Context `{JsNumber} `{JsonCodec} (config : Config).

Lemma binding_key_not_token (openId : string) :
  TOKEN_KEY <> BINDING_PREFIX +++ openId.
Proof. unfold TOKEN_KEY, BINDING_PREFIX. simpl. intros E. discriminate. Qed.

Lemma binding_key_not_lock (openId : string) :
  TOKEN_LOCK_KEY <> BINDING_PREFIX +++ openId.
Proof. unfold TOKEN_LOCK_KEY, BINDING_PREFIX. simpl. intros E. discriminate. Qed.

Variable k : string.
Hypothesis k_token : TOKEN_KEY <> k.
Hypothesis k_lock : TOKEN_LOCK_KEY <> k.

Lemma frames_refreshAccessToken_with (g : M string) :
  frames k g -> frames k (refreshAccessToken_with config g).
Proof.
  intros Hg. unfold refreshAccessToken_with. repeat frame_step.
Qed.

Lemma frames_getAccessToken (fuel : nat) : frames k (getAccessToken config fuel).
Proof.
  induction fuel as [|fuel IH]; simpl; [auto with frames|].
  pose proof (frames_refreshAccessToken_with _ IH).
  repeat frame_step.
Qed.

Lemma frames_forceRefreshToken (fuel : nat) :
  frames k (forceRefreshToken config fuel).
Proof.
  unfold forceRefreshToken, refreshAccessToken.
  pose proof (frames_refreshAccessToken_with _ (frames_getAccessToken fuel)).
  repeat frame_step.
Qed.

Lemma frames_sendCustomerServiceMessage_with
      (fuel : nat) (message : CustomerServiceMessage) (retry : bool)
      (again : M bool) :
  frames k again ->
  frames k (sendCustomerServiceMessage_with config fuel message retry again).
Proof.
  intros Ha. unfold sendCustomerServiceMessage_with.
  pose proof (frames_getAccessToken fuel).
  pose proof (frames_forceRefreshToken fuel).
  repeat frame_step.
Qed.

Lemma frames_sendCustomerServiceMessage
      (fuel : nat) (message : CustomerServiceMessage) (retry : bool) :
  frames k (sendCustomerServiceMessage config fuel message retry).
Proof.
  unfold sendCustomerServiceMessage.
  apply frames_sendCustomerServiceMessage_with.
  apply frames_sendCustomerServiceMessage_with. auto with frames.
Qed.

Lemma frames_send_chunks (fuel : nat) (openId : string) (total i : nat)
      (chunks : list string) (success : bool) :
  frames k (send_chunks config fuel openId total i chunks success).
Proof.
  revert i success; induction chunks as [|c rest IH]; intros i success; simpl;
    [auto with frames|].
  apply frames_bind; [apply frames_sendCustomerServiceMessage|].
  intros result. apply frames_bind; [|intros ?; apply IH].
  destruct (Z.of_nat i <? Z.of_nat total - 1); auto with frames.
Qed.

Lemma frames_sendTextMessage (fuel : nat) (openId content : string) :
  frames k (sendTextMessage config fuel openId content).
Proof.
  unfold sendTextMessage.
  destruct (len content <=? _); [apply frames_sendCustomerServiceMessage|].
  destruct (Chunking.splitChunks content);
    [apply frames_send_chunks | auto with frames].
Qed.

End ServiceFrames.

(** ** Termination: the lock expires *)

Section Termination.
Import WechatToken WechatMessage.
Context `{JsNumber} `{JsonCodec} (config : Config).

(** The refresh lock is free, or held with a deadline at most [n]
    seconds ahead. *)
Definition lock_free_within (n : nat) (w : World) : Prop :=
  match redis w !! TOKEN_LOCK_KEY with
  | None => True
  | Some _ =>
      match expiry w !! TOKEN_LOCK_KEY with
      | Some deadline => deadline <= clock w + 1000 * Z.of_nat n
      | None => False
      end
  end.

Lemma lock_free_within_mono (n n' : nat) (w : World) :
  (n <= n')%nat -> lock_free_within n w -> lock_free_within n' w.
Proof.
  unfold lock_free_within. intros Hn.
  destruct (redis w !! TOKEN_LOCK_KEY); [|trivial].
  destruct (expiry w !! TOKEN_LOCK_KEY); [lia | trivial].
Qed.

Lemma lock_free_unlocked (n : nat) (w : World) :
  redis w !! TOKEN_LOCK_KEY = None -> lock_free_within n w.
Proof. unfold lock_free_within. now intros ->. Qed.

Lemma lock_free_lookup (w : World) :
  lookup_key TOKEN_LOCK_KEY w = None <-> lock_free_within 0 w.
Proof.
  unfold lookup_key, live, lock_free_within.
  destruct (redis w !! TOKEN_LOCK_KEY) as [v|],
           (expiry w !! TOKEN_LOCK_KEY) as [d|]; simpl;
    try (destruct (clock w <? d) eqn:E; zbool);
    split; intros; try discriminate; try lia; try tauto.
Qed.

(** With enough fuel for [n] seconds of waiting, [m] does not run out
    of fuel and leaves the lock as free as it found it. *)
Definition settles (n : nat) {A} (m : M A) : Prop :=
  forall w,
    lock_free_within n w ->
    fst (m w) <> OutOfFuel /\ lock_free_within n (snd (m w)).

(** [m] uses no fuel and does not touch the lock or the clock. *)
Definition plain {A} (m : M A) : Prop :=
  forall w,
    fst (m w) <> OutOfFuel
    /\ redis (snd (m w)) !! TOKEN_LOCK_KEY = redis w !! TOKEN_LOCK_KEY
    /\ expiry (snd (m w)) !! TOKEN_LOCK_KEY = expiry w !! TOKEN_LOCK_KEY
    /\ clock (snd (m w)) = clock w.

Lemma plain_settles (n : nat) {A} (m : M A) : plain m -> settles n m.
Proof.
  intros Hm w Hw. destruct (Hm w) as (Hr & R & X & C). split; [exact Hr|].
  unfold lock_free_within in *. now rewrite R, X, C.
Qed.

Lemma plain_ret {A} (a : A) : plain (ret a).
Proof. intros w. now repeat split. Qed.

Lemma plain_throw {A} (e : Error) : plain (@throw _ A e).
Proof. intros w. now repeat split. Qed.

Lemma plain_bind {A B} (m : M A) (f : A -> M B) :
  plain m -> (forall a, plain (f a)) -> plain (bind m f).
Proof.
  intros Hm Hf w. unfold bind. destruct (Hm w) as (Hr & R & X & C).
  destruct (m w) as [[a|e|] w']; simpl in *; [|now repeat split|tauto].
  destruct (Hf a w') as (Hr' & R' & X' & C').
  repeat split; congruence.
Qed.

Lemma plain_redis_get (k : string) : plain (redis_get k).
Proof. intros w. now repeat split. Qed.

Lemma plain_now_seconds : plain now_seconds.
Proof. intros w. now repeat split. Qed.

Lemma plain_redis_set_ex (k v : string) (s : Z) :
  k <> TOKEN_LOCK_KEY -> plain (redis_set_ex k v s).
Proof.
  intros Hk w. unfold redis_set_ex. destruct (s <=? 0); simpl.
  - now repeat split.
  - rewrite !lookup_insert_ne by exact Hk. now repeat split.
Qed.

Lemma plain_redis_del (k : string) :
  k <> TOKEN_LOCK_KEY -> plain (redis_del k).
Proof.
  intros Hk w. unfold redis_del; simpl.
  rewrite !lookup_delete_ne by exact Hk. now repeat split.
Qed.

Lemma plain_axios_get_token (appid secret : string) :
  plain (axios_get_token appid secret).
Proof.
  intros w. unfold axios_get_token.
  destruct (token_endpoint w) as [|[r|] rest]; simpl; now repeat split.
Qed.

Lemma plain_axios_post_send (token : string) (message : CustomerServiceMessage) :
  plain (axios_post_send token message).
Proof.
  intros w. unfold axios_post_send.
  destruct (send_endpoint w) as [|[r|] rest]; simpl; now repeat split.
Qed.

Lemma settles_ret (n : nat) {A} (a : A) : settles n (ret a).
Proof. apply plain_settles, plain_ret. Qed.

Lemma settles_bind (n : nat) {A B} (m : M A) (f : A -> M B) :
  settles n m -> (forall a, settles n (f a)) -> settles n (bind m f).
Proof.
  intros Hm Hf w Hw. unfold bind. destruct (Hm w Hw) as [Hr Hl].
  destruct (m w) as [[a|e|] w']; simpl in *; [now apply Hf | now split | tauto].
Qed.

Lemma settles_try_catch (n : nat) {A} (m : M A) (h : Error -> M A) :
  settles n m -> (forall e, settles n (h e)) -> settles n (try_catch m h).
Proof.
  intros Hm Hh w Hw. unfold try_catch. destruct (Hm w Hw) as [Hr Hl].
  destruct (m w) as [[a|e|] w']; simpl in *; [now split | now apply Hh | tauto].
Qed.

Lemma settles_sleep (n : nat) (ms : Z) : 0 <= ms -> settles n (sleep ms).
Proof.
  intros Hms w Hw. split; [discriminate|].
  unfold lock_free_within in *; simpl.
  destruct (redis w !! TOKEN_LOCK_KEY); [|trivial].
  destruct (expiry w !! TOKEN_LOCK_KEY); [lia | trivial].
Qed.

(** The body of the refresh, between taking the lock and releasing
    it. *)
Definition fetch_and_store : M string :=
  let* response :=
    axios_get_token (wechat_appId config) (wechat_appSecret config) in
  match token_errcode response with
  | Some (Zpos _ as errcode) | Some (Zneg _ as errcode) =>
      throw (WeChatApiError errcode (token_errmsg response))
  | _ =>
      let* now := now_seconds in
      let tokenData :=
        {| accessToken := access_token response;
           expiresAt := now + expires_in response |} in
      let* _ :=
        redis_set_ex TOKEN_KEY (JSON_stringify (TokenCache_json tokenData))
                     (expires_in response) in
      ret (access_token response)
  end.

Definition unlock : M unit := let* _ := redis_del TOKEN_LOCK_KEY in ret tt.

Lemma refreshAccessToken_with_unfold (g : M string) (w : World) :
  refreshAccessToken_with config g w
  = match lookup_key TOKEN_LOCK_KEY w with
    | Some _ => g (snd (sleep 1000 w))
    | None =>
        try_finally fetch_and_store unlock
          (with_key TOKEN_LOCK_KEY "1" (Some (clock w + 30 * 1000)) w)
    end.
Proof.
  unfold refreshAccessToken_with, bind at 1, redis_set_ex_nx.
  destruct (lookup_key TOKEN_LOCK_KEY w); reflexivity.
Qed.

Lemma token_key_not_lock : TOKEN_KEY <> TOKEN_LOCK_KEY.
Proof. discriminate. Qed.

Lemma plain_fetch_and_store : plain fetch_and_store.
Proof.
  unfold fetch_and_store.
  apply plain_bind; [apply plain_axios_get_token|]. intros r.
  assert (P : plain
                (let* now := now_seconds in
                 let* _ :=
                   redis_set_ex TOKEN_KEY
                     (JSON_stringify
                        (TokenCache_json
                           {| accessToken := access_token r;
                              expiresAt := now + expires_in r |}))
                     (expires_in r) in
                 ret (access_token r))).
  { apply plain_bind; [apply plain_now_seconds|]. intros now.
    apply plain_bind; [apply plain_redis_set_ex, token_key_not_lock|].
    intros _. apply plain_ret. }
  destruct (token_errcode r) as [[| |]|]; try exact P; apply plain_throw.
Qed.

(** Whatever the body does, the lock is released. *)
Lemma try_finally_unlock {A} (m : M A) (w : World) :
  plain m ->
  fst (try_finally m unlock w) <> OutOfFuel
  /\ redis (snd (try_finally m unlock w)) !! TOKEN_LOCK_KEY = None.
Proof.
  intros Hm. unfold try_finally. destruct (Hm w) as (Hr & _).
  destruct (m w) as [[a|e|] w']; simpl in *; [| |tauto];
    (split; [discriminate | apply lookup_delete_eq]).
Qed.

Lemma settles_refreshAccessToken_with (n : nat) (g : M string) :
  (forall n', (S n' <= n)%nat -> settles n' g) ->
  settles n (refreshAccessToken_with config g).
Proof.
  intros Hg w Hw. rewrite refreshAccessToken_with_unfold.
  destruct (lookup_key TOKEN_LOCK_KEY w) as [v|] eqn:L.
  - destruct n as [|n'].
    { apply lock_free_lookup in Hw. congruence. }
    assert (Hs : lock_free_within n' (snd (sleep 1000 w))).
    { unfold lookup_key, live in L. unfold lock_free_within in *; simpl.
      destruct (redis w !! TOKEN_LOCK_KEY);
        [|now destruct (expiry w !! TOKEN_LOCK_KEY) as [d|];
            [destruct (clock w <? d)|]].
      destruct (expiry w !! TOKEN_LOCK_KEY) as [d|]; [|tauto].
      destruct (clock w <? d) eqn:E; [|discriminate]. zbool. lia. }
    destruct (Hg n' (le_n _) _ Hs) as [Hr Hl]. split; [exact Hr|].
    now apply (lock_free_within_mono n' (S n')); [lia|].
  - destruct (try_finally_unlock fetch_and_store
                (with_key TOKEN_LOCK_KEY "1" (Some (clock w + 30 * 1000)) w)
                plain_fetch_and_store) as [Hr Hl].
    split; [exact Hr | now apply lock_free_unlocked].
Qed.

Lemma settles_getAccessToken (fuel n : nat) :
  (n < fuel)%nat -> settles n (getAccessToken config fuel).
Proof.
  revert n; induction fuel as [|fuel IH]; intros n Hn; [lia|].
  assert (R : settles n (refreshAccessToken_with config
                           (getAccessToken config fuel))).
  { apply settles_refreshAccessToken_with. intros n' Hn'. apply IH. lia. }
  simpl. apply settles_bind; [apply plain_settles, plain_redis_get|].
  intros cached. destruct (JsString.truthy cached); [|exact R].
  destruct (JSON_parse _) as [v|]; [|apply plain_settles, plain_throw].
  apply settles_bind; [apply plain_settles, plain_now_seconds|]. intros now.
  destruct (as_TokenCache v) as [td|]; [|exact R].
  destruct (_ >? _); [apply settles_ret | exact R].
Qed.

Lemma settles_forceRefreshToken (fuel n : nat) :
  (n <= fuel)%nat -> settles n (forceRefreshToken config fuel).
Proof.
  intros Hn. unfold forceRefreshToken, refreshAccessToken.
  apply settles_bind;
    [apply plain_settles, plain_redis_del, token_key_not_lock|].
  intros _. apply settles_refreshAccessToken_with.
  intros n' Hn'. apply settles_getAccessToken. lia.
Qed.

Lemma settles_sendCustomerServiceMessage_with
      (fuel n : nat) (message : CustomerServiceMessage) (retry : bool)
      (again : M bool) :
  (n < fuel)%nat -> settles n again ->
  settles n (sendCustomerServiceMessage_with config fuel message retry again).
Proof.
  intros Hn Ha. unfold sendCustomerServiceMessage_with.
  apply settles_try_catch; [|intros e; apply settles_ret].
  apply settles_bind; [now apply settles_getAccessToken|]. intros token.
  apply settles_bind; [apply plain_settles, plain_axios_post_send|].
  intros response.
  destruct (errcode_is _ 0); [apply settles_ret|].
  destruct (_ && _); [|apply settles_ret].
  apply settles_bind; [apply settles_forceRefreshToken; lia|].
  intros _. exact Ha.
Qed.

(** The sender catches every exception. *)
Lemma sendCustomerServiceMessage_with_no_throw
      (fuel : nat) (message : CustomerServiceMessage) (retry : bool)
      (again : M bool) (w : World) (e : Error) :
  fst (sendCustomerServiceMessage_with config fuel message retry again w)
  <> Throw e.
Proof.
  unfold sendCustomerServiceMessage_with, try_catch.
  destruct (bind _ _ w) as [[b|e'|] w']; simpl; discriminate.
Qed.

(** With enough fuel, [m] returns a value. *)
Definition returns (n : nat) {A} (m : M A) : Prop :=
  forall w,
    lock_free_within n w ->
    exists a w', m w = (Ok a, w') /\ lock_free_within n w'.

Lemma returns_ret (n : nat) {A} (a : A) : returns n (ret a).
Proof. intros w Hw. now exists a, w. Qed.

Lemma returns_bind (n : nat) {A B} (m : M A) (f : A -> M B) :
  returns n m -> (forall a, returns n (f a)) -> returns n (bind m f).
Proof.
  intros Hm Hf w Hw. unfold bind.
  destruct (Hm w Hw) as (a & w' & -> & Hw'). now apply Hf.
Qed.

Lemma returns_sendCustomerServiceMessage
      (fuel n : nat) (message : CustomerServiceMessage) (retry : bool) :
  (n < fuel)%nat ->
  returns n (sendCustomerServiceMessage config fuel message retry).
Proof.
  intros Hn w Hw. unfold sendCustomerServiceMessage.
  pose proof (settles_sendCustomerServiceMessage_with
                fuel n message retry
                (sendCustomerServiceMessage_with config fuel message false
                                                 (ret false))
                Hn
                (settles_sendCustomerServiceMessage_with
                   fuel n message false (ret false) Hn (settles_ret n false))
                w Hw) as [Hr Hl].
  pose proof (sendCustomerServiceMessage_with_no_throw
                fuel message retry
                (sendCustomerServiceMessage_with config fuel message false
                                                 (ret false)) w) as Ht.
  destruct (sendCustomerServiceMessage_with _ _ _ _ _ w) as [[b|e|] w'];
    simpl in *; [now exists b, w' | now destruct (Ht e) | tauto].
Qed.

Lemma returns_send_chunks (fuel n : nat) (openId : string) (total i : nat)
      (chunks : list string) (success : bool) :
  (n < fuel)%nat ->
  returns n (send_chunks config fuel openId total i chunks success).
Proof.
  intros Hn. revert i success.
  induction chunks as [|c rest IH]; intros i success; simpl;
    [apply returns_ret|].
  apply returns_bind; [now apply returns_sendCustomerServiceMessage|].
  intros result. apply returns_bind; [|intros ?; apply IH].
  destruct (_ <? _); [|apply returns_ret].
  intros w Hw. exists tt, (snd (sleep 100 w)). split; [reflexivity|].
  now apply (settles_sleep n 100).
Qed.

Lemma returns_sendTextMessage (fuel n : nat) (openId content : string) :
  (n < fuel)%nat -> returns n (sendTextMessage config fuel openId content).
Proof.
  intros Hn. unfold sendTextMessage.
  destruct (len content <=? Z.of_nat Chunking.MAX_LENGTH) eqn:E;
    [now apply returns_sendCustomerServiceMessage|].
  destruct (split_loop_total (S (String.length content)) content)
    as [chunks Hc]; [lia|].
  unfold Chunking.splitChunks. rewrite Hc.
  now apply returns_send_chunks.
Qed.

End Termination.

(** ** A corrupted store entry, and the callback *)

Section CorruptEntry.
Import RedisService Forwarder WechatRoutes CallbackRoutes WechatMessage.
Context `{JsNumber} `{Crypto} `{JsonCodec} `{UrlParser} {xml : XmlParser}
        (config : Config).

Lemma same_off_written (k v : string) (w w0 : World) :
  same_off k w w0 ->
  same_off k (with_key k v None w) (with_key k v None w0).
Proof.
  unfold same_off, without_key, with_key; simpl. intros E.
  injection E as R X C Te Se Tr.
  rewrite !delete_insert_eq, !delete_delete_eq. now rewrite R, X, C, Te, Se, Tr.
Qed.

(** Message handling does not tell a subject whose entry yields no
    Binding from any other such subject. *)
Lemma handleMessage_unbound_same (message : WeChatMessage) (w w0 : World) :
  same_off (BINDING_PREFIX +++ FromUserName message) w w0 ->
  Js.truthy (lookupBinding (FromUserName message) w) = false ->
  Js.truthy (lookupBinding (FromUserName message) w0) = false ->
  fst (handleMessage config message w) = fst (handleMessage config message w0)
  /\ same_off (BINDING_PREFIX +++ FromUserName message)
              (snd (handleMessage config message w))
              (snd (handleMessage config message w0))
  /\ (lookupBinding (FromUserName message) w
      = lookupBinding (FromUserName message) w0 ->
      lookupBinding (FromUserName message) (snd (handleMessage config message w))
      = lookupBinding (FromUserName message)
                      (snd (handleMessage config message w0))).
Proof.
  intros E U U0. destruct (same_off_fields _ _ _ E) as (C & _).
  unfold handleMessage.
  destruct (String.eqb (MsgType message) "event").
  { destruct (Tag.equals (Event message) "subscribe");
      unfold bind; rewrite ?buildTextReply_run; cbn; rewrite ?C; auto. }
  rewrite !bind_getBinding, U, U0. cbn [negb].
  destruct (if String.eqb (MsgType message) "text"
                  && Tag.truthy (Content message)
            then on_string BIND_REGEX (Content message) else Some None)
    as [[[endpoint token]|]|].
  - destruct (negb (URL_ok endpoint)).
    + unfold bind; rewrite ?buildTextReply_run; cbn; rewrite ?C; auto.
    + unfold bind. rewrite !setBinding_run, !buildTextReply_run. cbn.
      rewrite C. repeat split.
      * now apply same_off_written.
      * intros _. unfold lookupBinding. now rewrite !lookup_key_with_key.
  - unfold bind; rewrite ?buildTextReply_run; cbn; rewrite ?C; auto.
  - unfold ret; cbn; auto.
Qed.

(** The callback handler never reads a Binding for more than a log
    line: it leaves binding keys alone. *)
Lemma post_callback_frames (fuel : nat) (openId : string)
      (payload : ClawdbotCallbackPayload) (w w0 : World) :
  same_off (BINDING_PREFIX +++ openId) w w0 ->
  fst (post_callback config fuel openId payload w)
  = fst (post_callback config fuel openId payload w0)
  /\ same_off (BINDING_PREFIX +++ openId)
              (snd (post_callback config fuel openId payload w))
              (snd (post_callback config fuel openId payload w0)).
Proof.
  intros E. unfold post_callback. rewrite !bind_getBinding.
  apply (frames_bind (BINDING_PREFIX +++ openId)); [|intros []; auto with frames|exact E].
  apply frames_sendTextMessage;
    [apply binding_key_not_token | apply binding_key_not_lock].
Qed.

(** C10.  When the value stored for a subject is not parsable JSON,
    [getBinding] returns [null] instead of throwing; and both for an
    inbound message of that subject and for a callback addressed to
    it, the response and every outbound call are those obtained with
    the entry deleted, the two resulting worlds differ at most in
    that entry, and after a message a lookup gives the same
    result in both. *)
Theorem C10_corrupt_entry (w : World) (openId data : string) :
  lookup_key (BINDING_PREFIX +++ openId) w = Some data ->
  JSON_parse data = None ->
  let w0 := without_key (BINDING_PREFIX +++ openId) w in
  getBinding openId w = (Ok JNull, w)
  /\ getBinding openId w0 = (Ok JNull, w0)
  /\ (forall message,
        FromUserName message = openId ->
        fst (handleMessage config message w)
        = fst (handleMessage config message w0)
        /\ same_off (BINDING_PREFIX +++ openId)
                    (snd (handleMessage config message w))
                    (snd (handleMessage config message w0))
        /\ fst (getBinding openId (snd (handleMessage config message w)))
           = fst (getBinding openId (snd (handleMessage config message w0))))
  /\ (forall fuel payload,
        fst (post_callback config fuel openId payload w)
        = fst (post_callback config fuel openId payload w0)
        /\ same_off (BINDING_PREFIX +++ openId)
                    (snd (post_callback config fuel openId payload w))
                    (snd (post_callback config fuel openId payload w0))).
Proof.
  intros L P w0.
  assert (B : lookupBinding openId w = JNull).
  { unfold lookupBinding. rewrite L. destruct data; [reflexivity|]. now rewrite P. }
  assert (B0 : lookupBinding openId w0 = JNull)
    by apply lookupBinding_deleted.
  rewrite !getBinding_run, B, B0.
  split; [reflexivity|]. split; [reflexivity|]. split.
  - intros message <-.
    destruct (handleMessage_unbound_same message w w0) as (R & S & Lk).
    + apply same_off_without.
    + now rewrite B.
    + now rewrite B0.
    + rewrite !getBinding_run. cbn [fst]. split; [exact R|].
      split; [exact S|]. f_equal. apply Lk. now rewrite B, B0.
  - intros fuel payload. apply post_callback_frames, same_off_without.
Qed.

End CorruptEntry.

Section CallbackClaim.
Import RedisService CallbackRoutes WechatMessage.
Context `{JsNumber} `{Crypto} `{JsonCodec} `{UrlParser} {xml : XmlParser}
        (config : Config).

(** The result or error text of a payload, before any suffix. *)
Definition outcomeText (payload : ClawdbotCallbackPayload) : string :=
  if success payload then
    match result payload with
    | Some (String c r) => String c r
    | _ => doneNoContentMsg
    end
  else
    failedPrefix +++ match error payload with
                     | Some (String c e) => String c e
                     | _ => unknownErrorMsg
                     end.

(** The payload carries no thinking time, or a falsy one (zero). *)
Definition no_thinking_time (payload : ClawdbotCallbackPayload) : Prop :=
  metadata payload = None
  \/ exists m,
      metadata payload = Some m
      /\ (thinking_time_ms m = None
          \/ exists t, thinking_time_ms m = Some t /\ Number_truthy t = false).

(** C7 (amended).  For every callback body the text handed to the
    sender is the result text on success (a fixed placeholder when the
    result is missing or empty) or the error prefix followed by the
    error text (a fixed placeholder when missing or empty) on failure;
    an elapsed-time suffix is appended when the thinking time is
    present and non-zero, and only then.  The response is 200
    [{ok:true}] when the sender reports success and 500
    [{ok:false,error}] when it reports failure; with fuel for the
    seconds the refresh lock may still be held, the sender does report
    one of the two.  Response and calls do not depend on the
    subject's Binding: they are the same with the Binding removed. *)
Theorem C7_callback (fuel n : nat) (openId : string)
        (payload : ClawdbotCallbackPayload) (w : World) :
  (forall m t,
      metadata payload = Some m -> thinking_time_ms m = Some t ->
      Number_truthy t = true ->
      messageContent payload
      = outcomeText payload +++ Forwarder.NEWLINE +++ Forwarder.NEWLINE
          +++ "⏱️ 思考用时: " +++ Number_seconds_toFixed1 t +++ "s")
  /\ (no_thinking_time payload -> messageContent payload = outcomeText payload)
  /\ (forall w',
        sendTextMessage config fuel openId (messageContent payload) w
        = (Ok true, w') ->
        post_callback config fuel openId payload w = (Ok okResponse, w')
        /\ status okResponse = 200)
  /\ (forall w',
        sendTextMessage config fuel openId (messageContent payload) w
        = (Ok false, w') ->
        post_callback config fuel openId payload w = (Ok failedResponse, w')
        /\ status failedResponse = 500)
  /\ (lock_free_within n w -> (n < fuel)%nat ->
      exists sent w',
        sendTextMessage config fuel openId (messageContent payload) w
        = (Ok sent, w'))
  /\ (let w0 := without_key (BINDING_PREFIX +++ openId) w in
      fst (post_callback config fuel openId payload w)
      = fst (post_callback config fuel openId payload w0)
      /\ same_off (BINDING_PREFIX +++ openId)
                  (snd (post_callback config fuel openId payload w))
                  (snd (post_callback config fuel openId payload w0))).
Proof.
  assert (Base : (if success payload
                  then or_else (result payload) doneNoContentMsg
                  else failedPrefix
                         +++ or_else (error payload) unknownErrorMsg)
                 = outcomeText payload).
  { unfold outcomeText.
    destruct (success payload);
      [now destruct (result payload) as [[|c r]|]
      | now destruct (error payload) as [[|c e]|]]. }
  repeat match goal with |- _ /\ _ => split end.
  - intros m t Hm Ht Htruthy. unfold messageContent, thinkingTime.
    rewrite Hm, Ht, Htruthy, Base. reflexivity.
  - intros Hno. unfold messageContent, thinkingTime. rewrite Base.
    destruct Hno as [-> | (m & -> & [-> | (t & -> & ->)])]; reflexivity.
  - intros w' Hs. split; [|reflexivity]. unfold post_callback.
    rewrite bind_getBinding. unfold bind, ret. now rewrite Hs.
  - intros w' Hs. split; [|reflexivity]. unfold post_callback.
    rewrite bind_getBinding. unfold bind, ret. now rewrite Hs.
  - intros Hw Hn.
    destruct (returns_sendTextMessage config fuel n openId
                (messageContent payload) Hn w Hw) as (sent & w' & E & _).
    now exists sent, w'.
  - apply post_callback_frames, same_off_without.
Qed.

End CallbackClaim.

(** ** The token cache *)

Section TokenFacts.
Import WechatToken WechatMessage.
Context `{JsNumber} `{JsonCodec} (config : Config).

(** The cache entry [getAccessToken] reads, when it is one. *)
Definition cached_token (w : World) : option TokenCache :=
  match lookup_key TOKEN_KEY w with
  | Some (String c s) =>
      match JSON_parse (String c s) with
      | Some v => as_TokenCache v
      | None => None
      end
  | _ => None
  end.

(** [now < expiresAt - margin] *)
Definition still_fresh (w : World) (tokenData : TokenCache) : Prop :=
  clock w / 1000 < expiresAt tokenData - TOKEN_REFRESH_THRESHOLD.

Definition fetch_event : Effect :=
  EvTokenFetch (wechat_appId config) (wechat_appSecret config).


Lemma getAccessToken_unfold (fuel : nat) (w : World) :
  getAccessToken config (S fuel) w
  = match lookup_key TOKEN_KEY w with
    | Some (String c s) =>
        match JSON_parse (String c s) with
        | None => (Throw SyntaxError, w)
        | Some v =>
            match as_TokenCache v with
            | Some tokenData =>
                if expiresAt tokenData - TOKEN_REFRESH_THRESHOLD
                   >? clock w / 1000
                then (Ok (accessToken tokenData), w)
                else refreshAccessToken config fuel w
            | None => refreshAccessToken config fuel w
            end
        end
    | _ => refreshAccessToken config fuel w
    end.
Proof.
  cbn [getAccessToken]. unfold bind at 1, redis_get, refreshAccessToken.
  destruct (lookup_key TOKEN_KEY w) as [[|c s]|]; try reflexivity.
  cbn [JsString.truthy or_else].
  destruct (JSON_parse (String c s)) as [v|]; [|reflexivity].
  unfold bind at 1, now_seconds.
  destruct (as_TokenCache v) as [td|]; [|reflexivity].
  now destruct (_ >? _).
Qed.

(** A fresh entry is returned as it is: no call, no change. *)
Lemma getAccessToken_fresh (fuel : nat) (w : World) (tokenData : TokenCache) :
  cached_token w = Some tokenData ->
  still_fresh w tokenData ->
  getAccessToken config (S fuel) w = (Ok (accessToken tokenData), w).
Proof.
  unfold cached_token, still_fresh. intros Hc Hf. rewrite getAccessToken_unfold.
  destruct (lookup_key TOKEN_KEY w) as [[|c s]|]; try discriminate.
  destruct (JSON_parse (String c s)) as [v|]; [|discriminate].
  rewrite Hc.
  replace (_ >? _) with true by (symmetry; apply Z.gtb_gt; lia).
  reflexivity.
Qed.








End TokenFacts.

(** ** The sender: at most one retry *)

Section SenderFacts.
Import WechatToken WechatMessage.
Context `{JsNumber} `{JsonCodec} (config : Config).

Definition is_send (e : Effect) : bool :=
  match e with
  | EvSend _ _ => true
  | _ => false
  end.

(** The calls to the send API made so far. *)
Definition sends (w : World) : list Effect := List.filter is_send (trace w).

(** [m] makes no call to the send API. *)
Definition silent {A} (m : M A) : Prop :=
  forall w, sends (snd (m w)) = sends w.

Lemma silent_ret {A} (a : A) : silent (ret a).
Proof. now intros w. Qed.

Lemma silent_throw {A} (e : Error) : silent (@throw _ A e).
Proof. now intros w. Qed.

Lemma silent_out_of_fuel {A} : silent (@out_of_fuel _ A).
Proof. now intros w. Qed.

Lemma silent_bind {A B} (m : M A) (f : A -> M B) :
  silent m -> (forall a, silent (f a)) -> silent (bind m f).
Proof.
  intros Hm Hf w. unfold bind. specialize (Hm w).
  destruct (m w) as [[a|e|] w']; simpl in *; [|assumption|assumption].
  now rewrite Hf.
Qed.

Lemma silent_try_finally {A} (m : M A) (f : M unit) :
  silent m -> silent f -> silent (try_finally m f).
Proof.
  intros Hm Hf w. unfold try_finally. specialize (Hm w).
  destruct (m w) as [[a|e|] w']; simpl in *; [| |assumption];
    specialize (Hf w'); destruct (f w') as [[u|e'|] w'']; simpl in *;
    congruence.
Qed.

Lemma silent_redis_get (k : string) : silent (redis_get k).
Proof. now intros w. Qed.

Lemma silent_redis_del (k : string) : silent (redis_del k).
Proof. now intros w. Qed.

Lemma silent_redis_set_ex (k v : string) (s : Z) : silent (redis_set_ex k v s).
Proof. intros w. unfold redis_set_ex. now destruct (s <=? 0). Qed.

Lemma silent_redis_set_ex_nx (k v : string) (s : Z) :
  silent (redis_set_ex_nx k v s).
Proof. intros w. unfold redis_set_ex_nx. now destruct (lookup_key k w). Qed.

Lemma silent_now_seconds : silent now_seconds.
Proof. now intros w. Qed.

Lemma sends_app (w : World) (tr : list Effect) :
  List.filter is_send (trace w ++ tr) = (sends w ++ List.filter is_send tr)%list.
Proof. apply List.filter_app. Qed.

Lemma silent_sleep (ms : Z) : silent (sleep ms).
Proof.
  intros w. unfold sends, sleep; simpl. rewrite sends_app. simpl.
  apply app_nil_r.
Qed.

Lemma silent_axios_get_token (appid secret : string) :
  silent (axios_get_token appid secret).
Proof.
  intros w. unfold sends, axios_get_token.
  destruct (token_endpoint w) as [|[r|] rest]; simpl;
    rewrite sends_app; simpl; apply app_nil_r.
Qed.

Lemma silent_refreshAccessToken_with (g : M string) :
  silent g -> silent (refreshAccessToken_with config g).
Proof.
  intros Hg. unfold refreshAccessToken_with.
  apply silent_bind; [apply silent_redis_set_ex_nx|]. intros acquired.
  destruct (negb acquired).
  - apply silent_bind; [apply silent_sleep | intros _; exact Hg].
  - apply silent_try_finally.
    + apply silent_bind; [apply silent_axios_get_token|]. intros r.
      assert (S : silent
                    (let* now := now_seconds in
                     let* _ :=
                       redis_set_ex TOKEN_KEY
                         (JSON_stringify
                            (TokenCache_json
                               {| accessToken := access_token r;
                                  expiresAt := now + expires_in r |}))
                         (expires_in r) in
                     ret (access_token r))).
      { apply silent_bind; [apply silent_now_seconds|]. intros now.
        apply silent_bind; [apply silent_redis_set_ex|]. intros _.
        apply silent_ret. }
      destruct (token_errcode r) as [[| |]|]; try exact S; apply silent_throw.
    + apply silent_bind; [apply silent_redis_del | intros _; apply silent_ret].
Qed.

Lemma silent_getAccessToken (fuel : nat) : silent (getAccessToken config fuel).
Proof.
  induction fuel as [|fuel IH]; simpl; [apply silent_out_of_fuel|].
  pose proof (silent_refreshAccessToken_with _ IH) as R.
  apply silent_bind; [apply silent_redis_get|]. intros cached.
  destruct (JsString.truthy cached); [|exact R].
  destruct (JSON_parse _) as [v|]; [|apply silent_throw].
  apply silent_bind; [apply silent_now_seconds|]. intros now.
  destruct (as_TokenCache v) as [td|]; [|exact R].
  destruct (_ >? _); [apply silent_ret | exact R].
Qed.

Lemma silent_forceRefreshToken (fuel : nat) :
  silent (forceRefreshToken config fuel).
Proof.
  unfold forceRefreshToken, refreshAccessToken.
  apply silent_bind; [apply silent_redis_del|]. intros _.
  apply silent_refreshAccessToken_with, silent_getAccessToken.
Qed.

Lemma sends_axios_post_send (token : string) (message : CustomerServiceMessage)
      (w : World) :
  sends (snd (axios_post_send token message w))
  = (sends w ++ [EvSend token message])%list.
Proof.
  unfold sends, axios_post_send.
  destruct (send_endpoint w) as [|[r|] rest]; simpl; now rewrite sends_app.
Qed.

(** One call of the sender's body makes one call to the send API at
    most, plus those of the retry when it has one left. *)
Lemma sends_sendCustomerServiceMessage_with
      (fuel : nat) (message : CustomerServiceMessage) (retry : bool)
      (again : M bool) (bound : nat) :
  (forall w, (List.length (sends (snd (again w)))
              <= List.length (sends w) + bound)%nat) ->
  forall w,
    (List.length
       (sends (snd (sendCustomerServiceMessage_with
                      config fuel message retry again w)))
     <= List.length (sends w) + 1 + (if retry then bound else 0))%nat.
Proof.
  intros Ha w. unfold sendCustomerServiceMessage_with, try_catch, bind.
  pose proof (silent_getAccessToken fuel w) as G.
  destruct (getAccessToken config fuel w) as [[token|e|] w1]; simpl in *;
    try (rewrite G; lia).
  pose proof (sends_axios_post_send token message w1) as P.
  destruct (axios_post_send token message w1) as [[response|e|] w2];
    simpl in *; try (rewrite P, length_app, G; simpl; lia).
  assert (L2 : List.length (sends w2) = (List.length (sends w) + 1)%nat)
    by (rewrite P, length_app, G; simpl; lia).
  destruct (errcode_is (send_errcode response) 0); simpl; [lia|].
  destruct (errcode_is (send_errcode response) 40001); simpl; [|lia].
  destruct retry; simpl; [|lia].
  pose proof (silent_forceRefreshToken fuel w2) as F.
  destruct (forceRefreshToken config fuel w2) as [[t'|e|] w3];
    simpl in *; try (rewrite F; lia).
  specialize (Ha w3). rewrite F in Ha.
  destruct (again w3) as [[b|e|] w4]; simpl in *; lia.
Qed.

(** However the platform answers, one message costs at most two calls
    to the send API, and one when no retry is allowed. *)
Lemma sends_sendCustomerServiceMessage
      (fuel : nat) (message : CustomerServiceMessage) (retry : bool)
      (w : World) :
  (List.length
     (sends (snd (sendCustomerServiceMessage config fuel message retry w)))
   <= List.length (sends w) + (if retry then 2 else 1))%nat.
Proof.
  unfold sendCustomerServiceMessage.
  pose proof (sends_sendCustomerServiceMessage_with
                fuel message retry
                (sendCustomerServiceMessage_with config fuel message false
                                                 (ret false)) 1) as B.
  assert (Inner : forall w0,
             (List.length
                (sends (snd (sendCustomerServiceMessage_with
                               config fuel message false (ret false) w0)))
              <= List.length (sends w0) + 1)%nat).
  { intros w0.
    pose proof (sends_sendCustomerServiceMessage_with
                  fuel message false (ret false) 0
                  (fun w1 => Nat.le_add_r _ 0) w0).
    simpl in *. lia. }
  specialize (B Inner w). destruct retry; simpl in *; lia.
Qed.

End SenderFacts.

Section RetryFacts.
Import WechatToken WechatMessage.
Context `{JsNumber} `{JsonCodec} (config : Config).

(** The platform reports no error: [errcode] is absent or zero. *)
Definition token_ok (r : TokenResponse) : Prop :=
  token_errcode r = None \/ token_errcode r = Some 0.

(** The entry a refresh at time [w] writes for the reply [r]. *)
Definition refreshed_entry (w : World) (r : TokenResponse) : TokenCache :=
  {| accessToken := access_token r;
     expiresAt := clock w / 1000 + expires_in r |}.




End RetryFacts.

(** ** services/wechat-token.ts: a refresh, outcome by outcome *)

Section RefreshRuns.
Import WechatToken WechatMessage.
Context `{JsNumber} `{JsonCodec} (config : Config).

(** The platform reports an error: [errcode] is present and not zero. *)
Definition token_rejected (r : TokenResponse) (errcode : Z) : Prop :=
  token_errcode r = Some errcode /\ errcode <> 0.

Lemma token_ok_or_rejected (r : TokenResponse) :
  token_ok r \/ exists errcode, token_rejected r errcode.
Proof.
  unfold token_ok, token_rejected.
  destruct (token_errcode r) as [[|p|p]|]; auto;
    right; eexists; (split; [reflexivity | discriminate]).
Qed.

(** What a refresh that finds the lock free has done, by the reply of
    the credential endpoint. *)
Definition refresh_result (w : World) : Res string :=
  match token_endpoint w with
  | Some r :: _ =>
      match token_errcode r with
      | Some (Zpos _ as errcode) | Some (Zneg _ as errcode) =>
          Throw (WeChatApiError errcode (token_errmsg r))
      | _ =>
          if expires_in r <=? 0 then Throw RedisError
          else Ok (access_token r)
      end
  | _ => Throw NetworkError
  end.

Lemma refresh_free_run (g : M string) (w : World) :
  lookup_key TOKEN_LOCK_KEY w = None ->
  exists w',
    refreshAccessToken_with config g w = (refresh_result w, w')
    /\ clock w' = clock w
    /\ send_endpoint w' = send_endpoint w
    /\ token_endpoint w' = List.tl (token_endpoint w)
    /\ trace w' = (trace w ++ [fetch_event config])%list
    /\ lookup_key TOKEN_LOCK_KEY w' = None
    /\ (forall k, k <> TOKEN_KEY -> k <> TOKEN_LOCK_KEY ->
                  lookup_key k w' = lookup_key k w)
    /\ lookup_key TOKEN_KEY w'
       = match refresh_result w, token_endpoint w with
         | Ok _, Some r :: _ =>
             Some (JSON_stringify (TokenCache_json (refreshed_entry w r)))
         | _, _ => lookup_key TOKEN_KEY w
         end.
Proof.
  intros L. rewrite refreshAccessToken_with_unfold, L.
  unfold refresh_result, try_finally, fetch_and_store, bind at 1,
    axios_get_token.
  cbn [with_key token_endpoint].
  destruct (token_endpoint w) as [|[r|] rest] eqn:Te.
  all: try destruct (token_errcode r) as [[|p|p]|].
  all: unfold bind, now_seconds, redis_set_ex, unlock, bind, redis_del, ret,
    throw.
  all: cbn [clock fst snd emit].
  all: try destruct (expires_in r <=? 0) eqn:E.
  all: cbv beta iota; eexists; (split; [reflexivity|]).
  all: unfold lookup_key, live, without_key, with_key, refreshed_entry.
  all: cbn [redis expiry clock token_endpoint send_endpoint trace emit List.tl].
  all: rewrite !lookup_delete_eq.
  all: repeat match goal with |- _ /\ _ => split end; try reflexivity.
  all: try (intros k Hk1 Hk2).
  all: rewrite ?lookup_delete_ne by congruence.
  all: rewrite ?lookup_insert_ne by congruence.
  all: rewrite ?lookup_insert_ne by (apply not_eq_sym, token_key_not_lock).
  all: try reflexivity.
  all: rewrite ?lookup_delete_ne by (apply not_eq_sym, token_key_not_lock).
  all: rewrite ?lookup_insert_eq.
  all: rewrite ?lookup_insert_ne by (apply not_eq_sym, token_key_not_lock).
  all: try reflexivity.
  all: try (apply Z.leb_gt in E;
            now replace (clock w <? clock w + expires_in r * 1000) with true
              by (symmetry; apply Z.ltb_lt; lia)).
  exact Te.
Qed.

End RefreshRuns.

(** ** services/wechat-message.ts: one retry after a rejected token *)

Section RetryClaim.
Import WechatToken WechatMessage.
Context `{JsNumber} `{JsonCodec} (config : Config).


End RetryClaim.

(** ** POST /wechat reaches the message handler *)

Section PostWechat.
Import Signature WechatRoutes.
Context `{JsNumber} `{Crypto} `{JsonCodec} `{UrlParser} {xml : XmlParser}
        (config : Config).

(** With the three parameters present, a valid signature and a body
    that parses to a message, the POST handler is the message
    handler. *)
Lemma post_wechat_handles (sig ts nc : string) (echo : option string)
      (body : string) (message : WeChatMessage) :
  sig <> "" -> ts <> "" -> nc <> "" ->
  validateSignature (wechat_token config) sig ts nc = true ->
  parseWeChatXml body = Some (Some message) ->
  post_wechat config
    {| signature := Some sig; timestamp := Some ts; nonce := Some nc;
       echostr := echo |} body
  = handleMessage config message.
Proof.
  intros Hs Ht Hn Hv Hp. unfold post_wechat.
  destruct sig, ts, nc; try tauto. cbn [signature timestamp nonce].
  cbn [JsString.truthy negb orb or_else]. now rewrite Hv, Hp.
Qed.

End PostWechat.

(** ** Checkers for concrete texts *)

Section Checkers.
Import Chunking.

Fixpoint no_spaceb (s : string) : bool :=
  match s with
  | String c s' => negb (is_space c) && no_spaceb s'
  | EmptyString => true
  end.

Lemma no_spaceb_sound (s : string) : no_spaceb s = true -> no_space s.
Proof.
  induction s as [|c s IH]; simpl; intros Hs i d Hi.
  - now destruct i.
  - apply andb_true_iff in Hs as [Hc Hs]. destruct i as [|i]; simpl in Hi.
    + injection Hi as <-. now apply negb_true_iff.
    + now apply (IH Hs i).
Qed.

Lemma word_check (s : string) :
  WechatRoutes.nonempty s && no_spaceb s = true -> word s.
Proof.
  intros Hs. apply andb_true_iff in Hs as [Hn Hs].
  split; [now destruct s | now apply no_spaceb_sound].
Qed.

End Checkers.

(** * Further properties of the services *)

(** ** utils/signature.ts: the order of the inputs *)

Section SignatureOrder.
Import Signature.

Lemma ascii_compare_N (a b : ascii) :
  Ascii.compare a b = N.compare (N_of_ascii a) (N_of_ascii b).
Proof. reflexivity. Qed.

Lemma ascii_compare_refl (a : ascii) : Ascii.compare a a = Eq.
Proof. rewrite ascii_compare_N. apply N.compare_refl. Qed.

Lemma ascii_compare_lt_trans (a b c : ascii) :
  Ascii.compare a b = Lt -> Ascii.compare b c = Lt -> Ascii.compare a c = Lt.
Proof.
  rewrite !ascii_compare_N, !N.compare_lt_iff. apply N.lt_trans.
Qed.

Lemma string_compare_lt_trans (a b c : string) :
  String.compare a b = Lt -> String.compare b c = Lt -> String.compare a c = Lt.
Proof.
  revert b c; induction a as [|x a IH]; intros [|y b] [|z c]; simpl;
    try discriminate; try reflexivity.
  destruct (Ascii.compare x y) eqn:Exy; try discriminate;
    destruct (Ascii.compare y z) eqn:Eyz; try discriminate; intros Hab Hbc.
  - apply Ascii.compare_eq_iff in Exy, Eyz. subst.
    rewrite ascii_compare_refl. now apply (IH b).
  - apply Ascii.compare_eq_iff in Exy. subst. now rewrite Eyz.
  - apply Ascii.compare_eq_iff in Eyz. subst. now rewrite Exy.
  - now rewrite (ascii_compare_lt_trans x y z).
Qed.

Lemma leb_trans (a b c : string) :
  String.leb a b = true -> String.leb b c = true -> String.leb a c = true.
Proof.
  unfold String.leb.
  destruct (String.compare a b) eqn:Eab; try discriminate;
    destruct (String.compare b c) eqn:Ebc; try discriminate; intros _ _.
  - apply String.compare_eq_iff in Eab. subst a. now rewrite Ebc.
  - apply String.compare_eq_iff in Eab. subst a. now rewrite Ebc.
  - apply String.compare_eq_iff in Ebc. subst c. now rewrite Eab.
  - now rewrite (string_compare_lt_trans a b c).
Qed.

Lemma leb_false (a b : string) : String.leb a b = false -> String.leb b a = true.
Proof. intros E. destruct (String.leb_total a b); congruence. Qed.

(** Insertions commute: the array a sort returns does not depend on
    the order its elements came in. *)
Lemma insert_comm (x y : string) (l : list string) :
  insert x (insert y l) = insert y (insert x l).
Proof.
  induction l as [|z l IH]; simpl.
  - destruct (String.leb x y) eqn:Exy, (String.leb y x) eqn:Eyx; try reflexivity.
    + now rewrite (String.leb_antisym x y).
    + apply leb_false in Exy. congruence.
  - destruct (String.leb y z) eqn:Eyz, (String.leb x z) eqn:Exz; simpl;
      rewrite ?Eyz, ?Exz.
    + destruct (String.leb x y) eqn:Exy, (String.leb y x) eqn:Eyx;
        rewrite ?Exz, ?Eyz; try reflexivity.
      * now rewrite (String.leb_antisym x y).
      * apply leb_false in Exy. congruence.
    + assert (Exy : String.leb x y = false).
      { destruct (String.leb x y) eqn:E; [|reflexivity].
        now rewrite (leb_trans x y z) in Exz. }
      now rewrite ?Exy, ?Exz.
    + assert (Eyx : String.leb y x = false).
      { destruct (String.leb y x) eqn:E; [|reflexivity].
        now rewrite (leb_trans y x z) in Eyz. }
      now rewrite ?Eyx, ?Eyz.
    + now rewrite IH.
Qed.

Lemma sort_Permutation (l1 l2 : list string) :
  Permutation l1 l2 -> sort l1 = sort l2.
Proof.
  induction 1 as [|x l1 l2 _ IH|x y l|l1 l2 l3 _ IH1 _ IH2]; simpl.
  - reflexivity.
  - now rewrite IH.
  - apply insert_comm.
  - congruence.
Qed.

Context `{Crypto}.

(** X1.  The signature does not tell its three inputs apart.  The token,
    the timestamp and the nonce are sorted before they are hashed, so
    the signature is the same with the three in any order, and
    [validateSignature] gives the same verdict: a signature made for
    a timestamp and a nonce is also accepted with the two swapped. *)
Theorem generateSignature_order_blind (token timestamp nonce signature : string) :
  generateSignature token timestamp nonce = generateSignature token nonce timestamp
  /\ generateSignature token timestamp nonce
     = generateSignature timestamp token nonce
  /\ generateSignature token timestamp nonce
     = generateSignature nonce timestamp token
  /\ validateSignature token signature timestamp nonce
     = validateSignature token signature nonce timestamp
  /\ validateSignature token signature timestamp nonce
     = validateSignature timestamp signature token nonce
  /\ validateSignature token signature timestamp nonce
     = validateSignature nonce signature timestamp token.
Proof.
  unfold generateSignature, validateSignature.
  assert (E1 : sort [token; timestamp; nonce] = sort [token; nonce; timestamp])
    by (apply sort_Permutation; repeat constructor).
  assert (E2 : sort [token; timestamp; nonce] = sort [timestamp; token; nonce])
    by (apply sort_Permutation; constructor).
  assert (E3 : sort [token; timestamp; nonce] = sort [nonce; timestamp; token]).
  { apply sort_Permutation.
    apply (perm_trans (l' := [timestamp; token; nonce])); [constructor|].
    apply (perm_trans (l' := [timestamp; nonce; token])); [repeat constructor|].
    constructor. }
  cbv zeta. now rewrite <- E1, <- E2, <- E3.
Qed.

End SignatureOrder.

(** ** The bind pattern, exactly *)

Section CommandShape.
Import WechatRoutes Chunking.

(** What [span p] returns: the text cut in two, the first part made of
    code units satisfying [p], the second starting with one that does
    not. *)
Lemma span_spec (p : ascii -> bool) (s a b : string) :
  span p s = (a, b) ->
  s = a +++ b
  /\ (forall i c, String.get i a = Some c -> p c = true)
  /\ match b with String c _ => p c = false | EmptyString => True end.
Proof.
  revert a b; induction s as [|x s IH]; simpl; intros a b E.
  - injection E as <- <-. repeat split. intros [|i] c Hi; discriminate.
  - destruct (p x) eqn:Hx.
    + destruct (span p s) as [a' b'] eqn:Es. injection E as <- <-.
      destruct (IH a' b' eq_refl) as (-> & Ha & Hb).
      repeat split; [|exact Hb].
      intros [|i] c Hi; simpl in Hi; [now injection Hi as <- | now apply (Ha i)].
    + injection E as <- <-. repeat split; [|exact Hx].
      intros [|i] c Hi; discriminate.
Qed.

Lemma nonempty_inv (s : string) : nonempty s = true -> s <> "".
Proof. now destruct s. Qed.

Lemma length_take_4 (s : string) :
  lower_string (take 4 s) = "bind" -> String.length (take 4 s) = 4%nat.
Proof.
  destruct s as [|c1 [|c2 [|c3 [|c4 s]]]]; simpl; try discriminate. reflexivity.
Qed.

(** X2.  The bind pattern matches exactly the texts made of the word [bind]
    in any letter case, white space, a run without white space, white
    space, and a second run without white space up to the end; the
    two runs are the captures. *)
Theorem BIND_REGEX_exact (content endpoint token : string) :
  BIND_REGEX content = Some (endpoint, token)
  <-> exists b gap1 gap2,
      content = b +++ gap1 +++ endpoint +++ gap2 +++ token
      /\ String.length b = 4%nat /\ lower_string b = "bind"
      /\ gap gap1 /\ word endpoint /\ gap gap2 /\ word token.
Proof.
  split.
  - unfold BIND_REGEX.
    destruct (String.eqb_spec (lower_string (take 4 content)) "bind") as [Hb|];
      [|discriminate].
    destruct (span is_space (drop 4 content)) as [space1 rest1] eqn:E1.
    destruct (span not_space rest1) as [e rest2] eqn:E2.
    destruct (span is_space rest2) as [space2 rest3] eqn:E3.
    destruct (span not_space rest3) as [t rest4] eqn:E4.
    destruct (nonempty space1) eqn:N1; [|discriminate].
    destruct (nonempty e) eqn:N2; [|discriminate].
    destruct (nonempty space2) eqn:N3; [|discriminate].
    destruct (nonempty t) eqn:N4; [|discriminate].
    destruct rest4 as [|c4 r4]; [|discriminate].
    cbn [andb negb nonempty String.eqb]. intros E. injection E as <- <-.
    apply span_spec in E1 as (D1 & S1 & _), E2 as (D2 & S2 & _),
          E3 as (D3 & S3 & _), E4 as (D4 & S4 & _).
    exists (take 4 content), space1, space2.
    split.
    { rewrite <- (take_drop 4 content) at 1. rewrite D1, D2, D3, D4.
      now rewrite append_empty_r. }
    split; [now apply length_take_4|]. split; [exact Hb|].
    assert (NS : forall s, (forall i c, String.get i s = Some c -> not_space c = true)
                           -> no_space s).
    { intros s Hs i c Hi. apply Hs in Hi. unfold not_space in Hi.
      now destruct (is_space c). }
    repeat split; auto using nonempty_inv.
  - intros (b & gap1 & gap2 & -> & Hb4 & Hb & G1 & W1 & G2 & W2).
    now apply BIND_REGEX_matches.
Qed.

End CommandShape.

(** ** POST /wechat: every way the handler ends *)

Section HandlerOutcomes.
Import RedisService Forwarder WechatRoutes.
Context `{JsNumber} `{Crypto} `{JsonCodec} `{UrlParser} {xml : XmlParser}
        (config : Config).

(** The subject has a Binding, as the handler sees it. *)
Definition bound (openId : string) (w : World) : bool :=
  Js.truthy (lookupBinding openId w).

(** A text message whose content the parser read as a number other
    than zero or as [true]: a truthy [Content] that has neither
    [match] nor [trim]. *)
Definition unreadable (message : WeChatMessage) : Prop :=
  MsgType message = "text"
  /\ ((exists n, Content message = Some (TagNumber n)
                 /\ Number_truthy n = true)
      \/ Content message = Some (TagBoolean true)).

(** The eight ways the message handler can end. *)
Inductive Outcome (message : WeChatMessage) (w : World)
  : Res Response * World -> Prop :=
| Welcomed :
    MsgType message = "event" ->
    Event message = Some (TagString "subscribe") ->
    Outcome message w (Ok (xmlReply message welcomeMsg w), w)
| EventIgnored :
    MsgType message = "event" ->
    Event message <> Some (TagString "subscribe") ->
    Outcome message w (Ok (send_plain ""), w)
| Crashed :
    unreadable message ->
    Outcome message w (Ok internalError, w)
| UrlRefused content endpoint token :
    bound (FromUserName message) w = false ->
    textMessage_from (FromUserName message) content message ->
    BIND_REGEX content = Some (endpoint, token) ->
    URL_ok endpoint = false ->
    Outcome message w (Ok (xmlReply message invalidUrlMsg w), w)
| Bound content endpoint token :
    bound (FromUserName message) w = false ->
    textMessage_from (FromUserName message) content message ->
    BIND_REGEX content = Some (endpoint, token) ->
    URL_ok endpoint = true ->
    Outcome message w
      (Ok (xmlReply message (bindOkMsg endpoint) w),
       with_key (BINDING_PREFIX +++ FromUserName message)
                (JSON_stringify (UserBinding endpoint token (clock w))) None w)
| AskedToBind :
    bound (FromUserName message) w = false ->
    MsgType message <> "event" ->
    ~ unreadable message ->
    (forall content,
        textMessage_from (FromUserName message) content message ->
        BIND_REGEX content = None) ->
    Outcome message w (Ok (xmlReply message pleaseBindMsg w), w)
| Unbound content :
    bound (FromUserName message) w = true ->
    textMessage_from (FromUserName message) content message ->
    UNBIND_REGEX (trim content) = true ->
    Outcome message w
      (Ok (xmlReply message unbindOkMsg w),
       without_key (BINDING_PREFIX +++ FromUserName message) w)
| Forwarded :
    bound (FromUserName message) w = true ->
    MsgType message <> "event" ->
    ~ unreadable message ->
    (forall content,
        textMessage_from (FromUserName message) content message ->
        UNBIND_REGEX (trim content) = false) ->
    Outcome message w
      (Ok (xmlReply message processingMsg w),
       emit (EvForward
               (Js.get (lookupBinding (FromUserName message) w) "endpoint")
               (Js.get (lookupBinding (FromUserName message) w) "token")
               (payloadOf config message)) w).

Lemma textMessage_from_iff (message : WeChatMessage) (content : string) :
  textMessage_from (FromUserName message) content message
  <-> MsgType message = "text" /\ Content message = Some (TagString content).
Proof. unfold textMessage_from. tauto. Qed.

Lemma equals_spec (x : option TagValue) (s : string) :
  Tag.equals x s = true <-> x = Some (TagString s).
Proof.
  destruct x as [[s'|n|b]|]; simpl; split; try discriminate.
  - intros E. apply String.eqb_eq in E. now subst.
  - intros E. injection E as ->. apply String.eqb_refl.
Qed.

Lemma unreadable_text (message : WeChatMessage) (content : string) :
  Content message = Some (TagString content) -> ~ unreadable message.
Proof. intros E (_ & [(n & E' & _)|E']); congruence. Qed.

Lemma unreadable_kind (message : WeChatMessage) :
  MsgType message <> "text" -> ~ unreadable message.
Proof. intros Hk (Ht & _). contradiction. Qed.

(** What the two tests of a text's content come to, by the shape of
    the content. *)
Lemma content_test {A} (f : string -> A) (d : A) (message : WeChatMessage) :
  let tested :=
    if String.eqb (MsgType message) "text" && Tag.truthy (Content message)
    then on_string f (Content message) else Some d in
  (unreadable message /\ tested = None)
  \/ (~ unreadable message
      /\ ((exists c content,
             textMessage_from (FromUserName message) (String c content) message
             /\ tested = Some (f (String c content)))
          \/ ((forall c content,
                 ~ textMessage_from (FromUserName message) (String c content)
                     message)
              /\ tested = Some d))).
Proof.
  intros tested. unfold tested.
  destruct (String.eqb_spec (MsgType message) "text") as [Tx|Tx]; cbn [andb].
  - destruct (Content message) as [[[|c content]|n|[|]]|] eqn:Ec;
      cbn [Tag.truthy on_string negb String.eqb].
    + right. split; [now apply (unreadable_text message "")|]. right.
      split; [|reflexivity]. intros c content (_ & _ & Hc). congruence.
    + right. split; [now apply (unreadable_text message (String c content))|].
      left. exists c, content. split; [|reflexivity].
      apply textMessage_from_iff. now split.
    + destruct (Number_truthy n) eqn:Nt.
      * left. split; [|reflexivity]. split; [exact Tx|]. left. now exists n.
      * right. split.
        { intros (_ & [(m & E & F)|E]); congruence. }
        right. split; [|reflexivity]. intros c content (_ & _ & Hc). congruence.
    + left. split; [|reflexivity]. split; [exact Tx|]. now right.
    + right. split.
      { intros (_ & [(m & E & F)|E]); congruence. }
      right. split; [|reflexivity]. intros c content (_ & _ & Hc). congruence.
    + right. split.
      { intros (_ & [(m & E & F)|E]); congruence. }
      right. split; [|reflexivity]. intros c content (_ & _ & Hc). congruence.
  - right. split; [now apply unreadable_kind|]. right.
    split; [|reflexivity]. intros c content (_ & Ht & _). contradiction.
Qed.

Lemma handleMessage_outcome (message : WeChatMessage) (w : World) :
  Outcome message w (handleMessage config message w).
Proof.
  unfold handleMessage.
  destruct (String.eqb_spec (MsgType message) "event") as [Ev|Ev].
  { destruct (Tag.equals (Event message) "subscribe") eqn:Ee.
    - apply equals_spec in Ee.
      unfold bind; rewrite buildTextReply_run. now apply Welcomed.
    - apply EventIgnored; [exact Ev|]. intros E. apply equals_spec in E.
      congruence. }
  rewrite bind_getBinding.
  destruct (Js.truthy (lookupBinding (FromUserName message) w)) eqn:B;
    cbn [negb].
  - destruct (content_test (fun content => UNBIND_REGEX (trim content)) false
                           message)
      as [(Hu & ->)|(Hu & [(c & content & T & ->)|(N & ->)])].
    + now apply Crashed.
    + destruct (UNBIND_REGEX (trim (String c content))) eqn:U.
      * unfold bind at 1. unfold deleteBinding, bind, redis_del, ret.
        cbv beta iota zeta. rewrite buildTextReply_run.
        now apply (Unbound message w (String c content)).
      * unfold bind at 1. unfold forwardToClawdbot.
        unfold bind. rewrite buildTextReply_run.
        apply Forwarded; [exact B | exact Ev | exact Hu |].
        intros content' T'. destruct T as (_ & _ & Hc), T' as (_ & _ & Hc').
        rewrite Hc in Hc'. now injection Hc' as <-.
    + unfold bind at 1. unfold forwardToClawdbot.
      unfold bind. rewrite buildTextReply_run.
      apply Forwarded; [exact B | exact Ev | exact Hu |].
      intros [|c content] T; [reflexivity | now destruct (N c content)].
  - destruct (content_test BIND_REGEX None message)
      as [(Hu & ->)|(Hu & [(c & content & T & ->)|(N & ->)])].
    + now apply Crashed.
    + destruct (BIND_REGEX (String c content)) as [[endpoint token]|] eqn:R.
      * destruct (URL_ok endpoint) eqn:U; cbn [negb].
        -- unfold bind. rewrite setBinding_run, buildTextReply_run.
           now apply (Bound message w (String c content) endpoint token).
        -- unfold bind; rewrite buildTextReply_run.
           now apply (UrlRefused message w (String c content) endpoint token).
      * unfold bind; rewrite buildTextReply_run.
        apply AskedToBind; [exact B | exact Ev | exact Hu |].
        intros content' T'. destruct T as (_ & _ & Hc), T' as (_ & _ & Hc').
        rewrite Hc in Hc'. now injection Hc' as <-.
    + unfold bind; rewrite buildTextReply_run.
      apply AskedToBind; [exact B | exact Ev | exact Hu |].
      intros [|c content] T; [reflexivity | now destruct (N c content)].
Qed.

End HandlerOutcomes.

(** ** POST /wechat: what the handler touches and answers *)

Section HandlerFootprint.
Import Signature RedisService Forwarder WechatRoutes.
Context `{JsNumber} `{Crypto} `{JsonCodec} `{UrlParser} {xml : XmlParser}
        (config : Config).

Lemma binding_key_inj (a b : string) :
  BINDING_PREFIX +++ a = BINDING_PREFIX +++ b -> a = b.
Proof. unfold BINDING_PREFIX. simpl. intros E. now injection E. Qed.

(** The keys a message leaves alone: all but the sender's binding. *)
Lemma handleMessage_other_keys (message : WeChatMessage) (w : World) (k : string) :
  k <> BINDING_PREFIX +++ FromUserName message ->
  lookup_key k (snd (handleMessage config message w)) = lookup_key k w.
Proof.
  intros Hk. destruct (handleMessage_outcome config message w);
    cbn [snd]; try reflexivity.
  - now apply lookup_key_with_other.
  - now apply lookup_key_without_other.
Qed.

Lemma unreadable_event (message : WeChatMessage) :
  MsgType message = "event" -> ~ unreadable message.
Proof. intros Ev (Ht & _). congruence. Qed.

(** X3.  Handling a message fails in one case only, that of a text
    whose content the parser read as a number other than zero or as
    [true]: the call of [match] or [trim] on it throws, the answer is
    the 500 of the error handler, and nothing has changed.  In every
    other case the answer has status 200.  In no case is the platform
    called: the clock, the replies the platform is going to give and
    every key but the sender's binding are as before, and at most one
    outbound call is made, the forward of this message. *)
Theorem handleMessage_footprint (message : WeChatMessage) (w : World) :
  exists response w',
    handleMessage config message w = (Ok response, w')
    /\ (unreadable message -> response = internalError /\ w' = w)
    /\ (~ unreadable message -> status response = 200)
    /\ clock w' = clock w
    /\ token_endpoint w' = token_endpoint w
    /\ send_endpoint w' = send_endpoint w
    /\ (forall k,
          k <> BINDING_PREFIX +++ FromUserName message ->
          lookup_key k w' = lookup_key k w)
    /\ (trace w' = trace w
        \/ exists endpoint bearer,
            trace w'
            = (trace w ++ [EvForward endpoint bearer (payloadOf config message)])%list).
Proof.
  pose proof (handleMessage_other_keys message w) as K.
  destruct (handleMessage_outcome config message w) as
    [Ev _|Ev _|Hu|c e t B T' R U|c e t B T' R U|B Ev Hu N|c B T' U|B Ev Hu N];
    eexists; eexists; (split; [reflexivity|]).
  all: try (apply unreadable_event in Ev; rename Ev into Hu).
  all: try (destruct T' as (_ & _ & T'); apply unreadable_text in T';
            rename T' into Hu).
  all: (split; [intros Hu'; try contradiction; now split|]).
  all: (split; [intros Hu'; try contradiction; reflexivity|]).
  all: repeat match goal with |- _ /\ _ => split end;
    try reflexivity; try exact K; try (now left);
    try (right; now eexists; eexists).
Qed.

(** X4.  What the handler answers.  To a text whose content the
    parser read as a number other than zero or as [true]: the 500 of
    the error handler.  To every other message a 200: an empty plain
    text for an event other than a subscription, otherwise a passive
    text reply addressed to the sender, in the name of the account the
    message was sent to, stamped with the current second. *)
Theorem handleMessage_replies_to_sender (message : WeChatMessage) (w : World) :
  exists response,
    fst (handleMessage config message w) = Ok response
    /\ ((unreadable message /\ response = internalError)
        \/ (~ unreadable message
            /\ status response = 200
            /\ ((response = send_plain "" /\ MsgType message = "event"
                 /\ Event message <> Some (TagString "subscribe"))
                \/ exists content,
                    response
                    = {| status := 200; contentType := Some "text/xml";
                         body := BodyXml
                                   {| reply_ToUserName := FromUserName message;
                                      reply_FromUserName := ToUserName message;
                                      reply_CreateTime := clock w / 1000;
                                      reply_MsgType := "text";
                                      reply_Content := Some content |} |}))).
Proof.
  destruct (handleMessage_outcome config message w) as
    [Ev E|Ev E|Hu|c e t B T' R U|c e t B T' R U|B Ev Hu N|c B T' U|B Ev Hu N];
    eexists; (split; [reflexivity|]).
  all: try (pose proof (unreadable_event message Ev) as Hu).
  all: try (destruct T' as (_ & _ & T'); apply unreadable_text in T';
            rename T' into Hu).
  3: now left.
  all: right; (split; [exact Hu|]); (split; [reflexivity|]).
  all: try (right; eexists; reflexivity).
  now left.
Qed.

(** X5.  A message changes nothing for any other subject. *)
Theorem handleMessage_other_subjects
        (message : WeChatMessage) (w : World) (other : string) :
  other <> FromUserName message ->
  let w' := snd (handleMessage config message w) in
  fst (getBinding other w') = fst (getBinding other w)
  /\ fst (isBound other w') = fst (isBound other w).
Proof.
  intros Ho w'.
  assert (K : lookup_key (BINDING_PREFIX +++ other) w'
              = lookup_key (BINDING_PREFIX +++ other) w).
  { apply handleMessage_other_keys. intros E. apply binding_key_inj in E.
    contradiction. }
  rewrite !getBinding_run. unfold lookupBinding, isBound, bind, redis_get, ret.
  cbn [fst]. now rewrite K.
Qed.

(** X6.  A bind command whose address the URL parser rejects stores
    nothing. *)
Theorem handle_bind_invalid_url
        (w : World) (openId content endpoint token : string)
        (message : WeChatMessage) :
  textMessage_from openId content message ->
  BIND_REGEX content = Some (endpoint, token) ->
  URL_ok endpoint = false ->
  Js.truthy (lookupBinding openId w) = false ->
  handleMessage config message w
  = (Ok (xmlReply message invalidUrlMsg w), w).
Proof.
  intros (<- & Ht & Hc) Hb Hu Hn.
  assert (T : textMessage_from (FromUserName message) content message)
    by now repeat split.
  destruct (handleMessage_outcome config message w) as
    [Ev _|Ev _|Un|c e t B T' R U|c e t B T' R U|B Ev Un N|c B T' U|B Ev Un N];
    try reflexivity; try (rewrite Ev in Ht; discriminate);
    try (unfold bound in B; congruence).
  - now destruct (unreadable_text message content Hc).
  - destruct T' as (_ & _ & Hc'). rewrite Hc in Hc'. injection Hc' as <-.
    rewrite Hb in R. injection R as <- <-. congruence.
  - specialize (N content T). congruence.
Qed.

(** X7.  Commands are read from text messages only: whatever its fields
    hold, a message of another kind (and not an event) is forwarded
    when the sender has a Binding and answered with the request to
    bind when not; the store is not touched. *)
Theorem handle_non_text (w : World) (message : WeChatMessage) :
  MsgType message <> "text" ->
  MsgType message <> "event" ->
  (Js.truthy (lookupBinding (FromUserName message) w) = true ->
   handleMessage config message w
   = (Ok (xmlReply message processingMsg w),
      emit (EvForward
              (Js.get (lookupBinding (FromUserName message) w) "endpoint")
              (Js.get (lookupBinding (FromUserName message) w) "token")
              (payloadOf config message)) w))
  /\ (Js.truthy (lookupBinding (FromUserName message) w) = false ->
      handleMessage config message w
      = (Ok (xmlReply message pleaseBindMsg w), w)).
Proof.
  intros Ht He.
  split; intros Hb;
    destruct (handleMessage_outcome config message w) as
      [Ev _|Ev _|Hu|c e t B T' R U|c e t B T' R U|B Ev Hu N|c B T' U|B Ev Hu N];
    try reflexivity; try contradiction;
    try (unfold bound in B; congruence);
    try (destruct T' as (_ & T' & _); contradiction);
    try (destruct Hu as (Hu & _); contradiction).
Qed.

End HandlerFootprint.

(** ** POST /wechat: the checks before the handler *)

Section PostGate.
Import Signature RedisService Forwarder WechatRoutes.
Context `{JsNumber} `{Crypto} `{JsonCodec} `{UrlParser} {xml : XmlParser}
        (config : Config).

(** X8.  The order of the checks of POST /wechat.  A request that lacks a
    parameter is answered 400 and one whose signature does not match
    403, before the body is looked at and without any effect; then a
    body the XML parser rejects is answered 400, a document without
    an [xml] element 500, and any other body goes to the message
    handler.  [echostr] plays no part. *)
Theorem post_wechat_gate (query : WeChatQueryParams) (body : string) (w : World) :
  ((missing (signature query) \/ missing (timestamp query)
    \/ missing (nonce query)) ->
   post_wechat config query body w
   = (Ok (send_text 400 "Missing parameters"), w))
  /\ (forall sig ts nc,
        signature query = Some sig -> timestamp query = Some ts ->
        nonce query = Some nc ->
        sig <> "" -> ts <> "" -> nc <> "" ->
        (validateSignature (wechat_token config) sig ts nc = false ->
         post_wechat config query body w
         = (Ok (send_text 403 "Invalid signature"), w))
        /\ (validateSignature (wechat_token config) sig ts nc = true ->
            post_wechat config query body w
            = match parseWeChatXml body with
              | None => (Ok (send_text 400 "Invalid XML"), w)
              | Some None => (Ok internalError, w)
              | Some (Some message) => handleMessage config message w
              end)).
Proof.
  unfold post_wechat. split.
  - intros M.
    assert (E : negb (JsString.truthy (signature query))
                || negb (JsString.truthy (timestamp query))
                || negb (JsString.truthy (nonce query)) = true).
    { unfold missing in M.
      destruct M as [[-> | ->] | [[-> | ->] | [-> | ->]]]; cbn;
        rewrite ?orb_true_r; reflexivity. }
    now rewrite E.
  - intros sig ts nc -> -> -> Hs Ht Hn.
    destruct sig, ts, nc; try tauto.
    cbn [JsString.truthy negb orb or_else].
    split; intros ->; cbn [negb]; [reflexivity|].
    now destruct (parseWeChatXml body) as [[message|]|].
Qed.

End PostGate.

(** ** services/redis.ts: [isBound] and [deleteBinding] *)

Section BindingStore.
Import RedisService.
Context `{JsNumber} `{JsonCodec}.

Lemma without_key_twice (k : string) (w : World) :
  without_key k (without_key k w) = without_key k w.
Proof. unfold without_key; simpl. now rewrite !delete_delete_eq. Qed.

(** X9.  [isBound] and [deleteBinding] follow the store, whatever the JSON
    codec does: once [setBinding] has run the subject is bound, and
    stays so as time passes, for the entry carries no time to live;
    [deleteBinding] then reports [true] and leaves the subject
    unbound, and a second [deleteBinding] reports [false] and
    changes nothing. *)
Theorem isBound_tracks_store (openId endpoint token : string) (w : World) :
  let key := BINDING_PREFIX +++ openId in
  let w1 := snd (setBinding openId endpoint token w) in
  let w2 := snd (deleteBinding openId w1) in
  fst (setBinding openId endpoint token w) = Ok tt
  /\ isBound openId w1 = (Ok true, w1)
  /\ (forall ms,
        isBound openId (snd (sleep ms w1)) = (Ok true, snd (sleep ms w1)))
  /\ deleteBinding openId w1 = (Ok true, w2)
  /\ isBound openId w2 = (Ok false, w2)
  /\ getBinding openId w2 = (Ok JNull, w2)
  /\ deleteBinding openId w2 = (Ok false, w2).
Proof.
  intros key w1 w2.
  assert (L1 : forall ms, lookup_key key (snd (sleep ms w1))
               = Some (JSON_stringify (UserBinding endpoint token (clock w)))).
  { intros ms. unfold w1. rewrite setBinding_run. cbn [snd].
    unfold lookup_key, live, sleep, with_key; cbn.
    fold key. now rewrite lookup_delete_eq, lookup_insert_eq. }
  assert (L0 : lookup_key key w1
               = Some (JSON_stringify (UserBinding endpoint token (clock w)))).
  { unfold w1. rewrite setBinding_run. apply lookup_key_with_key. }
  assert (E2 : w2 = without_key key w1).
  { unfold w2, deleteBinding, bind, redis_del. reflexivity. }
  assert (L2 : lookup_key key w2 = None)
    by (rewrite E2; apply lookup_key_without_key).
  repeat match goal with |- _ /\ _ => split end.
  - reflexivity.
  - unfold isBound, bind, redis_get, ret. fold key. now rewrite L0.
  - intros ms. unfold isBound, bind, redis_get, ret. fold key. now rewrite L1.
  - unfold deleteBinding, bind, redis_del, ret. fold key. rewrite L0.
    now rewrite E2.
  - unfold isBound, bind, redis_get, ret. fold key. now rewrite L2.
  - rewrite getBinding_run. unfold lookupBinding. fold key. now rewrite L2.
  - unfold deleteBinding, bind, redis_del, ret. fold key. rewrite L2.
    rewrite E2 at 1. now rewrite without_key_twice, E2.
Qed.

(** X10.  [isBound] is weaker than [getBinding]: whenever [getBinding]
    returns a Binding [isBound] holds, but an entry that does not
    parse makes the subject bound for [isBound] and unbound for
    [getBinding]. *)
Theorem isBound_weaker_than_getBinding (openId : string) (w : World) :
  (Js.truthy (lookupBinding openId w) = true ->
   getBinding openId w = (Ok (lookupBinding openId w), w)
   /\ isBound openId w = (Ok true, w))
  /\ (forall data,
        lookup_key (BINDING_PREFIX +++ openId) w = Some data ->
        JSON_parse data = None ->
        getBinding openId w = (Ok JNull, w)
        /\ isBound openId w = (Ok true, w)).
Proof.
  split.
  - intros Hb. split; [apply getBinding_run|].
    unfold isBound, bind, redis_get, ret. unfold lookupBinding in Hb.
    destruct (lookup_key _ w); [reflexivity | discriminate].
  - intros data L P. rewrite getBinding_run.
    unfold lookupBinding, isBound, bind, redis_get, ret. rewrite L.
    destruct data; [now split | now rewrite P].
Qed.

End BindingStore.

(** ** services/wechat-token.ts: the lock, failures, the life of a token *)

Section TokenRefresh.
Import WechatToken WechatMessage.
Context `{JsNumber} `{JsonCodec} (config : Config).

Lemma refresh_result_settled (w : World) : refresh_result w <> OutOfFuel.
Proof.
  unfold refresh_result.
  destruct (token_endpoint w) as [|[r|] rest]; try discriminate.
  destruct (token_errcode r) as [[|p|p]|]; try discriminate;
    destruct (expires_in r <=? 0); discriminate.
Qed.

(** X11.  The lock never outlives a refresh.  A refresh that finds the lock
    free calls the credential endpoint exactly once and, whether the
    call succeeds, is refused or fails, the lock is free again when it
    ends; the clock and every key other than the token entry are as
    before. *)
Theorem refresh_releases_lock (fuel : nat) (w : World) :
  lookup_key TOKEN_LOCK_KEY w = None ->
  let r := refreshAccessToken config fuel w in
  fst r <> OutOfFuel
  /\ lookup_key TOKEN_LOCK_KEY (snd r) = None
  /\ trace (snd r) = (trace w ++ [fetch_event config])%list
  /\ token_endpoint (snd r) = List.tl (token_endpoint w)
  /\ send_endpoint (snd r) = send_endpoint w
  /\ clock (snd r) = clock w
  /\ (forall k, k <> TOKEN_KEY -> k <> TOKEN_LOCK_KEY ->
                lookup_key k (snd r) = lookup_key k w).
Proof.
  intros L r. unfold r, refreshAccessToken.
  destruct (refresh_free_run config (getAccessToken config fuel) w L)
    as (w' & -> & C & Se & Te & Tr & Lk & K & _).
  cbn [fst snd]. repeat split; auto using refresh_result_settled.
Qed.

(** X12.  A refresh that fails caches nothing.  When the credential
    endpoint answers with a non-zero [errcode] the refresh throws that
    error; when the request fails it throws the failure; when the
    reply carries a lifetime that is not positive, the store refuses
    the entry and the refresh throws that.  In each case the token
    entry is what it was, and the lock is released.  A forced refresh
    has deleted the entry before: when it fails, no token is left. *)
Theorem refresh_failure_keeps_cache (fuel : nat) (w : World) :
  lookup_key TOKEN_LOCK_KEY w = None ->
  let r := refreshAccessToken config fuel w in
  (forall reply rest errcode,
      token_endpoint w = Some reply :: rest ->
      token_rejected reply errcode ->
      fst r = Throw (WeChatApiError errcode (token_errmsg reply)))
  /\ (forall reply rest,
        token_endpoint w = Some reply :: rest ->
        token_ok reply -> expires_in reply <= 0 ->
        fst r = Throw RedisError)
  /\ (forall rest,
        token_endpoint w = None :: rest \/ token_endpoint w = [] ->
        fst r = Throw NetworkError)
  /\ (forall e,
        fst r = Throw e ->
        lookup_key TOKEN_KEY (snd r) = lookup_key TOKEN_KEY w
        /\ lookup_key TOKEN_LOCK_KEY (snd r) = None)
  /\ (forall e,
        fst (forceRefreshToken config fuel w) = Throw e ->
        lookup_key TOKEN_KEY (snd (forceRefreshToken config fuel w)) = None
        /\ lookup_key TOKEN_LOCK_KEY (snd (forceRefreshToken config fuel w))
           = None).
Proof.
  intros L r.
  assert (Forced : forall e,
             fst (forceRefreshToken config fuel w) = Throw e ->
             lookup_key TOKEN_KEY (snd (forceRefreshToken config fuel w)) = None
             /\ lookup_key TOKEN_LOCK_KEY
                  (snd (forceRefreshToken config fuel w)) = None).
  { assert (E : forceRefreshToken config fuel w
                = refreshAccessToken_with config (getAccessToken config fuel)
                    (without_key TOKEN_KEY w)) by reflexivity.
    rewrite E. clear E.
    assert (L0 : lookup_key TOKEN_LOCK_KEY (without_key TOKEN_KEY w) = None)
      by (rewrite lookup_key_without_other;
          [exact L | apply not_eq_sym, token_key_not_lock]).
    destruct (refresh_free_run config (getAccessToken config fuel)
                (without_key TOKEN_KEY w) L0)
      as (w' & -> & _ & _ & _ & _ & Lk & _ & Tk).
    cbn [fst snd]. intros e He. split; [|exact Lk].
    rewrite Tk, He. apply lookup_key_without_key. }
  unfold r, refreshAccessToken.
  destruct (refresh_free_run config (getAccessToken config fuel) w L)
    as (w' & -> & _ & _ & _ & _ & Lk & _ & Tk).
  cbn [fst snd]. repeat match goal with |- _ /\ _ => split end;
    [| | | |exact Forced].
  - intros reply rest errcode Te [Hc Hz]. unfold refresh_result.
    rewrite Te, Hc. destruct errcode; [tauto | reflexivity | reflexivity].
  - intros reply rest Te Hok He. unfold refresh_result. rewrite Te.
    replace (expires_in reply <=? 0) with true
      by (symmetry; now apply Z.leb_le).
    now destruct Hok as [-> | ->].
  - intros rest [Te | Te]; unfold refresh_result; now rewrite Te.
  - intros e He. split; [|exact Lk]. rewrite Tk, He. reflexivity.
Qed.

Lemma as_TokenCache_json (t : TokenCache) :
  as_TokenCache (TokenCache_json t) = Some t.
Proof. now destruct t. Qed.

(** The entry a successful refresh leaves in the store. *)
Lemma refresh_success_entry (g : M string) (w : World)
      (r : TokenResponse) (rest : list (option TokenResponse)) :
  lookup_key TOKEN_LOCK_KEY w = None ->
  token_endpoint w = Some r :: rest ->
  token_ok r ->
  0 < expires_in r ->
  let w' := snd (refreshAccessToken_with config g w) in
  fst (refreshAccessToken_with config g w) = Ok (access_token r)
  /\ redis w' !! TOKEN_KEY
     = Some (JSON_stringify (TokenCache_json (refreshed_entry w r)))
  /\ expiry w' !! TOKEN_KEY = Some (clock w + expires_in r * 1000)
  /\ clock w' = clock w.
Proof.
  intros L Ht Hok He. cbv zeta.
  destruct (refreshAccessToken_with config g w) as [res w'] eqn:Run.
  rewrite refreshAccessToken_with_unfold, L in Run.
  unfold try_finally, fetch_and_store, bind at 1, axios_get_token in Run.
  cbn [with_key token_endpoint] in Run. rewrite Ht in Run.
  cbv beta iota in Run.
  assert (E : match token_errcode r with
              | Some (Zpos _) | Some (Zneg _) => False
              | _ => True
              end) by now destruct Hok as [-> | ->].
  destruct (token_errcode r) as [[|p|p]|]; try tauto; clear E.
  all: unfold bind, now_seconds, redis_set_ex, unlock, bind, redis_del, ret
    in Run.
  all: cbn [clock fst snd] in Run.
  all: replace (expires_in r <=? 0) with false in Run
    by (symmetry; apply Z.leb_gt; lia).
  all: cbv beta iota zeta in Run; injection Run as <- <-.
  all: unfold without_key, with_key, refreshed_entry.
  all: cbn [fst snd redis expiry clock token_endpoint send_endpoint trace emit].
  all: rewrite !lookup_delete_ne by (apply not_eq_sym, token_key_not_lock).
  all: rewrite !lookup_insert_eq.
  all: repeat split.
Qed.

Lemma seconds_before (a b : Z) : a / 1000 < b -> a < b * 1000.
Proof.
  intros Hlt. pose proof (Z.div_mod a 1000 ltac:(lia)) as D.
  pose proof (Z.mod_pos_bound a 1000 ltac:(lia)). lia.
Qed.

(** X13.  The life of a cached token.  After a successful refresh, a call
    made [ms] milliseconds later is served from the cache, without
    any effect, exactly while its second lies more than the margin
    of 600 before the expiry; from then on it runs a refresh again,
    so that a token granted for 600 seconds or less is never served
    from the cache; and once the granted lifetime has passed the
    store has dropped the entry. *)
Theorem cached_token_lifetime (fuel : nat) (w : World)
        (reply : TokenResponse) (rest : list (option TokenResponse)) (ms : Z) :
  lookup_key TOKEN_LOCK_KEY w = None ->
  token_endpoint w = Some reply :: rest ->
  token_ok reply ->
  0 < expires_in reply ->
  stores_faithfully (TokenCache_json (refreshed_entry w reply)) ->
  0 <= ms ->
  let w1 := snd (refreshAccessToken config fuel w) in
  let w2 := snd (sleep ms w1) in
  fst (refreshAccessToken config fuel w) = Ok (access_token reply)
  /\ ((clock w + ms) / 1000 < clock w / 1000 + expires_in reply - 600 ->
      getAccessToken config (S fuel) w2 = (Ok (access_token reply), w2))
  /\ (clock w / 1000 + expires_in reply - 600 <= (clock w + ms) / 1000 ->
      getAccessToken config (S fuel) w2 = refreshAccessToken config fuel w2)
  /\ (expires_in reply <= 600 ->
      getAccessToken config (S fuel) w2 = refreshAccessToken config fuel w2)
  /\ (expires_in reply * 1000 <= ms -> lookup_key TOKEN_KEY w2 = None).
Proof.
  intros L Ht Hok He [Hne Hrt] Hms w1 w2.
  destruct (refresh_success_entry (getAccessToken config fuel) w reply rest
              L Ht Hok He) as (R & Rk & Xk & C).
  fold (refreshAccessToken config fuel w) in R, Rk, Xk, C. fold w1 in Rk, Xk, C.
  assert (Lk : lookup_key TOKEN_KEY w2
               = if clock w + ms <? clock w + expires_in reply * 1000
                 then Some (JSON_stringify
                              (TokenCache_json (refreshed_entry w reply)))
                 else None).
  { unfold lookup_key, live, w2, sleep. cbn [snd redis expiry clock].
    rewrite Rk, Xk, C. reflexivity. }
  assert (C2 : clock w2 = clock w + ms)
    by (unfold w2, sleep; cbn [snd clock]; now rewrite C).
  assert (Stale : clock w / 1000 + expires_in reply - 600
                  <= (clock w + ms) / 1000 ->
                  getAccessToken config (S fuel) w2
                  = refreshAccessToken config fuel w2).
  { intros Hs. rewrite getAccessToken_unfold, Lk.
    destruct (clock w + ms <? clock w + expires_in reply * 1000);
      [|reflexivity].
    destruct (JSON_stringify _) as [|c s] eqn:Es; [tauto|].
    rewrite Hrt, as_TokenCache_json. cbn [expiresAt refreshed_entry].
    rewrite C2. unfold TOKEN_REFRESH_THRESHOLD.
    replace (_ >? _) with false; [reflexivity|].
    symmetry. rewrite Z.gtb_ltb. apply Z.ltb_ge. lia. }
  repeat match goal with |- _ /\ _ => split end.
  - exact R.
  - intros Hf. apply (getAccessToken_fresh config fuel w2 (refreshed_entry w reply)).
    + unfold cached_token. rewrite Lk.
      replace (clock w + ms <? clock w + expires_in reply * 1000) with true.
      * destruct (JSON_stringify _) as [|c s] eqn:Es; [tauto|].
        now rewrite Hrt, as_TokenCache_json.
      * symmetry. apply Z.ltb_lt. apply seconds_before in Hf.
        pose proof (Z.mul_div_le (clock w) 1000 ltac:(lia)). lia.
    + unfold still_fresh, TOKEN_REFRESH_THRESHOLD. cbn [expiresAt refreshed_entry].
      rewrite C2. lia.
  - exact Stale.
  - intros Hshort. apply Stale.
    assert (clock w / 1000 <= (clock w + ms) / 1000)
      by (apply Z.div_le_mono; lia).
    lia.
  - intros Hlong. rewrite Lk.
    replace (clock w + ms <? clock w + expires_in reply * 1000) with false;
      [reflexivity|].
    symmetry. apply Z.ltb_ge. lia.
Qed.

(** X14.  A token entry that does not parse disables delivery.  The entry
    makes [getAccessToken] throw before it has done anything; the
    sender turns that into [false], so that no message goes out, the
    credential endpoint is not asked, and the entry stays in place. *)
Theorem corrupt_token_entry_blocks_sending
        (fuel : nat) (w : World) (data : string)
        (message : CustomerServiceMessage) (retry : bool)
        (openId content : string) :
  lookup_key TOKEN_KEY w = Some data ->
  data <> "" ->
  JSON_parse data = None ->
  getAccessToken config (S fuel) w = (Throw SyntaxError, w)
  /\ sendCustomerServiceMessage config (S fuel) message retry w = (Ok false, w)
  /\ (len content <= 600 ->
      sendTextMessage config (S fuel) openId content w = (Ok false, w)).
Proof.
  intros L Hne P.
  assert (G : getAccessToken config (S fuel) w = (Throw SyntaxError, w)).
  { rewrite getAccessToken_unfold, L. destruct data; [tauto|]. now rewrite P. }
  assert (S : forall m r,
             sendCustomerServiceMessage config (S fuel) m r w = (Ok false, w)).
  { intros m r. unfold sendCustomerServiceMessage.
    unfold sendCustomerServiceMessage_with at 1, try_catch, bind at 1.
    now rewrite G. }
  split; [exact G|]. split; [apply S|].
  intros Hlen. unfold sendTextMessage.
  replace (len content <=? Z.of_nat Chunking.MAX_LENGTH) with true
    by (symmetry; now apply Z.leb_le).
  apply S.
Qed.

End TokenRefresh.

(** ** services/wechat-token.ts: waiting for the lock *)

Section LockWait.
Import WechatToken WechatMessage.
Context `{JsNumber} `{JsonCodec} (config : Config).

(** X15.  A lock left behind delays a refresh but does not block it.  With
    no token in the cache and the lock held until [deadline], a call
    waits in steps of one second until the lock has expired, exactly
    [k] times when [deadline] falls within the [k]-th second from
    now, then takes the lock, calls the credential endpoint once and
    releases the lock; the outcome is that of a refresh made at that
    time. *)
Theorem getAccessToken_waits_for_lock
        (fuel k : nat) (w : World) (holder : string) (deadline : Z) :
  redis w !! TOKEN_KEY = None ->
  redis w !! TOKEN_LOCK_KEY = Some holder ->
  expiry w !! TOKEN_LOCK_KEY = Some deadline ->
  clock w + 1000 * (Z.of_nat k - 1) < deadline <= clock w + 1000 * Z.of_nat k ->
  exists w',
    getAccessToken config (S (k + fuel)) w = (refresh_result w, w')
    /\ trace w'
       = (trace w ++ repeat (EvSleep 1000) k ++ [fetch_event config])%list
    /\ clock w' = clock w + 1000 * Z.of_nat k
    /\ lookup_key TOKEN_LOCK_KEY w' = None.
Proof.
  revert w; induction k as [|k IH]; intros w Rt Rl Xl Hd.
  - assert (L : lookup_key TOKEN_LOCK_KEY w = None).
    { unfold lookup_key, live. rewrite Xl.
      replace (clock w <? deadline) with false
        by (symmetry; apply Z.ltb_ge; lia).
      reflexivity. }
    cbn [Nat.add]. rewrite getAccessToken_unfold.
    assert (Lt : lookup_key TOKEN_KEY w = None).
    { unfold lookup_key. rewrite Rt. now destruct (live TOKEN_KEY w). }
    rewrite Lt. unfold refreshAccessToken.
    destruct (refresh_free_run config (getAccessToken config fuel) w L)
      as (w' & -> & C & _ & _ & Tr & Lk & _).
    exists w'. cbn [repeat app]. repeat split; try assumption. lia.
  - assert (L : lookup_key TOKEN_LOCK_KEY w = Some holder).
    { unfold lookup_key, live. rewrite Xl, Rl.
      replace (clock w <? deadline) with true
        by (symmetry; apply Z.ltb_lt; lia).
      reflexivity. }
    assert (Lt : lookup_key TOKEN_KEY w = None).
    { unfold lookup_key. rewrite Rt. now destruct (live TOKEN_KEY w). }
    cbn [Nat.add]. rewrite getAccessToken_unfold, Lt.
    unfold refreshAccessToken. rewrite refreshAccessToken_with_unfold, L.
    destruct (IH (snd (sleep 1000 w))) as (w' & -> & Tr & C & Lk);
      try assumption.
    { cbn [sleep snd clock]. lia. }
    exists w'. split; [reflexivity|].
    cbn [sleep snd clock trace] in Tr, C.
    rewrite Tr, C, <- app_assoc. cbn [repeat app]. repeat split; [|exact Lk].
    lia.
Qed.

End LockWait.

(** ** services/wechat-message.ts: one send, and the loop over the chunks *)

Section Delivery.
Import WechatToken WechatMessage Chunking.
Context `{JsNumber} `{JsonCodec} (config : Config).

(** The send API took the message: it answered, with [errcode 0]. *)
Definition delivered (answer : option SendResponse) : bool :=
  match answer with
  | Some r => errcode_is (send_errcode r) 0
  | None => false
  end.

(** The world after one call to the send API. *)
Definition after_send (token : string) (message : CustomerServiceMessage)
           (later : list (option SendResponse)) (w : World) : World :=
  {| redis := redis w; expiry := expiry w; clock := clock w;
     token_endpoint := token_endpoint w;
     send_endpoint := later;
     trace := (trace w ++ [EvSend token message])%list |}.

(** One send with a fresh token and an answer that asks for no retry:
    one call, and the answer decides. *)
Lemma send_once (fuel : nat) (w : World) (tokenData : TokenCache)
      (message : CustomerServiceMessage) (retry : bool)
      (answer : option SendResponse) (later : list (option SendResponse)) :
  cached_token w = Some tokenData ->
  still_fresh w tokenData ->
  send_endpoint w = answer :: later ->
  (forall r, answer = Some r -> send_errcode r = Some 40001 -> retry = false) ->
  sendCustomerServiceMessage config (S fuel) message retry w
  = (Ok (delivered answer), after_send (accessToken tokenData) message later w).
Proof.
  intros Hc Hf Hs Ha. unfold sendCustomerServiceMessage.
  unfold sendCustomerServiceMessage_with at 1, try_catch, bind at 1.
  rewrite (getAccessToken_fresh config fuel w tokenData Hc Hf).
  unfold bind at 1, axios_post_send. rewrite Hs.
  destruct answer as [r|]; cbv beta iota; [|reflexivity].
  unfold delivered.
  destruct (errcode_is (send_errcode r) 0) eqn:E0; [reflexivity|].
  destruct (errcode_is (send_errcode r) 40001 && retry) eqn:E; [|reflexivity].
  apply andb_true_iff in E as [E1 E2]. unfold errcode_is in E1.
  destruct (send_errcode r) as [c|] eqn:Ec; [|discriminate].
  apply Z.eqb_eq in E1. subst c. rewrite (Ha r eq_refl Ec) in E2.
  discriminate.
Qed.

(** The cache holds [tokenData], readable and fresh at every time up
    to [t] milliseconds. *)
Definition token_until (t : Z) (tokenData : TokenCache) (w : World) : Prop :=
  (exists data v,
      redis w !! TOKEN_KEY = Some data /\ data <> ""
      /\ JSON_parse data = Some v /\ as_TokenCache v = Some tokenData)
  /\ (forall deadline, expiry w !! TOKEN_KEY = Some deadline -> t < deadline)
  /\ t / 1000 < expiresAt tokenData - TOKEN_REFRESH_THRESHOLD.

Lemma token_until_now (t : Z) (tokenData : TokenCache) (w : World) :
  token_until t tokenData w -> clock w <= t ->
  cached_token w = Some tokenData /\ still_fresh w tokenData.
Proof.
  intros ((data & v & R & Hne & P & A) & X & F) Hc. split.
  - unfold cached_token, lookup_key, live.
    destruct (expiry w !! TOKEN_KEY) as [d|] eqn:E.
    + specialize (X d eq_refl).
      replace (clock w <? d) with true by (symmetry; apply Z.ltb_lt; lia).
      rewrite R. destruct data; [tauto|]. now rewrite P.
    + rewrite R. destruct data; [tauto|]. now rewrite P.
  - unfold still_fresh.
    assert (clock w / 1000 <= t / 1000) by (apply Z.div_le_mono; lia). lia.
Qed.

Lemma token_until_same (t : Z) (tokenData : TokenCache) (w w' : World) :
  redis w' = redis w -> expiry w' = expiry w ->
  token_until t tokenData w -> token_until t tokenData w'.
Proof. unfold token_until. now intros -> ->. Qed.

Definition text_to (token openId : string) (text : string) : Effect :=
  EvSend token (CustomerServiceTextMessage openId text).

Lemma sends_after_send (token : string) (message : CustomerServiceMessage)
      (later : list (option SendResponse)) (w : World) :
  sends (after_send token message later w)
  = (sends w ++ [EvSend token message])%list.
Proof. unfold sends, after_send; cbn [trace]. now rewrite List.filter_app. Qed.

(** The loop over the chunks, with a token that stays fresh and
    answers that ask for no retry. *)
Lemma send_chunks_run (fuel : nat) (openId : string) (tokenData : TokenCache)
      (total : nat) (chunks : list string) :
  forall (i : nat) (success : bool) (answers later : list (option SendResponse))
         (w : World),
    (i + List.length chunks = total)%nat ->
    token_until (clock w + 100 * Z.of_nat (Nat.pred (List.length chunks)))
                tokenData w ->
    send_endpoint w = (answers ++ later)%list ->
    List.length answers = List.length chunks ->
    (forall r, In (Some r) answers -> send_errcode r <> Some 40001) ->
    exists w',
      send_chunks config (S fuel) openId total i chunks success w
      = (Ok (success && forallb delivered answers), w')
      /\ sends w'
         = (sends w ++ List.map (text_to (accessToken tokenData) openId)
                               (number_from i total chunks))%list
      /\ send_endpoint w' = later
      /\ token_endpoint w' = token_endpoint w
      /\ redis w' = redis w /\ expiry w' = expiry w
      /\ clock w'
         = clock w + 100 * Z.of_nat (Nat.pred (List.length chunks)).
Proof.
  induction chunks as [|c rest IH];
    intros i success answers later w Hi Ht Hs Hl Hn.
  - destruct answers; [|discriminate]. exists w. cbn.
    rewrite andb_true_r, app_nil_r, Z.add_0_r. repeat split. exact Hs.
  - destruct answers as [|a answers]; [discriminate|].
    cbn [List.length] in *. cbn [send_chunks].
    destruct (token_until_now _ _ _ Ht ltac:(lia)) as [Hc Hf].
    unfold bind at 1.
    rewrite (send_once fuel w tokenData _ true a (answers ++ later) Hc Hf Hs)
      by (intros r -> E; destruct (Hn r (or_introl eq_refl) E)).
    set (w1 := after_send (accessToken tokenData)
                 (CustomerServiceTextMessage openId (chunkText total i c))
                 (answers ++ later) w).
    assert (Hlast : (Z.of_nat i <? Z.of_nat total - 1)
                    = negb (Nat.eqb (List.length rest) 0)).
    { destruct rest; cbn [List.length Nat.eqb negb];
        [apply Z.ltb_ge | apply Z.ltb_lt]; cbn [List.length] in Hi; lia. }
    rewrite Hlast.
    destruct rest as [|c' rest'].
    + cbn [List.length Nat.eqb negb]. unfold bind at 1, ret.
      destruct answers; [|discriminate].
      cbn [send_chunks ret forallb app List.length Nat.pred number_from List.map].
      exists w1. unfold w1. rewrite sends_after_send.
      replace (if negb (delivered a) then false else success)
        with (success && (delivered a && true))
        by (destruct success, (delivered a); reflexivity).
      repeat split. unfold after_send; cbn. lia.
    + cbn [Nat.eqb negb List.length]. unfold bind at 1, sleep.
      set (w2 := {| redis := redis w1; expiry := expiry w1;
                    clock := clock w1 + 100;
                    token_endpoint := token_endpoint w1;
                    send_endpoint := send_endpoint w1;
                    trace := (trace w1 ++ [EvSleep 100])%list |}).
      destruct (IH (S i) (if negb (delivered a) then false else success)
                   answers later w2) as (w' & -> & Sd & Se & Te & R & X & C).
      * cbn [List.length] in *. lia.
      * apply (token_until_same _ _ w); [reflexivity | reflexivity |].
        cbn [List.length Nat.pred] in *.
        replace (clock w2) with (clock w + 100) by reflexivity.
        replace (clock w + 100 + 100 * Z.of_nat (List.length rest'))
          with (clock w + 100 * Z.of_nat (S (List.length rest'))) by lia.
        exact Ht.
      * reflexivity.
      * cbn [List.length] in *. lia.
      * intros r Hr. apply Hn. now right.
      * exists w'. split.
        { f_equal. f_equal. cbn [forallb].
          destruct success, (delivered a); reflexivity. }
        split.
        { rewrite Sd. cbn [number_from List.map].
          replace (sends w2) with (sends w1).
          - unfold w1. rewrite sends_after_send, <- app_assoc. reflexivity.
          - unfold sends, w2; cbn [trace]. rewrite List.filter_app. cbn.
            now rewrite app_nil_r. }
        split; [exact Se|]. split; [exact Te|]. split; [exact R|].
        split; [exact X|]. rewrite C.
        replace (clock w2) with (clock w + 100) by reflexivity.
        cbn [List.length Nat.pred]. lia.
Qed.

End Delivery.

(** ** services/wechat-message.ts and routes/callback.ts: delivery *)

Section DeliveryFacts.
Import WechatToken WechatMessage Chunking RedisService CallbackRoutes.
Context `{JsNumber} `{JsonCodec} (config : Config).

(** X16.  Only error 40001 is retried.  With a fresh token in the cache, a
    send that the platform answers with any other non-zero code, or
    without a code, or that fails on the network, ends in [false]
    after that one call: the token is kept and no refresh is made.
    The same holds for 40001 itself when the retry is switched
    off. *)
Theorem send_failure_without_retry
        (fuel : nat) (w : World) (tokenData : TokenCache)
        (message : CustomerServiceMessage) (retry : bool)
        (answer : option SendResponse) (later : list (option SendResponse)) :
  cached_token w = Some tokenData ->
  still_fresh w tokenData ->
  send_endpoint w = answer :: later ->
  match answer with
  | Some r =>
      send_errcode r <> Some 0
      /\ (send_errcode r = Some 40001 -> retry = false)
  | None => True
  end ->
  exists w',
    sendCustomerServiceMessage config (S fuel) message retry w = (Ok false, w')
    /\ trace w' = (trace w ++ [EvSend (accessToken tokenData) message])%list
    /\ send_endpoint w' = later
    /\ token_endpoint w' = token_endpoint w
    /\ clock w' = clock w
    /\ (forall k, lookup_key k w' = lookup_key k w).
Proof.
  intros Hc Hf Hs Ha.
  exists (after_send (accessToken tokenData) message later w).
  rewrite (send_once config fuel w tokenData message retry answer later Hc Hf Hs).
  - replace (delivered answer) with false; [now repeat split|].
    destruct answer as [r|]; [|reflexivity]. destruct Ha as [Hzero _].
    unfold delivered, errcode_is. destruct (send_errcode r) as [c|];
      [|reflexivity].
    symmetry. apply Z.eqb_neq. congruence.
  - intros r -> E. now apply Ha.
Qed.

(** X17.  A long text is delivered chunk by chunk to the end.  With a token
    that stays fresh for the 100 ms pauses between the chunks and
    answers that ask for no retry, every chunk goes out, once and in
    order, the first as it is and the others behind their marker,
    also after a chunk has failed; the result is [true] exactly when
    every chunk was accepted. *)
Theorem sendTextMessage_sends_every_chunk
        (fuel : nat) (w : World) (tokenData : TokenCache)
        (openId content : string) (chunks : list string)
        (answers later : list (option SendResponse)) :
  Z.of_nat MAX_LENGTH < len content ->
  splitChunks content = Some chunks ->
  token_until (clock w + 100 * Z.of_nat (Nat.pred (List.length chunks)))
              tokenData w ->
  send_endpoint w = (answers ++ later)%list ->
  List.length answers = List.length chunks ->
  (forall r, In (Some r) answers -> send_errcode r <> Some 40001) ->
  exists w',
    sendTextMessage config (S fuel) openId content w
    = (Ok (forallb delivered answers), w')
    /\ sends w'
       = (sends w ++ List.map (text_to (accessToken tokenData) openId)
                             (number_from 0 (List.length chunks) chunks))%list
    /\ send_endpoint w' = later
    /\ token_endpoint w' = token_endpoint w
    /\ redis w' = redis w /\ expiry w' = expiry w
    /\ clock w' = clock w + 100 * Z.of_nat (Nat.pred (List.length chunks)).
Proof.
  intros Hlong Hc Ht Hs Hl Hn. unfold sendTextMessage.
  replace (len content <=? Z.of_nat MAX_LENGTH) with false
    by (symmetry; apply Z.leb_gt; lia).
  rewrite Hc.
  destruct (send_chunks_run config fuel openId tokenData (List.length chunks)
              chunks 0 true answers later w eq_refl Ht Hs Hl Hn)
    as (w' & E & Rest).
  exists w'. now rewrite E.
Qed.

Lemma rebuilds_count (chunks : list string) (content : string) :
  Rebuilds chunks content ->
  Forall (fun c => 300 <= len c) (removelast chunks) ->
  300 * (Z.of_nat (List.length chunks) - 1) <= len content.
Proof.
  induction 1 as [|c|c sp rest cs Hsp Hre IH]; intros Hmin.
  - unfold len; simpl. lia.
  - unfold len; simpl. lia.
  - unfold len in *. rewrite !length_append.
    destruct cs as [|c' cs]; [simpl; lia|].
    change (removelast (c :: c' :: cs)) with (c :: removelast (c' :: cs))
      in Hmin.
    inversion Hmin as [|? ? Hc Hmin']; subst.
    specialize (IH Hmin'). cbn [List.length] in *. lia.
Qed.

(** The number of chunks of a text is bounded by its length. *)
Lemma splitChunks_count (content : string) (chunks : list string) :
  splitChunks content = Some chunks ->
  Z.of_nat (List.length chunks) <= len content / 300 + 1.
Proof.
  intros Hc. apply split_loop_spec in Hc as (_ & Hmin & Hre).
  pose proof (rebuilds_count chunks content Hre Hmin) as B.
  assert (Z.of_nat (List.length chunks) - 1 <= len content / 300)
    by (apply Z.div_le_lower_bound; lia).
  lia.
Qed.

Lemma sends_send_chunks (fuel : nat) (openId : string) (total : nat)
      (chunks : list string) :
  forall (i : nat) (success : bool) (w : World),
    (List.length
       (sends (snd (send_chunks config fuel openId total i chunks success w)))
     <= List.length (sends w) + 2 * List.length chunks)%nat.
Proof.
  induction chunks as [|c rest IH]; intros i success w; cbn [send_chunks].
  - cbn. lia.
  - unfold bind at 1.
    pose proof (sends_sendCustomerServiceMessage config fuel
                  (CustomerServiceTextMessage openId (chunkText total i c))
                  true w) as B.
    cbv iota in B.
    destruct (sendCustomerServiceMessage config fuel _ true w)
      as [[result|e|] w1]; cbn [snd List.length] in *; try lia.
    unfold bind at 1.
    assert (P : exists w2,
               (if Z.of_nat i <? Z.of_nat total - 1 then sleep 100 else ret tt)
                 w1 = (Ok tt, w2) /\ sends w2 = sends w1).
    { destruct (_ <? _).
      - exists (snd (sleep 100 w1)). split; [reflexivity | apply silent_sleep].
      - now exists w1. }
    destruct P as (w2 & -> & S2).
    specialize (IH (S i) (if negb result then false else success) w2).
    rewrite S2 in IH. lia.
Qed.

(** X18.  What a delivery can cost.  A text is cut into at most one chunk
    per 300 code units and one more, and each chunk costs at most two
    calls to the send API: whatever the platform answers, delivering
    [content] makes at most [2 * (length / 300 + 1)] calls. *)
Theorem sendTextMessage_call_budget
        (fuel : nat) (openId content : string) (w : World) :
  (forall chunks,
      splitChunks content = Some chunks ->
      Z.of_nat (List.length chunks) <= len content / 300 + 1)
  /\ (List.length
        (sends (snd (sendTextMessage config fuel openId content w)))
      <= List.length (sends w) + 2 * Z.to_nat (len content / 300 + 1))%nat.
Proof.
  split; [apply splitChunks_count|].
  assert (Hpos : 0 <= len content / 300)
    by (apply Z.div_pos; unfold len; lia).
  unfold sendTextMessage.
  destruct (len content <=? Z.of_nat MAX_LENGTH).
  - pose proof (sends_sendCustomerServiceMessage config fuel
                  (CustomerServiceTextMessage openId content) true w) as B.
    cbv iota in B. lia.
  - destruct (splitChunks content) as [chunks|] eqn:Hc; [|cbn; lia].
    pose proof (sends_send_chunks fuel openId (List.length chunks) chunks
                  0 true w).
    pose proof (splitChunks_count content chunks Hc). lia.
Qed.

(** X19.  The streaming callback keeps nothing.  A chunk that is not the
    last is acknowledged with [{ok: true, buffered: true}] and
    dropped: nothing is stored and nothing is sent, however many such
    chunks arrive.  The last chunk alone is the text delivered, and
    the answer to it is a 200 also when the delivery failed, [ok]
    then being [false]. *)
Theorem post_callback_stream_keeps_nothing
        (fuel n : nat) (openId : string) (w : World) :
  (forall chunk,
      post_callback_stream config fuel openId chunk false w
      = (Ok {| status := 200; contentType := None;
               body := BodyJson (JObj [("ok", JBool true);
                                       ("buffered", JBool true)]) |}, w))
  /\ (forall earlier,
        fold_left
          (fun w0 chunk =>
             snd (post_callback_stream config fuel openId chunk false w0))
          earlier w = w)
  /\ (forall last,
        lock_free_within n w -> (n < fuel)%nat ->
        exists sent w',
          sendTextMessage config fuel openId last w = (Ok sent, w')
          /\ post_callback_stream config fuel openId last true w
             = (Ok {| status := 200; contentType := None;
                      body := BodyJson (JObj [("ok", JBool sent)]) |}, w')).
Proof.
  split; [reflexivity|]. split.
  - induction earlier as [|c earlier IH]; [reflexivity | exact IH].
  - intros last Hw Hn.
    destruct (returns_sendTextMessage config fuel n openId last Hn w Hw)
      as (sent & w' & E & _).
    exists sent, w'. split; [exact E|].
    unfold post_callback_stream, bind. now rewrite E.
Qed.

End DeliveryFacts.

(** ** config.ts *)

Section ConfigFacts.
Import ConfigLoader.
Context `{ParseInt}.

(** The variable is not set, or set to the empty string. *)
Definition unset (env : gmap string string) (key : string) : Prop :=
  env !! key = None \/ env !! key = Some "".

(** The variables [loadConfig] requires, in the order it reads them. *)
Definition REQUIRED : list string :=
  ["WECHAT_APPID"; "WECHAT_APPSECRET"; "WECHAT_TOKEN"; "BRIDGE_BASE_URL"].

Lemma requireEnv_unset (env : gmap string string) (key : string) :
  unset env key ->
  requireEnv env key
  = Loaded_error ("Missing required environment variable: " +++ key).
Proof. unfold requireEnv. now intros [-> | ->]. Qed.

Lemma requireEnv_set (env : gmap string string) (key : string) :
  ~ unset env key ->
  exists value, env !! key = Some value /\ requireEnv env key = Loaded_ok value.
Proof.
  unfold unset, requireEnv. intros Hs.
  destruct (env !! key) as [[|c s]|]; [tauto | now eexists | tauto].
Qed.

Lemma or_else_unset (env : gmap string string) (key d : string) :
  unset env key -> or_else (env !! key) d = d.
Proof. now intros [-> | ->]. Qed.

(** X20.  Loading the configuration fails exactly when a required variable
    is missing or empty, and the error names the first such variable
    in the order [WECHAT_APPID], [WECHAT_APPSECRET], [WECHAT_TOKEN],
    [BRIDGE_BASE_URL].  When all four are set the configuration holds
    their values as they are, and the optional variables fall back to
    their defaults when missing or empty. *)
Theorem loadConfig_required (env : gmap string string) :
  (forall before key after,
      REQUIRED = (before ++ key :: after)%list ->
      Forall (fun k => ~ unset env k) before ->
      unset env key ->
      loadConfig env
      = Loaded_error ("Missing required environment variable: " +++ key))
  /\ (Forall (fun k => ~ unset env k) REQUIRED ->
      exists config,
        loadConfig env = Loaded_ok config
        /\ env !! "WECHAT_APPID" = Some (wechat_appId (services config))
        /\ env !! "WECHAT_APPSECRET" = Some (wechat_appSecret (services config))
        /\ env !! "WECHAT_TOKEN" = Some (wechat_token (services config))
        /\ env !! "BRIDGE_BASE_URL" = Some (bridge_baseUrl (services config))
        /\ wechat_encodingAESKey config = env !! "WECHAT_ENCODING_AES_KEY"
        /\ port config = parseInt10 (or_else (env !! "PORT") "3000")
        /\ (unset env "PORT" -> port config = parseInt10 "3000")
        /\ (unset env "HOST" -> host config = "0.0.0.0")
        /\ (unset env "REDIS_URL" -> redis_url config = "redis://localhost:6379")
        /\ (forall value, env !! "HOST" = Some value -> value <> "" ->
                          host config = value)
        /\ (forall value, env !! "REDIS_URL" = Some value -> value <> "" ->
                          redis_url config = value)).
Proof.
  split.
  - intros before key after E Hb Hk. unfold REQUIRED in E.
    unfold loadConfig.
    destruct before as [|k1 [|k2 [|k3 [|k4 before]]]]; cbn in E.
    + injection E as <- _. now rewrite requireEnv_unset.
    + injection E as <- <- _.
      inversion Hb as [|? ? H1 _]; subst.
      destruct (requireEnv_set env _ H1) as (v1 & _ & ->).
      now rewrite requireEnv_unset.
    + injection E as <- <- <- _.
      inversion Hb as [|? ? H1 Hb']; subst.
      inversion Hb' as [|? ? H2 _]; subst.
      destruct (requireEnv_set env _ H1) as (v1 & _ & ->).
      destruct (requireEnv_set env _ H2) as (v2 & _ & ->).
      now rewrite requireEnv_unset.
    + injection E as <- <- <- <- _.
      inversion Hb as [|? ? H1 Hb']; subst.
      inversion Hb' as [|? ? H2 Hb'']; subst.
      inversion Hb'' as [|? ? H3 _]; subst.
      destruct (requireEnv_set env _ H1) as (v1 & _ & ->).
      destruct (requireEnv_set env _ H2) as (v2 & _ & ->).
      destruct (requireEnv_set env _ H3) as (v3 & _ & ->).
      now rewrite requireEnv_unset.
    + injection E as _ _ _ _ E. destruct before; discriminate.
  - intros Hall. unfold REQUIRED in Hall.
    inversion Hall as [|? ? H1 Hall1]; subst.
    inversion Hall1 as [|? ? H2 Hall2]; subst.
    inversion Hall2 as [|? ? H3 Hall3]; subst.
    inversion Hall3 as [|? ? H4 _]; subst.
    destruct (requireEnv_set env _ H1) as (v1 & E1 & R1).
    destruct (requireEnv_set env _ H2) as (v2 & E2 & R2).
    destruct (requireEnv_set env _ H3) as (v3 & E3 & R3).
    destruct (requireEnv_set env _ H4) as (v4 & E4 & R4).
    unfold loadConfig. rewrite R1, R2, R3, R4.
    eexists. split; [reflexivity|]. cbn.
    repeat match goal with |- _ /\ _ => split end;
      try assumption; try reflexivity.
    + intros U. now rewrite or_else_unset.
    + intros U. now rewrite or_else_unset.
    + intros U. now rewrite or_else_unset.
    + intros value -> Hv. now destruct value.
    + intros value -> Hv. now destruct value.
Qed.

(** X21.  The configuration is read once.  The first call of [getConfig]
    that succeeds fixes the configuration: every later call returns
    it, whatever the environment has become.  A call that fails
    fixes nothing, so the next call reads the environment again. *)
Theorem getConfig_reads_once
        (env : gmap string string) (configInstance : option ServerConfig) :
  (forall config configInstance',
      getConfig env configInstance = (Loaded_ok config, configInstance') ->
      configInstance' = Some config
      /\ forall env',
          getConfig env' configInstance' = (Loaded_ok config, configInstance'))
  /\ (forall message configInstance',
        getConfig env configInstance = (Loaded_error message, configInstance') ->
        configInstance = None /\ configInstance' = None
        /\ loadConfig env = Loaded_error message
        /\ forall env',
            fst (getConfig env' configInstance') = loadConfig env').
Proof.
  unfold getConfig. split.
  - intros config st' E.
    destruct configInstance as [c|].
    + injection E as <- <-. now split.
    + destruct (loadConfig env) as [c|m]; [|discriminate].
      injection E as <- <-. now split.
  - intros message st' E.
    destruct configInstance as [c|]; [discriminate|].
    destruct (loadConfig env) as [c|m] eqn:L; [discriminate|].
    injection E as <- <-. repeat split.
    intros env'. now destruct (loadConfig env').
Qed.

End ConfigFacts.

(** ** services/wechat-message.ts: a retry without a token *)

Section RetryAbandoned.
Import WechatToken WechatMessage.
Context `{JsNumber} `{JsonCodec} (config : Config).

(** X22.  A retry that cannot get a token is given up.  When the
    send API rejects a fresh cached token with [errcode 40001] and the
    refresh that follows fails, the sender returns [false] after that
    one send and one call to the credential endpoint; the rejected
    token has been deleted from the cache and the lock is free, so
    the next delivery starts with a refresh. *)
Theorem retry_abandoned_when_refresh_fails
        (fuel : nat) (w : World) (tokenData : TokenCache)
        (message : CustomerServiceMessage)
        (rejected : SendResponse) (later : list (option SendResponse))
        (e : Error) :
  cached_token w = Some tokenData ->
  still_fresh w tokenData ->
  lookup_key TOKEN_LOCK_KEY w = None ->
  send_endpoint w = Some rejected :: later ->
  send_errcode rejected = Some 40001 ->
  refresh_result w = Throw e ->
  exists w',
    sendCustomerServiceMessage config (S fuel) message true w = (Ok false, w')
    /\ trace w'
       = (trace w ++ [EvSend (accessToken tokenData) message;
                      fetch_event config])%list
    /\ send_endpoint w' = later
    /\ lookup_key TOKEN_KEY w' = None
    /\ lookup_key TOKEN_LOCK_KEY w' = None
    /\ (forall fuel',
          getAccessToken config (S fuel') w' = refreshAccessToken config fuel' w').
Proof.
  intros Hc Hf L Hs Hrej Hfail. unfold sendCustomerServiceMessage.
  unfold sendCustomerServiceMessage_with at 1, try_catch, bind at 1.
  rewrite (getAccessToken_fresh config fuel w tokenData Hc Hf).
  unfold bind at 1, axios_post_send. rewrite Hs. cbv beta iota zeta.
  rewrite Hrej. cbn [errcode_is Z.eqb Pos.eqb andb]. cbv beta iota.
  set (w1 := {| redis := redis (emit (EvSend (accessToken tokenData) message) w);
                expiry := _; clock := _; token_endpoint := _;
                send_endpoint := later; trace := _ |}).
  assert (E : forceRefreshToken config (S fuel) w1
              = refreshAccessToken_with config (getAccessToken config (S fuel))
                  (without_key TOKEN_KEY w1)) by reflexivity.
  assert (L1 : lookup_key TOKEN_LOCK_KEY (without_key TOKEN_KEY w1) = None).
  { rewrite lookup_key_without_other by (apply not_eq_sym, token_key_not_lock).
    exact L. }
  destruct (refresh_free_run config (getAccessToken config (S fuel))
              (without_key TOKEN_KEY w1) L1)
    as (w' & R & _ & Se & _ & Tr & Lk & _ & Tk).
  change (refresh_result (without_key TOKEN_KEY w1)) with (refresh_result w)
    in R, Tk.
  rewrite Hfail in R, Tk. rewrite lookup_key_without_key in Tk.
  unfold bind at 1. rewrite E, R. exists w'. unfold ret.
  repeat match goal with |- _ /\ _ => split end; try assumption.
  - reflexivity.
  - rewrite Tr. unfold w1; cbn [without_key trace emit].
    now rewrite <- app_assoc.
  - intros fuel'. rewrite getAccessToken_unfold. now rewrite Tk.
Qed.

End RetryAbandoned.

(** * Concrete runs, on the reference implementation *)

Module Scenario.
Import Reference Signature Chunking RedisService WechatToken WechatMessage.
Import Forwarder WechatRoutes CallbackRoutes.

Definition config0 : Config :=
  {| wechat_appId := "wx0123456789abcdef";
     wechat_appSecret := "app-secret";
     wechat_token := "tok";
     bridge_baseUrl := "https://bridge.example" |}.

(** A store with no entry, at a time of day. *)
Definition world0 : World :=
  {| redis := ∅; expiry := ∅; clock := 1700000000000;
     token_endpoint := []; send_endpoint := []; trace := [] |}.

(** A message of the given kind from [from], with a content as the
    parser delivers it or without one. *)
Definition message_with (from kind : string) (content : option TagValue)
  : WeChatMessage :=
  {| ToUserName := "gh_account"; FromUserName := from;
     CreateTime := 1700000000; MsgType := kind; Content := content;
     MsgId := Some (TagNumber 23659210); Event := None; EventKey := None;
     PicUrl := None; MediaId := None; Format := None; Recognition := None;
     ThumbMediaId := None; Location_X := None; Location_Y := None;
     Scale := None; Label := None; Title := None; Description := None;
     Url := None |}.

(** The same, for a content that reads neither as a number nor as a
    boolean. *)
Definition message_from (from kind : string) (content : option string)
  : WeChatMessage :=
  message_with from kind (option_map TagString content).

Definition url1 : string := "http://runtime.example/webhook".
Definition url2 : string := "http://other.example/hook".

Definition bind1 : WeChatMessage :=
  message_from "U1" "text" (Some ("bind " +++ url1 +++ " " +++ "tok1")).
Definition bind2 : WeChatMessage :=
  message_from "U1" "text" (Some ("bind " +++ url2 +++ " " +++ "tok2")).
Definition unbind0 : WeChatMessage :=
  message_from "U1" "text" (Some "unbind").

(** The store after [U1] has bound [url1]. *)
Definition world1 : World := snd (handleMessage config0 bind1 world0).

(** [world0] with a cached platform token that expires [ttl] seconds
    from now, and the replies the platform is going to give. *)
Definition world_with_token (ttl : Z)
           (sendings : list (option SendResponse))
           (tokens : list (option TokenResponse)) : World :=
  {| redis :=
       {[ TOKEN_KEY :=
            JSON_stringify
              (TokenCache_json
                 {| accessToken := "T0";
                    expiresAt := 1700000000 + ttl |}) ]};
     expiry := ∅; clock := 1700000000000;
     token_endpoint := tokens; send_endpoint := sendings; trace := [] |}.

Definition goodToken : TokenResponse :=
  {| token_errcode := None; token_errmsg := "";
     access_token := "T1"; expires_in := 7200 |}.

Definition hello : CustomerServiceMessage :=
  CustomerServiceTextMessage "U1" "hello".

Definition a1450 : string := replicate_char 1450 "a".

(** 1450 code units, no line feed: four runs of 300 letters, each
    followed by a space, and 246 letters. *)
Definition spaced1450 : string :=
  (replicate_char 300 "a" +++ " ") +++ (replicate_char 300 "b" +++ " ")
    +++ (replicate_char 300 "c" +++ " ") +++ (replicate_char 300 "d" +++ " ")
    +++ replicate_char 246 "e".

Definition answer42 (thinking : Z) : ClawdbotCallbackPayload :=
  {| success := true; result := Some "42"; error := None;
     metadata := Some {| chunks := None; thinking_time_ms := Some thinking |} |}.

(** *** C3 *)

Lemma C3_signature_roundtrip_witness :
  validateSignature "tok" (generateSignature "tok" "1409735669" "nonce")
                    "1409735669" "nonce" = true
  /\ generateSignature "tok" "1409735669" "nonce"
     = "b33bbce8570df174133e402c6c0596b45d7d9641"
  /\ validateSignature "tok" "x33bbce8570df174133e402c6c0596b45d7d9641"
                       "1409735669" "nonce" = false.
Proof.
  destruct (C3_signature_roundtrip "tok" "1409735669" "nonce")
    as (Accept & _ & Reject).
  split; [exact Accept|]. split; [vm_compute; reflexivity|].
  apply (Reject 0%nat "x"%char).
  - apply Nat.ltb_lt. vm_compute. reflexivity.
  - vm_compute. discriminate.
Defined.

(** *** C5 *)

Lemma a1450_no_space : no_space a1450.
Proof.
  intros i c Hi. apply get_replicate_char in Hi. now subst.
Qed.

Lemma C5_chunking_witness :
  Z.of_nat MAX_LENGTH < len a1450
  /\ exists chunks,
      splitChunks a1450 = Some chunks
      /\ Forall (fun c => 0 < len c <= 600) chunks
      /\ Rebuilds chunks a1450
      /\ Split a1450 chunks
      /\ chunks = [take 600 a1450; take 600 (drop 600 a1450);
                   drop 1200 a1450].
Proof.
  assert (Long : Z.of_nat MAX_LENGTH < len a1450) by (vm_compute; reflexivity).
  split; [exact Long|].
  destruct (C5_chunking a1450 Long)
    as (chunks & Loop & _ & _ & Max & _ & Re & _ & Three & Policy & _).
  exists chunks. repeat split; try assumption.
  apply Three; [apply length_replicate_char | apply a1450_no_space].
Defined.

(** Three runs of 400 letters with a space between them: every split
    is at a space, and the space is dropped.  Splitting by the policy
    once and cutting at the ceiling afterwards gives other chunks,
    which the policy does not name. *)
Definition spaced1202 : string :=
  replicate_char 400 "a" +++ " " +++ replicate_char 400 "b" +++ " "
    +++ replicate_char 400 "c".

Lemma every_split_by_the_policy :
  splitChunks spaced1202
  = Some [replicate_char 400 "a"; replicate_char 400 "b";
          replicate_char 400 "c"]
  /\ ~ Split spaced1202
        [take 400 spaced1202; take 600 (drop 400 spaced1202);
         drop 1000 spaced1202].
Proof.
  assert (Long : Z.of_nat MAX_LENGTH < len spaced1202)
    by (vm_compute; reflexivity).
  assert (Loop : splitChunks spaced1202
                 = Some [replicate_char 400 "a"; replicate_char 400 "b";
                         replicate_char 400 "c"])
    by (vm_compute; reflexivity).
  split; [exact Loop|].
  intros Other. apply split_loop_Split in Loop.
  pose proof (Split_unique _ _ _ Loop Other) as E.
  vm_compute in E. discriminate.
Qed.

(** The claim as stated fails: of the three texts sent for 1450
    letters the second and the third carry a marker and the second has
    606 code units; and a text of 1450 code units without line feed
    can split into four chunks. *)
Lemma C5_counterexample :
  String.length a1450 = 1450%nat
  /\ lastIndexOf a1450 LF 1449 = -1
  /\ option_map (List.map String.length) (outgoingTexts a1450)
     = Some [600%nat; 606%nat; 256%nat]
  /\ String.length spaced1450 = 1450%nat
  /\ lastIndexOf spaced1450 LF 1449 = -1
  /\ option_map (List.map String.length) (outgoingTexts spaced1450)
     = Some [300%nat; 306%nat; 306%nat; 553%nat].
Proof. vm_compute. repeat split. Qed.

(** *** C1 and C2 *)

Lemma C1_binding_roundtrip_witness :
  Js.truthy (lookupBinding "U1" world0) = false
  /\ fst (getBinding "U1" world1)
     = Ok (UserBinding url1 "tok1" 1700000000000)
  /\ fst (getBinding "U1" (snd (handleMessage config0 bind2 world1)))
     = Ok (UserBinding url1 "tok1" 1700000000000)
  /\ fst (getBinding "U1"
            (snd (handleMessage config0 unbind0
                    (snd (handleMessage config0 bind2 world1)))))
     = Ok JNull.
Proof.
  assert (Unbound : Js.truthy (lookupBinding "U1" world0) = false)
    by (vm_compute; reflexivity).
  split; [exact Unbound|].
  assert (W1 : word url1) by (apply word_check; vm_compute; reflexivity).
  assert (W2 : word "tok1") by (apply word_check; vm_compute; reflexivity).
  assert (W3 : word url2) by (apply word_check; vm_compute; reflexivity).
  assert (W4 : word "tok2") by (apply word_check; vm_compute; reflexivity).
  assert (U1 : URL_ok url1 = true) by (vm_compute; reflexivity).
  assert (U2 : URL_ok url2 = true) by (vm_compute; reflexivity).
  assert (S1 : stores_faithfully (UserBinding url1 "tok1" (clock world0)))
    by (split; [vm_compute; discriminate | vm_compute; reflexivity]).
  assert (S2 : stores_faithfully (UserBinding url2 "tok2" (clock world0)))
    by (split; [vm_compute; discriminate | vm_compute; reflexivity]).
  assert (M1 : textMessage_from "U1" ("bind " +++ url1 +++ " " +++ "tok1") bind1)
    by (repeat split; reflexivity).
  assert (M2 : textMessage_from "U1" ("bind " +++ url2 +++ " " +++ "tok2") bind2)
    by (repeat split; reflexivity).
  assert (Mu : textMessage_from "U1" "unbind" unbind0)
    by (repeat split; reflexivity).
  pose proof (C1_binding_roundtrip config0 world0 "U1" url1 "tok1" url2 "tok2"
                bind1 bind2 unbind0 W1 W2 W3 W4 U1 U2 S1 S2 M1 M2 Mu Unbound)
    as Run.
  cbv zeta in Run.
  destruct Run as (_ & Look1 & _ & _ & Look2 & _ & Look3 & _).
  unfold world1. rewrite Look1, Look2, Look3. repeat split.
Defined.

(** The claim as stated fails: a second bind command from a bound
    subject does not replace the Binding; it is forwarded as a task. *)
Lemma C1_counterexample :
  fst (getBinding "U1" (snd (handleMessage config0 bind2 world1)))
  = Ok (UserBinding url1 "tok1" 1700000000000)
  /\ UserBinding url1 "tok1" 1700000000000
     <> UserBinding url2 "tok2" 1700000000000
  /\ trace (snd (handleMessage config0 bind2 world1))
     = [EvForward (Some (JStr url1)) (Some (JStr "tok1"))
                  (payloadOf config0 bind2)]
  /\ task (payloadOf config0 bind2)
     = TagString "bind http://other.example/hook tok2".
Proof.
  split; [vm_compute; reflexivity|].
  split; [discriminate|].
  split; vm_compute; reflexivity.
Qed.

Lemma C2_unbind_witness :
  Js.truthy (lookupBinding "U1" world1) = true
  /\ UNBIND_REGEX (trim "unbind") = true
  /\ handleMessage config0 unbind0 world1
     = (Ok (xmlReply unbind0 unbindOkMsg world1),
        without_key (BINDING_PREFIX +++ "U1") world1)
  /\ getBinding "U1" (without_key (BINDING_PREFIX +++ "U1") world1)
     = (Ok JNull, without_key (BINDING_PREFIX +++ "U1") world1).
Proof.
  assert (Bound : Js.truthy (lookupBinding "U1" world1) = true)
    by (vm_compute; reflexivity).
  split; [exact Bound|]. split; [reflexivity|].
  destruct (C2_unbind config0 world1 "U1" "unbind" unbind0) as [Deletes _];
    [repeat split; reflexivity | reflexivity |].
  exact (Deletes Bound).
Defined.

(** The claim as stated fails: to a subject without a Binding,
    [unbind] is answered with the request to bind, not with the unbind
    confirmation. *)
Lemma C2_counterexample :
  Js.truthy (lookupBinding "U1" world0) = false
  /\ body (match fst (handleMessage config0 unbind0 world0) with
           | Ok response => response
           | _ => internalError
           end)
     = BodyXml {| reply_ToUserName := "U1";
                  reply_FromUserName := "gh_account";
                  reply_CreateTime := 1700000000;
                  reply_MsgType := "text";
                  reply_Content := Some pleaseBindMsg |}
  /\ pleaseBindMsg <> unbindOkMsg.
Proof.
  split; [vm_compute; reflexivity|].
  split; [vm_compute; reflexivity | discriminate].
Qed.

(** *** C4 *)

(** A text that reads [0], and one that reads [false]. *)
Definition zero : WeChatMessage := message_with "U1" "text" (Some (TagNumber 0)).




(** *** C9 *)

Definition handshake (echo : option string) : WeChatQueryParams :=
  {| signature := Some "b33bbce8570df174133e402c6c0596b45d7d9641";
     timestamp := Some "1409735669";
     nonce := Some "nonce";
     echostr := echo |}.

Lemma C9_handshake_witness :
  validateSignature "tok" "b33bbce8570df174133e402c6c0596b45d7d9641"
                    "1409735669" "nonce" = true
  /\ get_wechat config0 (handshake (Some "5983128932"))
     = {| status := 200; contentType := Some "text/plain";
          body := BodyText "5983128932" |}.
Proof.
  assert (Valid : validateSignature
                    "tok" "b33bbce8570df174133e402c6c0596b45d7d9641"
                    "1409735669" "nonce" = true) by (vm_compute; reflexivity).
  split; [exact Valid|].
  destruct (C9_handshake config0 (handshake (Some "5983128932")))
    as (_ & Present).
  pose proof (Present "b33bbce8570df174133e402c6c0596b45d7d9641"
                      "1409735669" "nonce"
                      eq_refl ltac:(discriminate) eq_refl ltac:(discriminate)
                      eq_refl ltac:(discriminate))
    as (Echo & _).
  apply Echo; [exact Valid | reflexivity | discriminate].
Defined.

(** The claim as stated fails: a valid signature without an echostr
    is answered 403. *)
Lemma C9_counterexample :
  validateSignature (wechat_token config0)
                    "b33bbce8570df174133e402c6c0596b45d7d9641"
                    "1409735669" "nonce" = true
  /\ status (get_wechat config0 (handshake None)) = 403
  /\ status (get_wechat config0 (handshake (Some ""))) = 403.
Proof. vm_compute. repeat split. Qed.

(** *** C6 *)


(** The platform rejects the cached token and then refuses a new one. *)
Definition rejecting_twice : World :=
  world_with_token 7000
    [Some {| send_errcode := Some 40001 |}; Some {| send_errcode := Some 0 |}]
    [Some {| token_errcode := Some 40125; token_errmsg := "invalid appsecret";
             access_token := ""; expires_in := 0 |}].


(** The rejected token is deleted, not only replaced: when the
    refresh is refused, the cache is left empty. *)
Lemma rejected_token_deleted :
  cached_token rejecting_twice
  = Some {| accessToken := "T0"; expiresAt := 1700007000 |}
  /\ fst (sendCustomerServiceMessage config0 1 hello true rejecting_twice)
     = Ok false
  /\ trace (snd (sendCustomerServiceMessage config0 1 hello true
                   rejecting_twice))
     = [EvSend "T0" hello; fetch_event config0]
  /\ lookup_key TOKEN_KEY
       (snd (sendCustomerServiceMessage config0 1 hello true rejecting_twice))
     = None.
Proof. repeat split; vm_compute; reflexivity. Qed.

(** *** C7 *)

Definition delivering : World :=
  world_with_token 7000 [Some {| send_errcode := Some 0 |}] [].

Lemma C7_callback_witness :
  messageContent (answer42 1500)
  = "42" +++ NEWLINE +++ NEWLINE +++ "⏱️ 思考用时: 1.5s"
  /\ fst (post_callback config0 1 "U1" (answer42 1500) delivering)
     = Ok okResponse
  /\ fst (post_callback config0 1 "U1" (answer42 1500)
            (without_key (BINDING_PREFIX +++ "U1") delivering))
     = Ok okResponse.
Proof.
  destruct (C7_callback config0 1 0 "U1" (answer42 1500) delivering)
    as (Suffix & _ & Sent & _ & _ & Unbound).
  assert (Text : messageContent (answer42 1500)
                 = "42" +++ NEWLINE +++ NEWLINE +++ "⏱️ 思考用时: 1.5s").
  { pose proof (Suffix _ _ eq_refl eq_refl eq_refl) as Shown.
    rewrite seconds_toFixed1_run in Shown. exact Shown. }
  split; [exact Text|].
  assert (Delivered :
            post_callback config0 1 "U1" (answer42 1500) delivering
            = (Ok okResponse,
               snd (sendTextMessage config0 1 "U1"
                      (messageContent (answer42 1500)) delivering))).
  { apply Sent. rewrite Text. vm_compute. reflexivity. }
  cbv zeta in Unbound. destruct Unbound as [Same _].
  rewrite <- Same, Delivered. split; reflexivity.
Defined.

(** The claim as stated fails: a thinking time of zero is present in
    the metadata and no suffix is appended. *)
Lemma C7_counterexample :
  metadata (answer42 0)
  = Some {| chunks := None; thinking_time_ms := Some 0 |}
  /\ messageContent (answer42 0) = "42".
Proof. split; reflexivity. Qed.

(** *** C8 *)

Definition expiring : World := world_with_token 300 [] [Some goodToken].


(** *** C10 *)

Definition corrupted : World :=
  {| redis := {[ BINDING_PREFIX +++ "U1" := "{endpoint:" ]};
     expiry := ∅; clock := 1700000000000;
     token_endpoint := []; send_endpoint := []; trace := [] |}.

Lemma C10_corrupt_entry_witness :
  lookup_key (BINDING_PREFIX +++ "U1") corrupted = Some "{endpoint:"
  /\ JSON_parse "{endpoint:" = None
  /\ getBinding "U1" corrupted = (Ok JNull, corrupted)
  /\ fst (handleMessage config0 bind1 corrupted)
     = fst (handleMessage config0 bind1 world0).
Proof.
  assert (Stored : lookup_key (BINDING_PREFIX +++ "U1") corrupted
                   = Some "{endpoint:") by (vm_compute; reflexivity).
  assert (Broken : JSON_parse "{endpoint:" = None) by (vm_compute; reflexivity).
  split; [exact Stored|]. split; [exact Broken|].
  pose proof (C10_corrupt_entry config0 corrupted "U1" "{endpoint:"
                                Stored Broken) as Run.
  cbv zeta in Run. destruct Run as (Null & _ & Messages & _).
  split; [exact Null|].
  destruct (Messages bind1 eq_refl) as (Same & _).
  rewrite Same. vm_compute. reflexivity.
Defined.

End Scenario.

(** * Further runs, on the reference implementation *)

Module Runs.
Import Reference ReferenceEnv Signature Chunking RedisService.
Import WechatToken WechatMessage Forwarder WechatRoutes CallbackRoutes.
Import ConfigLoader Scenario.

(** A text that reads [12345]: the parser delivers a number. *)
Definition digits : WeChatMessage :=
  message_with "U1" "text" (Some (TagNumber 12345)).

Lemma digits_unreadable : unreadable digits.
Proof. split; [reflexivity|]. left. now exists 12345. Qed.

Lemma handleMessage_footprint_witness :
  handleMessage config0 digits world0 = (Ok internalError, world0)
  /\ handleMessage config0 digits world1 = (Ok internalError, world1)
  /\ status (match fst (handleMessage config0 zero world1) with
             | Ok response => response
             | _ => internalError
             end) = 200.
Proof.
  destruct (handleMessage_footprint config0 digits world0)
    as (r0 & w0 & Run0 & Crash0 & _).
  destruct (handleMessage_footprint config0 digits world1)
    as (r1 & w1 & Run1 & Crash1 & _).
  destruct (handleMessage_footprint config0 zero world1)
    as (r2 & w2 & Run2 & _ & Fine & _).
  destruct (Crash0 digits_unreadable) as [-> ->].
  destruct (Crash1 digits_unreadable) as [-> ->].
  split; [exact Run0|]. split; [exact Run1|].
  rewrite Run2. apply Fine.
  intros (_ & [(n & E & T)|E]); [|discriminate].
  injection E as <-. discriminate.
Defined.

Lemma handleMessage_replies_to_sender_witness :
  fst (handleMessage config0 digits world1) = Ok internalError
  /\ fst (handleMessage config0 zero world1)
     = Ok (xmlReply zero processingMsg world1).
Proof.
  destruct (handleMessage_replies_to_sender config0 digits world1)
    as (r & Run & [(_ & ->)|(Fine & _)]);
    [|now destruct (Fine digits_unreadable)].
  split; [exact Run|]. vm_compute. reflexivity.
Defined.

Definition u2_binds : WeChatMessage :=
  message_from "U2" "text" (Some ("bind " +++ url2 +++ " " +++ "tok2")).

Lemma handleMessage_other_subjects_witness :
  "U1" <> FromUserName u2_binds
  /\ fst (getBinding "U2" (snd (handleMessage config0 u2_binds world1)))
     = Ok (UserBinding url2 "tok2" 1700000000000)
  /\ fst (getBinding "U1" (snd (handleMessage config0 u2_binds world1)))
     = Ok (UserBinding url1 "tok1" 1700000000000).
Proof.
  assert (Other : "U1" <> FromUserName u2_binds) by discriminate.
  split; [exact Other|]. split; [vm_compute; reflexivity|].
  pose proof (handleMessage_other_subjects config0 u2_binds world1 "U1" Other)
    as Run.
  cbv zeta in Run. destruct Run as [Same _]. rewrite Same.
  vm_compute. reflexivity.
Defined.

Definition bad_bind : WeChatMessage :=
  message_from "U1" "text" (Some "bind runtime.example/webhook tok1").

Lemma handle_bind_invalid_url_witness :
  BIND_REGEX "bind runtime.example/webhook tok1"
  = Some ("runtime.example/webhook", "tok1")
  /\ URL_ok "runtime.example/webhook" = false
  /\ handleMessage config0 bad_bind world0
     = (Ok (xmlReply bad_bind invalidUrlMsg world0), world0).
Proof.
  assert (Match : BIND_REGEX "bind runtime.example/webhook tok1"
                  = Some ("runtime.example/webhook", "tok1"))
    by (vm_compute; reflexivity).
  assert (Bad : URL_ok "runtime.example/webhook" = false)
    by (vm_compute; reflexivity).
  split; [exact Match|]. split; [exact Bad|].
  apply (handle_bind_invalid_url config0 world0 "U1"
           "bind runtime.example/webhook tok1" "runtime.example/webhook" "tok1").
  - repeat split; reflexivity.
  - exact Match.
  - exact Bad.
  - vm_compute. reflexivity.
Defined.

(** A picture whose [Content] field reads [unbind]. *)
Definition picture : WeChatMessage := message_from "U1" "image" (Some "unbind").

Lemma handle_non_text_witness :
  Js.truthy (lookupBinding "U1" world1) = true
  /\ fst (handleMessage config0 picture world1)
     = Ok (xmlReply picture processingMsg world1)
  /\ fst (getBinding "U1" (snd (handleMessage config0 picture world1)))
     = Ok (UserBinding url1 "tok1" 1700000000000)
  /\ handleMessage config0 picture world0
     = (Ok (xmlReply picture pleaseBindMsg world0), world0).
Proof.
  assert (Bound : Js.truthy (lookupBinding "U1" world1) = true)
    by (vm_compute; reflexivity).
  split; [exact Bound|].
  destruct (handle_non_text config0 world1 picture) as [Forwards _];
    [discriminate | discriminate |].
  destruct (handle_non_text config0 world0 picture) as [_ Asks];
    [discriminate | discriminate |].
  rewrite (Forwards Bound). split; [reflexivity|].
  split; [vm_compute; reflexivity|].
  apply Asks. vm_compute. reflexivity.
Defined.

Lemma refresh_releases_lock_witness :
  lookup_key TOKEN_LOCK_KEY expiring = None
  /\ fst (refreshAccessToken config0 0 expiring) = Ok "T1"
  /\ lookup_key TOKEN_LOCK_KEY (snd (refreshAccessToken config0 0 expiring))
     = None
  /\ trace (snd (refreshAccessToken config0 0 expiring)) = [fetch_event config0].
Proof.
  assert (Free : lookup_key TOKEN_LOCK_KEY expiring = None)
    by (vm_compute; reflexivity).
  split; [exact Free|].
  pose proof (refresh_releases_lock config0 0 expiring Free) as Run.
  cbv zeta in Run. destruct Run as (_ & Released & Calls & _).
  split; [vm_compute; reflexivity|]. split; [exact Released | exact Calls].
Defined.

Definition badCredentials : TokenResponse :=
  {| token_errcode := Some 40013; token_errmsg := "invalid appid";
     access_token := ""; expires_in := 0 |}.

(** A stale token in the cache and a credential endpoint that refuses. *)
Definition refusing : World := world_with_token 300 [] [Some badCredentials].

Lemma refresh_failure_keeps_cache_witness :
  lookup_key TOKEN_LOCK_KEY refusing = None
  /\ fst (refreshAccessToken config0 0 refusing)
     = Throw (WeChatApiError 40013 "invalid appid")
  /\ lookup_key TOKEN_KEY (snd (refreshAccessToken config0 0 refusing))
     = lookup_key TOKEN_KEY refusing
  /\ lookup_key TOKEN_KEY (snd (forceRefreshToken config0 0 refusing)) = None.
Proof.
  assert (Free : lookup_key TOKEN_LOCK_KEY refusing = None)
    by (vm_compute; reflexivity).
  split; [exact Free|].
  pose proof (refresh_failure_keeps_cache config0 0 refusing Free) as Run.
  cbv zeta in Run. destruct Run as (Refused & _ & _ & Kept & Forced).
  assert (Thrown : fst (refreshAccessToken config0 0 refusing)
                   = Throw (WeChatApiError 40013 "invalid appid")).
  { apply (Refused badCredentials []); [reflexivity|].
    split; [reflexivity | discriminate]. }
  split; [exact Thrown|]. split; [exact (proj1 (Kept _ Thrown))|].
  apply (Forced (WeChatApiError 40013 "invalid appid")).
  vm_compute. reflexivity.
Defined.

(** No token in the cache; the credential endpoint grants one for two
    hours. *)
Definition granting : World :=
  {| redis := ∅; expiry := ∅; clock := 1700000000000;
     token_endpoint := [Some goodToken]; send_endpoint := []; trace := [] |}.

Lemma cached_token_lifetime_witness :
  fst (refreshAccessToken config0 0 granting) = Ok "T1"
  /\ fst (getAccessToken config0 1
            (snd (sleep 6599000 (snd (refreshAccessToken config0 0 granting)))))
     = Ok "T1"
  /\ getAccessToken config0 1
       (snd (sleep 6600000 (snd (refreshAccessToken config0 0 granting))))
     = refreshAccessToken config0 0
         (snd (sleep 6600000 (snd (refreshAccessToken config0 0 granting))))
  /\ lookup_key TOKEN_KEY
       (snd (sleep 7200000 (snd (refreshAccessToken config0 0 granting))))
     = None.
Proof.
  assert (Free : lookup_key TOKEN_LOCK_KEY granting = None)
    by (vm_compute; reflexivity).
  assert (Good : token_ok goodToken) by now left.
  assert (Stored : stores_faithfully
                     (TokenCache_json (refreshed_entry granting goodToken)))
    by (split; [vm_compute; discriminate | vm_compute; reflexivity]).
  pose proof (cached_token_lifetime config0 0 granting goodToken [] 6599000
                Free eq_refl Good eq_refl Stored ltac:(lia)) as Early.
  pose proof (cached_token_lifetime config0 0 granting goodToken [] 6600000
                Free eq_refl Good eq_refl Stored ltac:(lia)) as Late.
  pose proof (cached_token_lifetime config0 0 granting goodToken [] 7200000
                Free eq_refl Good eq_refl Stored ltac:(lia)) as Gone.
  cbv zeta in Early, Late, Gone.
  destruct Early as (Granted & Served & _).
  destruct Late as (_ & _ & Refreshed & _).
  destruct Gone as (_ & _ & _ & _ & Dropped).
  split; [exact Granted|]. split.
  - rewrite Served; [reflexivity | vm_compute; reflexivity].
  - split; [apply Refreshed; vm_compute; discriminate|].
    apply Dropped. vm_compute. discriminate.
Defined.

(** The token entry has been overwritten with something that is no
    JSON. *)
Definition garbled : World :=
  {| redis := {[ TOKEN_KEY := "{accessToken:" ]};
     expiry := ∅; clock := 1700000000000;
     token_endpoint := [Some goodToken];
     send_endpoint := [Some {| send_errcode := Some 0 |}]; trace := [] |}.

Lemma corrupt_token_entry_blocks_sending_witness :
  lookup_key TOKEN_KEY garbled = Some "{accessToken:"
  /\ JSON_parse "{accessToken:" = None
  /\ sendCustomerServiceMessage config0 1 hello true garbled = (Ok false, garbled)
  /\ sendTextMessage config0 1 "U1" "hello" garbled = (Ok false, garbled).
Proof.
  assert (Stored : lookup_key TOKEN_KEY garbled = Some "{accessToken:")
    by (vm_compute; reflexivity).
  assert (Broken : JSON_parse "{accessToken:" = None)
    by (vm_compute; reflexivity).
  split; [exact Stored|]. split; [exact Broken|].
  destruct (corrupt_token_entry_blocks_sending
              config0 0 garbled "{accessToken:" hello true "U1" "hello"
              Stored ltac:(discriminate) Broken) as (_ & Blocked & Short).
  split; [exact Blocked|]. apply Short. vm_compute. discriminate.
Defined.

(** A fresh token, and a send API that answers 45015 (the user has
    not written for too long). *)
Definition out_of_window : World :=
  world_with_token 7000 [Some {| send_errcode := Some 45015 |};
                         Some {| send_errcode := Some 0 |}] [Some goodToken].

Lemma send_failure_without_retry_witness :
  fst (sendCustomerServiceMessage config0 1 hello true out_of_window)
  = Ok false
  /\ trace (snd (sendCustomerServiceMessage config0 1 hello true out_of_window))
     = [EvSend "T0" hello]
  /\ send_endpoint
       (snd (sendCustomerServiceMessage config0 1 hello true out_of_window))
     = [Some {| send_errcode := Some 0 |}].
Proof.
  destruct (send_failure_without_retry
              config0 0 out_of_window
              {| accessToken := "T0"; expiresAt := 1700007000 |} hello true
              (Some {| send_errcode := Some 45015 |})
              [Some {| send_errcode := Some 0 |}])
    as (w' & Run & Calls & Left & _).
  - vm_compute. reflexivity.
  - vm_compute. reflexivity.
  - reflexivity.
  - split; discriminate.
  - rewrite Run. repeat split; assumption.
Defined.

(** A fresh token and a send API that takes the first and the third
    message and refuses the second. *)
Definition second_refused : World :=
  world_with_token 7000 [Some {| send_errcode := Some 0 |};
                         Some {| send_errcode := Some 45015 |};
                         Some {| send_errcode := Some 0 |}] [].

Lemma sendTextMessage_sends_every_chunk_witness :
  fst (sendTextMessage config0 1 "U1" a1450 second_refused) = Ok false
  /\ List.map
       (fun e => match e with
                 | EvSend _ (CustomerServiceTextMessage _ text) =>
                     String.length text
                 | _ => 0%nat
                 end)
       (sends (snd (sendTextMessage config0 1 "U1" a1450 second_refused)))
     = [600%nat; 606%nat; 256%nat]
  /\ clock (snd (sendTextMessage config0 1 "U1" a1450 second_refused))
     = clock second_refused + 200.
Proof.
  assert (Chunks : splitChunks a1450
                   = Some [take 600 a1450; take 600 (drop 600 a1450);
                           drop 1200 a1450])
    by (apply splitChunks_1450;
        [apply length_replicate_char | apply a1450_no_space]).
  destruct (sendTextMessage_sends_every_chunk
              config0 0 second_refused
              {| accessToken := "T0"; expiresAt := 1700007000 |}
              "U1" a1450 _
              [Some {| send_errcode := Some 0 |};
               Some {| send_errcode := Some 45015 |};
               Some {| send_errcode := Some 0 |}] []
              ltac:(vm_compute; reflexivity) Chunks)
    as (w' & Run & Sent & _ & _ & _ & _ & Time).
  - split; [|split].
    + exists (JSON_stringify
                (TokenCache_json
                   {| accessToken := "T0"; expiresAt := 1700007000 |})),
             (TokenCache_json
                {| accessToken := "T0"; expiresAt := 1700007000 |}).
      repeat split; vm_compute; try reflexivity; discriminate.
    + intros deadline E. vm_compute in E. discriminate.
    + vm_compute. reflexivity.
  - reflexivity.
  - reflexivity.
  - intros r [E|[E|[E|[]]]]; injection E as <-; discriminate.
  - rewrite Run. cbn [fst snd]. split; [reflexivity|].
    split; [rewrite Sent; vm_compute; reflexivity | exact Time].
Defined.

(** No token in the cache, and a lock left behind that expires in a
    second and a half. *)
Definition locked : World :=
  {| redis := {[ TOKEN_LOCK_KEY := "1" ]};
     expiry := {[ TOKEN_LOCK_KEY := 1700000001500 ]};
     clock := 1700000000000;
     token_endpoint := [Some goodToken]; send_endpoint := []; trace := [] |}.

Lemma getAccessToken_waits_for_lock_witness :
  fst (getAccessToken config0 3 locked) = Ok "T1"
  /\ trace (snd (getAccessToken config0 3 locked))
     = [EvSleep 1000; EvSleep 1000; fetch_event config0]
  /\ lookup_key TOKEN_LOCK_KEY (snd (getAccessToken config0 3 locked)) = None.
Proof.
  destruct (getAccessToken_waits_for_lock config0 0 2 locked "1" 1700000001500)
    as (w' & Run & Calls & _ & Released).
  - vm_compute. reflexivity.
  - vm_compute. reflexivity.
  - vm_compute. reflexivity.
  - vm_compute. split; [reflexivity | discriminate].
  - change (S (2 + 0)) with 3%nat in Run. rewrite Run.
    split; [vm_compute; reflexivity|]. split; [exact Calls | exact Released].
Defined.

Lemma isBound_weaker_than_getBinding_witness :
  getBinding "U1" corrupted = (Ok JNull, corrupted)
  /\ isBound "U1" corrupted = (Ok true, corrupted)
  /\ isBound "U1" world1 = (Ok true, world1).
Proof.
  destruct (isBound_weaker_than_getBinding "U1" corrupted) as [_ Broken].
  destruct (isBound_weaker_than_getBinding "U1" world1) as [Whole _].
  destruct (Broken "{endpoint:") as [Null Bound];
    [vm_compute; reflexivity | vm_compute; reflexivity |].
  split; [exact Null|]. split; [exact Bound|].
  apply Whole. vm_compute. reflexivity.
Defined.

(** An environment that sets the four required variables and the
    port, and one that leaves the token empty. *)
Definition env_full : gmap string string :=
  {[ "WECHAT_APPID" := "wx0123456789abcdef";
     "WECHAT_APPSECRET" := "app-secret";
     "WECHAT_TOKEN" := "tok";
     "BRIDGE_BASE_URL" := "https://bridge.example";
     "PORT" := "8080" ]}.

Definition env_no_token : gmap string string :=
  <[ "WECHAT_TOKEN" := "" ]> env_full.

Definition loaded_full : ServerConfig :=
  {| port := Some 8080; host := "0.0.0.0";
     wechat_encodingAESKey := None;
     redis_url := "redis://localhost:6379";
     services := config0 |}.

Lemma loadConfig_env_full : loadConfig env_full = Loaded_ok loaded_full.
Proof.
  unfold loadConfig, requireEnv.
  replace (env_full !! "WECHAT_APPID") with (Some "wx0123456789abcdef")
    by (vm_compute; reflexivity).
  replace (env_full !! "WECHAT_APPSECRET") with (Some "app-secret")
    by (vm_compute; reflexivity).
  replace (env_full !! "WECHAT_TOKEN") with (Some "tok")
    by (vm_compute; reflexivity).
  replace (env_full !! "BRIDGE_BASE_URL") with (Some "https://bridge.example")
    by (vm_compute; reflexivity).
  replace (env_full !! "PORT") with (Some "8080") by (vm_compute; reflexivity).
  replace (env_full !! "HOST") with (@None string) by (vm_compute; reflexivity).
  replace (env_full !! "REDIS_URL") with (@None string)
    by (vm_compute; reflexivity).
  replace (env_full !! "WECHAT_ENCODING_AES_KEY") with (@None string)
    by (vm_compute; reflexivity).
  reflexivity.
Qed.

Lemma loadConfig_env_no_token :
  loadConfig env_no_token
  = Loaded_error "Missing required environment variable: WECHAT_TOKEN".
Proof.
  unfold loadConfig, requireEnv.
  replace (env_no_token !! "WECHAT_APPID") with (Some "wx0123456789abcdef")
    by (vm_compute; reflexivity).
  replace (env_no_token !! "WECHAT_APPSECRET") with (Some "app-secret")
    by (vm_compute; reflexivity).
  replace (env_no_token !! "WECHAT_TOKEN") with (Some "")
    by (vm_compute; reflexivity).
  reflexivity.
Qed.

Lemma loadConfig_required_witness :
  loadConfig env_no_token
  = Loaded_error "Missing required environment variable: WECHAT_TOKEN"
  /\ exists config,
      loadConfig env_full = Loaded_ok config
      /\ services config = config0
      /\ port config = Some 8080
      /\ host config = "0.0.0.0"
      /\ redis_url config = "redis://localhost:6379".
Proof.
  destruct (loadConfig_required env_no_token) as [Missing _].
  destruct (loadConfig_required env_full) as [_ Present].
  split.
  - apply (Missing ["WECHAT_APPID"; "WECHAT_APPSECRET"] "WECHAT_TOKEN"
                   ["BRIDGE_BASE_URL"]); [reflexivity | |].
    + repeat constructor; intros [E|E]; vm_compute in E; discriminate.
    + right. vm_compute. reflexivity.
  - destruct Present as (config & Loaded & _).
    + repeat constructor; intros [E|E]; vm_compute in E; discriminate.
    + exists config. split; [exact Loaded|].
      rewrite loadConfig_env_full in Loaded. injection Loaded as <-.
      repeat split.
Defined.

Lemma getConfig_reads_once_witness :
  getConfig env_full None = (Loaded_ok loaded_full, Some loaded_full)
  /\ getConfig env_no_token (Some loaded_full)
     = (Loaded_ok loaded_full, Some loaded_full)
  /\ snd (getConfig env_no_token None) = None.
Proof.
  destruct (getConfig_reads_once env_full None) as [Fixed _].
  destruct (getConfig_reads_once env_no_token None) as [_ Failed].
  assert (First : getConfig env_full None
                  = (Loaded_ok loaded_full, Some loaded_full))
    by (unfold getConfig; now rewrite loadConfig_env_full).
  assert (Second : getConfig env_no_token None
                   = (Loaded_error
                        "Missing required environment variable: WECHAT_TOKEN",
                      None))
    by (unfold getConfig; now rewrite loadConfig_env_no_token).
  split; [exact First|].
  split; [exact (proj2 (Fixed _ _ First) env_no_token)|].
  exact (proj1 (proj2 (Failed _ _ Second))).
Defined.

Lemma post_callback_stream_keeps_nothing_witness :
  fold_left
    (fun w chunk => snd (post_callback_stream config0 1 "U1" chunk false w))
    ["The answer"; " is "] delivering = delivering
  /\ trace (snd (post_callback_stream config0 1 "U1" "42." true delivering))
     = [EvSend "T0" (CustomerServiceTextMessage "U1" "42.")]
  /\ fst (post_callback_stream config0 1 "U1" "42." true world0)
     = Ok {| status := 200; contentType := None;
             body := BodyJson (JObj [("ok", JBool false)]) |}.
Proof.
  destruct (post_callback_stream_keeps_nothing config0 1 0 "U1" delivering)
    as (_ & Dropped & _).
  destruct (post_callback_stream_keeps_nothing config0 1 0 "U1" world0)
    as (_ & _ & Last).
  split; [apply Dropped|]. split; [vm_compute; reflexivity|].
  destruct (Last "42.") as (sent & w' & Send & ->); [exact I | lia |].
  assert (E : fst (sendTextMessage config0 1 "U1" "42." world0) = Ok false)
    by (vm_compute; reflexivity).
  rewrite Send in E. cbn [fst] in *. now injection E as ->.
Defined.

(** A fresh token that the send API rejects, and a credential
    endpoint that cannot be reached. *)
Definition unreachable : World :=
  world_with_token 7000 [Some {| send_errcode := Some 40001 |};
                         Some {| send_errcode := Some 0 |}] [None].

Lemma retry_abandoned_when_refresh_fails_witness :
  fst (sendCustomerServiceMessage config0 1 hello true unreachable) = Ok false
  /\ trace (snd (sendCustomerServiceMessage config0 1 hello true unreachable))
     = [EvSend "T0" hello; fetch_event config0]
  /\ lookup_key TOKEN_KEY
       (snd (sendCustomerServiceMessage config0 1 hello true unreachable))
     = None.
Proof.
  destruct (retry_abandoned_when_refresh_fails
              config0 0 unreachable
              {| accessToken := "T0"; expiresAt := 1700007000 |} hello
              {| send_errcode := Some 40001 |}
              [Some {| send_errcode := Some 0 |}] NetworkError)
    as (w' & Run & Calls & _ & Gone & _).
  - vm_compute. reflexivity.
  - vm_compute. reflexivity.
  - vm_compute. reflexivity.
  - reflexivity.
  - reflexivity.
  - reflexivity.
  - rewrite Run. repeat split; assumption.
Defined.

End Runs.
